(** * SDL timer subsystem: a shallow embedding and its properties

    The development follows [SDL_timer.c]: the monotonic tick clock
    ([SDL_InitTicks], [SDL_GetTicksNS], [SDL_GetTicks]), the system timer
    resolution hint ([SDL_TimerResolutionChanged]), the precise delay
    ([SDL_DelayPrecise]) and the threaded timer queue
    ([SDL_AddTimerInternal], [SDL_TimerThread], [SDL_CreateTimer],
    [SDL_RemoveTimer]), and the variant of the timers without threads
    that runs on the host's event loop ([SDL_Emscripten_TimerHelper]).

    C integers are modelled as [Z] with the wrap-around of their width
    written out; linked lists threaded through [next] fields are lists of
    addresses into a heap of timer records. *)

From Stdlib Require Import ZArith Lia List Bool String Ascii Sorted.
From stdpp Require Import base option list gmap.

Local Open Scope Z_scope.

(** ** Machine integers *)

Definition SDL_MAX_UINT32 : Z := 4294967295.
Definition SDL_MAX_UINT64 : Z := 18446744073709551615.

(** Uint64 and Uint32 results of C arithmetic: reduction modulo the width. *)
Definition wrap64 (z : Z) : Z := z mod 18446744073709551616.
Definition wrap32 (z : Z) : Z := z mod 4294967296.
(** A C [int] (two's complement, 32 bits). *)
Definition wrap_int (z : Z) : Z := (z + 2147483648) mod 4294967296 - 2147483648.

Definition is_u64 (z : Z) : Prop := 0 <= z <= SDL_MAX_UINT64.
Definition is_u32 (z : Z) : Prop := 0 <= z <= SDL_MAX_UINT32.

(** Modelled from the spec: the unit constants of [SDL_timer.h], which the
    timer code uses and the spec fixes ([SHORT = 1_000_000 ns] is one
    millisecond, [num_ns <= 10^9]). *)
Definition SDL_MS_PER_SECOND : Z := 1000.
Definition SDL_NS_PER_SECOND : Z := 1000000000.
Definition SDL_NS_PER_MS : Z := 1000000.

(** Modelled from the spec: the conversion macros between milliseconds and
    nanoseconds ("converting interval to/from ns"), on Uint64. *)
Definition SDL_MS_TO_NS (ms : Z) : Z := wrap64 (wrap64 ms * SDL_NS_PER_MS).
Definition SDL_NS_TO_MS (ns : Z) : Z := ns / SDL_NS_PER_MS.

(** Modelled from the spec: [SDL_CalculateGCD] of [SDL_utils.c] is the
    greatest common divisor ("implementers compute gcd(unit_per_second,
    perf_freq) and divide both sides"). *)
Definition SDL_CalculateGCD (a b : Z) : Z := Z.gcd a b.

Lemma wrap64_range z : 0 <= wrap64 z <= SDL_MAX_UINT64.
Proof.
  unfold wrap64, SDL_MAX_UINT64.
  pose proof (Z.mod_pos_bound z 18446744073709551616). lia.
Qed.

Lemma wrap64_small z : 0 <= z <= SDL_MAX_UINT64 -> wrap64 z = z.
Proof. unfold wrap64, SDL_MAX_UINT64. intros H. apply Z.mod_small. lia. Qed.

Lemma wrap32_small z : 0 <= z <= SDL_MAX_UINT32 -> wrap32 z = z.
Proof. unfold wrap32, SDL_MAX_UINT32. intros H. apply Z.mod_small. lia. Qed.

Lemma wrap64_le z : 0 <= z -> wrap64 z <= z.
Proof. unfold wrap64. intros H. apply Z.mod_le; lia. Qed.

(** ** The monotonic tick clock *)

Module Ticks.

(** The file-scope statics of the clock. [hint_callbacks] counts the
    subscriptions of [SDL_TimerResolutionChanged] to the resolution hint. *)
Record TickState := mkTickState {
  tick_start : Z;
  tick_numerator_ns : Z;
  tick_denominator_ns : Z;
  tick_numerator_ms : Z;
  tick_denominator_ms : Z;
  hint_callbacks : nat
}.

Definition tick_zero : TickState := mkTickState 0 0 0 0 0 0.

Section Clock.
(** Build configuration: whether [SDL_assert] is compiled in. A failed
    assertion stops the program: the functions return [None]. *)
Variable asserts : bool.
(** The platform: [SDL_GetPerformanceFrequency ()] and the successive
    values of [SDL_GetPerformanceCounter ()]. *)
Variable tick_freq : Z.

Definition SDL_assert (cond : bool) : option unit :=
  if asserts && negb cond then None else Some tt.

Definition SDL_InitTicks (counter : Z) (st : TickState) : option TickState :=
  if negb (tick_start st =? 0) then Some st
  else
    _ ← SDL_assert ((0 <? tick_freq) && (tick_freq <=? SDL_MAX_UINT32));
    let gcd_ns := SDL_CalculateGCD SDL_NS_PER_SECOND (wrap32 tick_freq) in
    let num_ns := wrap32 (SDL_NS_PER_SECOND / gcd_ns) in
    let den_ns := wrap32 (tick_freq / gcd_ns) in
    let gcd_ms := SDL_CalculateGCD SDL_MS_PER_SECOND (wrap32 tick_freq) in
    let num_ms := wrap32 (SDL_MS_PER_SECOND / gcd_ms) in
    let den_ms := wrap32 (tick_freq / gcd_ms) in
    let start := counter in
    let start := if start =? 0 then wrap64 (start - 1) else start in
    Some (mkTickState start num_ns den_ns num_ms den_ms (S (hint_callbacks st))).

(** The conversion both getters share once the clock is initialised. *)
Definition scale (num den : Z) (counter : Z) (st : TickState) : option Z :=
  let starting_value := wrap64 (counter - tick_start st) in
  let value := wrap64 (starting_value * num) in
  _ ← SDL_assert (starting_value <=? value);
  Some (value / den).

(** [init_counter] is the counter value an initialisation triggered by
    this call would read, [counter] the one the conversion reads. *)
Definition SDL_GetTicksNS (init_counter counter : Z) (st : TickState)
  : option (Z * TickState) :=
  st ← (if tick_start st =? 0 then SDL_InitTicks init_counter st else Some st);
  v ← scale (tick_numerator_ns st) (tick_denominator_ns st) counter st;
  Some (v, st).

Definition SDL_GetTicks (init_counter counter : Z) (st : TickState)
  : option (Z * TickState) :=
  st ← (if tick_start st =? 0 then SDL_InitTicks init_counter st else Some st);
  v ← scale (tick_numerator_ms st) (tick_denominator_ms st) counter st;
  Some (v, st).

(** The part of [SDL_QuitTicks] that touches the clock: the hint callback
    is removed and the origin reset. *)
Definition reset_ticks (st : TickState) : TickState :=
  mkTickState 0 (tick_numerator_ns st) (tick_denominator_ns st)
    (tick_numerator_ms st) (tick_denominator_ms st) (pred (hint_callbacks st)).
End Clock.

(** *** The origin recorded by [SDL_InitTicks] *)

Section Origin.
Variables (asserts : bool) (tick_freq : Z).
Hypothesis freq_ok : asserts = false \/ 0 < tick_freq <= SDL_MAX_UINT32.

Lemma SDL_assert_freq :
  SDL_assert asserts ((0 <? tick_freq) && (tick_freq <=? SDL_MAX_UINT32)) = Some tt.
Proof.
  unfold SDL_assert. destruct freq_ok as [-> | [H1 H2]]; [reflexivity |].
  apply Z.ltb_lt in H1. apply Z.leb_le in H2. rewrite H1, H2.
  now rewrite andb_false_r.
Qed.

Lemma SDL_InitTicks_fresh counter st :
  tick_start st = 0 ->
  exists st', SDL_InitTicks asserts tick_freq counter st = Some st' /\
    tick_start st' = (if counter =? 0 then wrap64 (counter - 1) else counter).
Proof.
  intros H0. unfold SDL_InitTicks. rewrite H0. simpl.
  rewrite SDL_assert_freq. simpl. eexists. split; [reflexivity |]. reflexivity.
Qed.
End Origin.

(** C7, counterexample: with the performance counter reading zero at
    initialisation the recorded origin is not [max (perf_now ()) 1 = 1]:
    the code decrements the zero, which wraps to [2^64 - 1]. *)
Lemma C7_origin_is_not_max :
  tick_start <$> SDL_InitTicks true 10000000 0 tick_zero
    = Some 18446744073709551615 /\
  18446744073709551615 <> Z.max 0 1.
Proof. split; [vm_compute; reflexivity | discriminate]. Qed.

(** C7, as the code has it: [SDL_InitTicks] on an uninitialised clock records
    [tick_start = perf_now ()] when that reading is not zero and
    [tick_start = 2^64 - 1] (zero decremented with wrap-around) when it
    is zero; on an initialised clock it changes nothing. In every case
    [tick_start] is not zero afterwards. *)
Theorem C7_init_ticks_origin (asserts : bool) (tick_freq counter : Z) (st : TickState) :
  asserts = false \/ 0 < tick_freq <= SDL_MAX_UINT32 ->
  is_u64 counter ->
  exists st', SDL_InitTicks asserts tick_freq counter st = Some st' /\
    tick_start st' <> 0 /\
    (tick_start st = 0 -> counter <> 0 -> tick_start st' = counter) /\
    (tick_start st = 0 -> counter = 0 -> tick_start st' = SDL_MAX_UINT64) /\
    (tick_start st <> 0 -> st' = st).
Proof.
  intros Hf [Hc1 Hc2].
  destruct (Z.eq_dec (tick_start st) 0) as [H0 | Hn].
  - destruct (SDL_InitTicks_fresh asserts tick_freq Hf counter st H0) as (st' & E & Hs).
    exists st'. split; [exact E |]. rewrite Hs.
    destruct (Z.eqb_spec counter 0) as [-> | Hne].
    + repeat split; try discriminate; intros; contradiction.
    + repeat split; try assumption; intros; contradiction.
  - exists st. unfold SDL_InitTicks.
    destruct (Z.eqb_spec (tick_start st) 0) as [? | _]; [contradiction |].
    repeat split; try assumption; intros; contradiction.
Qed.

(** C7, an instance: a 10 MHz counter that reads zero at initialisation. *)
Lemma C7_init_ticks_origin_witness :
  exists st', SDL_InitTicks true 10000000 0 tick_zero = Some st' /\
    tick_start st' <> 0 /\ tick_start st' = SDL_MAX_UINT64.
Proof.
  destruct (C7_init_ticks_origin true 10000000 0 tick_zero)
    as (st' & E & Hn & _ & Hz & _).
  - right. unfold SDL_MAX_UINT32. lia.
  - unfold is_u64, SDL_MAX_UINT64. lia.
  - exists st'. split; [exact E |]. split; [exact Hn |]. apply Hz; reflexivity.
Defined.

(** *** The two conversions *)

(** What [SDL_InitTicks] leaves in the scalers, for a frequency that fits
    32 bits: numerator and denominator are the unit and the frequency, both
    divided by their greatest common divisor. *)
Section Scalers.
Variable tick_freq : Z.
Hypothesis freq_pos : 0 < tick_freq.
Hypothesis freq_u32 : tick_freq <= SDL_MAX_UINT32.

Lemma reduced_fraction (unit d : Z) :
  0 < unit -> 0 <= d ->
  let g := Z.gcd unit tick_freq in
  0 < g /\ 0 < unit / g <= unit /\ 0 < tick_freq / g <= tick_freq /\
  (d * (unit / g)) / (tick_freq / g) = (d * unit) / tick_freq.
Proof.
  intros Hu Hd g.
  assert (Hg : 0 < g).
  { pose proof (Z.gcd_nonneg unit tick_freq).
    assert (g <> 0) by (unfold g; intros E; apply Z.gcd_eq_0_l in E; lia). lia. }
  destruct (Z.gcd_divide_l unit tick_freq) as [n Hn].
  destruct (Z.gcd_divide_r unit tick_freq) as [m Hm].
  fold g in Hn, Hm.
  assert (En : unit / g = n) by (rewrite Hn at 1; apply Z.div_mul; lia).
  assert (Em : tick_freq / g = m) by (rewrite Hm at 1; apply Z.div_mul; lia).
  rewrite En, Em.
  assert (0 < n) by nia. assert (0 < m) by nia.
  repeat split; try lia; try nia.
  rewrite <- (Z.div_mul_cancel_r (d * n) m g) by lia.
  f_equal; lia.
Qed.

Lemma init_scalers asserts counter st st' :
  tick_start st = 0 ->
  SDL_InitTicks asserts tick_freq counter st = Some st' ->
  tick_numerator_ns st' = SDL_NS_PER_SECOND / Z.gcd SDL_NS_PER_SECOND tick_freq /\
  tick_denominator_ns st' = tick_freq / Z.gcd SDL_NS_PER_SECOND tick_freq /\
  tick_numerator_ms st' = SDL_MS_PER_SECOND / Z.gcd SDL_MS_PER_SECOND tick_freq /\
  tick_denominator_ms st' = tick_freq / Z.gcd SDL_MS_PER_SECOND tick_freq.
Proof.
  intros H0 E. unfold SDL_InitTicks in E. rewrite H0 in E. simpl in E.
  destruct (SDL_assert _ _); [| discriminate]. simpl in E.
  injection E as <-. cbn [tick_numerator_ns tick_denominator_ns
    tick_numerator_ms tick_denominator_ms]. unfold SDL_CalculateGCD.
  rewrite (wrap32_small tick_freq) by lia.
  destruct (reduced_fraction SDL_NS_PER_SECOND 0) as (_ & ? & ? & _);
    [reflexivity | lia |].
  destruct (reduced_fraction SDL_MS_PER_SECOND 0) as (_ & ? & ? & _);
    [reflexivity | lia |].
  unfold SDL_NS_PER_SECOND, SDL_MS_PER_SECOND, SDL_MAX_UINT32 in *.
  rewrite !wrap32_small; unfold SDL_MAX_UINT32; try lia.
  all: try (repeat split; reflexivity).
Qed.

(** The millisecond numerator never exceeds the nanosecond one. *)
Lemma numerator_ms_le_ns :
  SDL_MS_PER_SECOND / Z.gcd SDL_MS_PER_SECOND tick_freq
    <= SDL_NS_PER_SECOND / Z.gcd SDL_NS_PER_SECOND tick_freq.
Proof.
  set (g3 := Z.gcd SDL_MS_PER_SECOND tick_freq).
  set (g9 := Z.gcd SDL_NS_PER_SECOND tick_freq).
  assert (Hd : (g9 | 1000000 * g3)).
  { unfold g3. rewrite <- (Z.gcd_mul_mono_l_nonneg _ _ 1000000) by lia.
    apply Z.gcd_greatest.
    - change (1000000 * SDL_MS_PER_SECOND) with SDL_NS_PER_SECOND.
      apply Z.gcd_divide_l.
    - apply Z.divide_mul_r. apply Z.gcd_divide_r. }
  destruct (reduced_fraction SDL_NS_PER_SECOND 0) as (G9 & _ & _ & _);
    [reflexivity | lia |].
  destruct (reduced_fraction SDL_MS_PER_SECOND 0) as (G3 & _ & _ & _);
    [reflexivity | lia |].
  fold g9 in G9. fold g3 in G3.
  destruct Hd as [k Hk].
  destruct (Z.gcd_divide_l SDL_MS_PER_SECOND tick_freq) as [n Hn]. fold g3 in Hn.
  assert (E3 : SDL_MS_PER_SECOND / g3 = n) by (rewrite Hn at 1; apply Z.div_mul; lia).
  rewrite E3.
  assert (E9 : SDL_NS_PER_SECOND = (n * k) * g9).
  { change SDL_NS_PER_SECOND with (1000000 * SDL_MS_PER_SECOND). rewrite Hn. nia. }
  rewrite E9, Z.div_mul by lia.
  assert (0 < n) by (unfold SDL_MS_PER_SECOND in Hn; nia).
  assert (0 < k) by nia. nia.
Qed.
End Scalers.

Lemma scale_without_wrap asserts num den counter st :
  1 <= num ->
  wrap64 (counter - tick_start st) * num <= SDL_MAX_UINT64 ->
  scale asserts num den counter st
    = Some ((wrap64 (counter - tick_start st) * num) / den).
Proof.
  intros Hn Hw. unfold scale.
  pose proof (wrap64_range (counter - tick_start st)) as [Hd _].
  set (d := wrap64 (counter - tick_start st)) in *.
  rewrite (wrap64_small (d * num)) by nia.
  unfold SDL_assert. replace (d <=? d * num) with true by (symmetry; apply Z.leb_le; nia).
  now rewrite andb_false_r.
Qed.

(** A clock that [SDL_InitTicks] has initialised for the frequency. *)
Definition initialised (tick_freq : Z) (st : TickState) : Prop :=
  tick_start st <> 0 /\
  exists asserts counter st0, tick_start st0 = 0 /\
    SDL_InitTicks asserts tick_freq counter st0 = Some st.

(** Within the range where the Uint64 product does not wrap, both getters
    return the exact floor of the rational conversion, the nanosecond
    value divided by one million is the millisecond value, and the
    nanosecond value is monotone in the elapsed counter. *)
Lemma ticks_without_wrap asserts tick_freq st c0 c :
  0 < tick_freq <= SDL_MAX_UINT32 ->
  initialised tick_freq st ->
  let d := wrap64 (c - tick_start st) in
  d * tick_numerator_ns st <= SDL_MAX_UINT64 ->
  SDL_GetTicksNS asserts tick_freq c0 c st
    = Some ((d * SDL_NS_PER_SECOND) / tick_freq, st) /\
  SDL_GetTicks asserts tick_freq c0 c st
    = Some ((d * SDL_MS_PER_SECOND) / tick_freq, st) /\
  ((d * SDL_NS_PER_SECOND) / tick_freq) / 1000000
    = (d * SDL_MS_PER_SECOND) / tick_freq.
Proof.
  intros [Hf1 Hf2] (Hs & a0 & k0 & st0 & Hz & Hi) d Hw.
  destruct (init_scalers tick_freq Hf1 Hf2 a0 k0 st0 st Hz Hi) as (N1 & D1 & N2 & D2).
  pose proof (wrap64_range (c - tick_start st)) as [Hd _]. fold d in Hd.
  destruct (reduced_fraction tick_freq Hf1 SDL_NS_PER_SECOND d) as (_ & Hn & _ & En);
    [reflexivity | lia |].
  destruct (reduced_fraction tick_freq Hf1 SDL_MS_PER_SECOND d) as (_ & Hm & _ & Em);
    [reflexivity | lia |].
  pose proof (numerator_ms_le_ns tick_freq Hf1) as Hle.
  unfold SDL_GetTicksNS, SDL_GetTicks.
  destruct (Z.eqb_spec (tick_start st) 0) as [? | _]; [contradiction |]. simpl.
  rewrite !scale_without_wrap; fold d; rewrite ?N1, ?N2 in *; try lia; try nia.
  simpl. rewrite D1, D2, En, Em. repeat split.
  rewrite Z.div_div by lia.
  change SDL_NS_PER_SECOND with (SDL_MS_PER_SECOND * 1000000).
  rewrite Z.mul_assoc, Z.div_mul_cancel_r; lia.
Qed.

Lemma ticks_ns_monotone_without_wrap asserts tick_freq st c0 c1 c2 :
  0 < tick_freq <= SDL_MAX_UINT32 ->
  initialised tick_freq st ->
  wrap64 (c1 - tick_start st) <= wrap64 (c2 - tick_start st) ->
  wrap64 (c2 - tick_start st) * tick_numerator_ns st <= SDL_MAX_UINT64 ->
  exists v1 v2,
    SDL_GetTicksNS asserts tick_freq c0 c1 st = Some (v1, st) /\
    SDL_GetTicksNS asserts tick_freq c0 c2 st = Some (v2, st) /\ v1 <= v2.
Proof.
  intros Hf Hi Hle Hw.
  pose proof (wrap64_range (c1 - tick_start st)) as [Hd1 _].
  assert (N : 0 <= tick_numerator_ns st).
  { destruct Hi as (_ & a0 & k0 & st0 & Hz & Hi).
    destruct (init_scalers tick_freq (proj1 Hf) (proj2 Hf) a0 k0 st0 st Hz Hi) as (N1 & _).
    rewrite N1. apply Z.div_pos; [discriminate |].
    pose proof (Z.gcd_nonneg SDL_NS_PER_SECOND tick_freq).
    assert (Z.gcd SDL_NS_PER_SECOND tick_freq <> 0)
      by (intros E; apply Z.gcd_eq_0_l in E; discriminate). lia. }
  destruct (ticks_without_wrap asserts tick_freq st c0 c1 Hf Hi) as (E1 & _); [nia |].
  destruct (ticks_without_wrap asserts tick_freq st c0 c2 Hf Hi) as (E2 & _); [exact Hw |].
  eexists _, _. split; [exact E1 |]. split; [exact E2 |].
  apply Z.div_le_mono; [lia |]. unfold SDL_NS_PER_SECOND. lia.
Qed.

(** C9, where the code departs from it: with the 3.579545 MHz counter of
    older Windows machines the scalers are 200000000 / 715909, and
    7.2 hours after initialisation the Uint64 product wraps: one counter
    tick later [SDL_GetTicksNS] falls from 25766883882728 to 126, far from
    [SDL_GetTicks] (25766883 ms); with assertions compiled in, the
    function's own assertion fails there. *)
Theorem C9_ticks_ns_wraps :
  let st := mkTickState 1 200000000 715909 200 715909 1 in
  SDL_InitTicks false 3579545 1 tick_zero = Some st /\
  SDL_GetTicksNS false 3579545 1 92233720369 st = Some (25766883882728, st) /\
  SDL_GetTicksNS false 3579545 1 92233720370 st = Some (126, st) /\
  SDL_GetTicks false 3579545 1 92233720370 st = Some (25766883, st) /\
  SDL_GetTicksNS true 3579545 1 92233720370 st = None.
Proof. repeat split; vm_compute; reflexivity. Qed.

(** *** What the scalers are *)

Lemma numerator_ns_bounds tick_freq st :
  0 < tick_freq <= SDL_MAX_UINT32 -> initialised tick_freq st ->
  1 <= tick_numerator_ns st <= SDL_NS_PER_SECOND.
Proof.
  intros [Hf1 Hf2] (_ & a0 & k0 & st0 & Hz & Hi).
  destruct (init_scalers tick_freq Hf1 Hf2 a0 k0 st0 st Hz Hi) as (N1 & _).
  destruct (reduced_fraction tick_freq Hf1 SDL_NS_PER_SECOND 0) as (_ & Hn & _);
    [reflexivity | lia |].
  rewrite N1. lia.
Qed.


(** X12: the scalers that [SDL_InitTicks] computes on an uninitialised
    clock, for a counter frequency within the asserted range, are the
    fractions unit / frequency in lowest terms: numerator times frequency
    equals denominator times unit, numerator and denominator are coprime,
    the denominators are at least 1 (the getters never divide by zero)
    and none of the four values is changed by its cast to Uint32. The
    hint callback is registered once. *)
Theorem init_ticks_scalers (asserts : bool) (tick_freq counter : Z) (st st' : TickState) :
  0 < tick_freq <= SDL_MAX_UINT32 ->
  tick_start st = 0 ->
  SDL_InitTicks asserts tick_freq counter st = Some st' ->
  (tick_numerator_ns st' * tick_freq = tick_denominator_ns st' * SDL_NS_PER_SECOND /\
   Z.gcd (tick_numerator_ns st') (tick_denominator_ns st') = 1 /\
   1 <= tick_numerator_ns st' <= SDL_NS_PER_SECOND /\
   1 <= tick_denominator_ns st' <= tick_freq) /\
  (tick_numerator_ms st' * tick_freq = tick_denominator_ms st' * SDL_MS_PER_SECOND /\
   Z.gcd (tick_numerator_ms st') (tick_denominator_ms st') = 1 /\
   1 <= tick_numerator_ms st' <= SDL_MS_PER_SECOND /\
   1 <= tick_denominator_ms st' <= tick_freq) /\
  hint_callbacks st' = S (hint_callbacks st).
Proof.
  intros [Hf1 Hf2] H0 E.
  destruct (init_scalers tick_freq Hf1 Hf2 asserts counter st st' H0 E)
    as (N1 & D1 & N2 & D2).
  assert (Hfrac : forall unit, 0 < unit ->
    let g := Z.gcd unit tick_freq in
    (unit / g) * tick_freq = (tick_freq / g) * unit /\
    Z.gcd (unit / g) (tick_freq / g) = 1 /\
    1 <= unit / g <= unit /\ 1 <= tick_freq / g <= tick_freq).
  { intros unit Hu g.
    destruct (reduced_fraction tick_freq Hf1 unit 0 Hu (Z.le_refl 0)) as (Hg & Hn & Hd & _).
    fold g in Hg, Hn, Hd.
    destruct (Z.gcd_divide_l unit tick_freq) as [n Hn'].
    destruct (Z.gcd_divide_r unit tick_freq) as [m Hm'].
    fold g in Hn', Hm'.
    assert (En : unit / g = n) by (rewrite Hn' at 1; apply Z.div_mul; lia).
    assert (Em : tick_freq / g = m) by (rewrite Hm' at 1; apply Z.div_mul; lia).
    split; [rewrite En, Em; nia |].
    split; [apply Z.gcd_div_gcd; [lia | reflexivity] | lia]. }
  split; [| split].
  - rewrite N1, D1. apply Hfrac. reflexivity.
  - rewrite N2, D2. apply Hfrac. reflexivity.
  - unfold SDL_InitTicks in E. rewrite H0 in E. simpl in E.
    destruct (SDL_assert _ _); [| discriminate]. simpl in E. now injection E as <-.
Qed.

(** X12, an instance: a 10 MHz counter gives 100 ns and 1/10000 ms per
    tick. *)
Lemma init_ticks_scalers_witness :
  exists st', SDL_InitTicks true 10000000 5 tick_zero = Some st' /\
    tick_numerator_ns st' = 100 /\ tick_denominator_ns st' = 1 /\
    Z.gcd (tick_numerator_ms st') (tick_denominator_ms st') = 1.
Proof.
  eexists. split; [vm_compute; reflexivity |].
  destruct (init_ticks_scalers true 10000000 5 tick_zero
              (mkTickState 5 100 1 1 10000 1)) as (_ & (_ & Hg & _) & _).
  - unfold SDL_MAX_UINT32. lia.
  - reflexivity.
  - vm_compute. reflexivity.
  - split; [reflexivity |]. split; [reflexivity | exact Hg].
Defined.

(** X13: while the Uint64 product of the elapsed counter and the
    nanosecond numerator does not wrap, an initialised clock is exact and
    monotone: [SDL_GetTicksNS] and [SDL_GetTicks] return the floor of the
    elapsed counter times unit / frequency without failing an assertion
    and without changing the clock, the nanosecond reading divided by one
    million is the millisecond reading, and a reading taken at a smaller
    elapsed counter is not larger, in either unit. *)
Theorem get_ticks_exact_and_monotone (asserts : bool) (tick_freq : Z) (st : TickState)
    (c0 c c' : Z) :
  0 < tick_freq <= SDL_MAX_UINT32 ->
  initialised tick_freq st ->
  let d := wrap64 (c - tick_start st) in
  let d' := wrap64 (c' - tick_start st) in
  d * tick_numerator_ns st <= SDL_MAX_UINT64 ->
  d' <= d ->
  let ns := (d * SDL_NS_PER_SECOND) / tick_freq in
  let ms := (d * SDL_MS_PER_SECOND) / tick_freq in
  SDL_GetTicksNS asserts tick_freq c0 c st = Some (ns, st) /\
  SDL_GetTicks asserts tick_freq c0 c st = Some (ms, st) /\
  ns / 1000000 = ms /\
  exists ns' ms',
    SDL_GetTicksNS asserts tick_freq c0 c' st = Some (ns', st) /\
    SDL_GetTicks asserts tick_freq c0 c' st = Some (ms', st) /\
    0 <= ns' <= ns /\ 0 <= ms' <= ms.
Proof.
  intros Hf Hi d d' Hw Hle ns ms.
  pose proof (wrap64_range (c' - tick_start st)) as [Hd' _]. fold d' in Hd'.
  pose proof (numerator_ns_bounds tick_freq st Hf Hi) as N.
  destruct (ticks_without_wrap asserts tick_freq st c0 c Hf Hi Hw) as (E1 & E2 & E3).
  destruct (ticks_without_wrap asserts tick_freq st c0 c' Hf Hi) as (E1' & E2' & _);
    [fold d'; nia |].
  fold d in E1, E2, E3. fold d' in E1', E2'.
  split; [exact E1 |]. split; [exact E2 |]. split; [exact E3 |].
  eexists _, _. split; [exact E1' |]. split; [exact E2' |].
  unfold ns, ms, SDL_NS_PER_SECOND, SDL_MS_PER_SECOND.
  split; (split; [apply Z.div_pos; lia | apply Z.div_le_mono; lia]).
Qed.

(** X13, an instance: a 10 MHz counter, 25 and 12 ticks after an
    initialisation at counter 5. *)
Lemma get_ticks_exact_and_monotone_witness :
  let st := mkTickState 5 100 1 1 10000 1 in
  SDL_GetTicksNS true 10000000 0 30 st = Some (2500, st) /\
  SDL_GetTicks true 10000000 0 30 st = Some (0, st).
Proof.
  destruct (get_ticks_exact_and_monotone true 10000000 (mkTickState 5 100 1 1 10000 1)
              0 30 17) as (E1 & E2 & _).
  - unfold SDL_MAX_UINT32. lia.
  - split; [discriminate |]. exists true, 5, tick_zero.
    split; [reflexivity | vm_compute; reflexivity].
  - vm_compute. discriminate.
  - vm_compute. discriminate.
  - split; [exact E1 | exact E2].
Defined.

(** X14: the clock counts from the reading that initialised it. The
    first [SDL_GetTicksNS] or [SDL_GetTicks] on an uninitialised clock,
    whose initialisation reads the counter at [c0] and whose conversion
    reads it at [c], not before, initialises the clock and returns the
    time for [c - c0] counter ticks, so 0 when the counter has not
    advanced; when the initialising reading is 0 the origin is moved to
    one tick before it and the time returned is that of [c + 1] ticks. *)
Theorem first_reading_counts_from_init (asserts : bool) (tick_freq c0 c : Z)
    (st : TickState) :
  0 < tick_freq <= SDL_MAX_UINT32 ->
  tick_start st = 0 ->
  0 <= c0 <= c ->
  let e := if c0 =? 0 then c + 1 else c - c0 in
  e * SDL_NS_PER_SECOND <= SDL_MAX_UINT64 ->
  exists st',
    SDL_GetTicksNS asserts tick_freq c0 c st
      = Some ((e * SDL_NS_PER_SECOND) / tick_freq, st') /\
    SDL_GetTicks asserts tick_freq c0 c st
      = Some ((e * SDL_MS_PER_SECOND) / tick_freq, st') /\
    initialised tick_freq st' /\
    (c0 <> 0 -> c = c0 ->
     SDL_GetTicksNS asserts tick_freq c0 c st = Some (0, st')).
Proof.
  intros Hf H0 Hc e He.
  destruct (SDL_InitTicks_fresh asserts tick_freq (or_intror Hf) c0 st H0) as (st' & E & Hs).
  assert (Hi : initialised tick_freq st').
  { split; [| now exists asserts, c0, st].
    rewrite Hs. destruct (Z.eqb_spec c0 0) as [-> | ?]; [discriminate | lia]. }
  assert (Hd : wrap64 (c - tick_start st') = e).
  { rewrite Hs. subst e. unfold SDL_NS_PER_SECOND, SDL_MAX_UINT64 in He.
    destruct (Z.eqb_spec c0 0) as [-> | ?].
    - change (wrap64 (0 - 1)) with 18446744073709551615. unfold wrap64.
      replace (c - 18446744073709551615) with (c + 1 + (-1) * 18446744073709551616) by lia.
      rewrite Z.mod_add by lia. apply Z.mod_small. lia.
    - apply wrap64_small. unfold SDL_MAX_UINT64. lia. }
  pose proof (numerator_ns_bounds tick_freq st' Hf Hi) as Hn.
  assert (He0 : 0 <= e) by (subst e; destruct (c0 =? 0); lia).
  destruct (ticks_without_wrap asserts tick_freq st' c0 c Hf Hi) as (E1 & E2 & _).
  { rewrite Hd. unfold SDL_NS_PER_SECOND in *. nia. }
  rewrite Hd in E1, E2.
  assert (Hns : SDL_GetTicksNS asserts tick_freq c0 c st
                = SDL_GetTicksNS asserts tick_freq c0 c st').
  { destruct Hi as (Hne & _). apply Z.eqb_neq in Hne.
    unfold SDL_GetTicksNS. rewrite H0, Hne. cbn [Z.eqb]. now rewrite E. }
  assert (Hms : SDL_GetTicks asserts tick_freq c0 c st
                = SDL_GetTicks asserts tick_freq c0 c st').
  { destruct Hi as (Hne & _). apply Z.eqb_neq in Hne.
    unfold SDL_GetTicks. rewrite H0, Hne. cbn [Z.eqb]. now rewrite E. }
  exists st'. rewrite Hns, Hms. split; [exact E1 |]. split; [exact E2 |].
  split; [exact Hi |]. intros Hne ->. rewrite E1. subst e.
  destruct (Z.eqb_spec c0 0); [contradiction |].
  now rewrite Z.sub_diag.
Qed.

(** X14, an instance: a 10 MHz counter that reads 0 at initialisation
    and 24 at the conversion. *)
Lemma first_reading_counts_from_init_witness :
  exists st', SDL_GetTicksNS true 10000000 0 24 tick_zero = Some (2500, st').
Proof.
  destruct (first_reading_counts_from_init true 10000000 0 24 tick_zero)
    as (st' & E & _).
  - unfold SDL_MAX_UINT32. lia.
  - reflexivity.
  - lia.
  - vm_compute. discriminate.
  - exists st'. exact E.
Defined.

End Ticks.

(** ** The system timer resolution hint *)

Module Resolution.

(** A [const char *]: [None] is [NULL]; otherwise the address of the
    string and the characters before its terminator. *)
Record CString := mkCString { ptr : Z; chars : string }.

Definition ptr_eqb (a b : option CString) : bool :=
  match a, b with
  | None, None => true
  | Some x, Some y => ptr x =? ptr y
  | _, _ => false
  end.

(** Modelled from the spec: [SDL_atoi] of the SDL C library ("the hint's
    string value parsed as a decimal integer"): leading white space, an
    optional sign, then decimal digits up to the first other character;
    the value is converted to [int]. *)
Definition is_space (c : ascii) : bool :=
  let n := Z.of_nat (nat_of_ascii c) in (n =? 32) || ((9 <=? n) && (n <=? 13)).

Definition digit_of (c : ascii) : option Z :=
  let n := Z.of_nat (nat_of_ascii c) in
  if (48 <=? n) && (n <=? 57) then Some (n - 48) else None.

Fixpoint skip_spaces (s : string) : string :=
  match s with
  | String c r => if is_space c then skip_spaces r else s
  | EmptyString => s
  end.

Fixpoint digits_value (s : string) (acc : Z) : Z :=
  match s with
  | String c r =>
      match digit_of c with
      | Some d => digits_value r (10 * acc + d)
      | None => acc
      end
  | EmptyString => acc
  end.

Definition SDL_atoi (s : string) : Z :=
  match skip_spaces s with
  | String "-"%char r => wrap_int (- digits_value r 0)
  | String "+"%char r => wrap_int (digits_value r 0)
  | r => wrap_int (digits_value r 0)
  end.

(** The calls made to the operating system's multimedia timer. *)
Inductive OSCall :=
| timeBeginPeriod (period : Z)
| timeEndPeriod (period : Z).

(** [timer_period] is the function-local static of
    [SDL_SetSystemTimerResolutionMS]; [os_calls] lists the calls made,
    oldest first. *)
Record ResState := mkResState {
  timer_period : Z;
  os_calls : list OSCall
}.

Section Hint.
(** Build configuration: whether [HAVE_TIME_BEGIN_PERIOD] is defined. *)
Variable HAVE_TIME_BEGIN_PERIOD : bool.

Definition SDL_SetSystemTimerResolutionMS (period : Z) (st : ResState) : ResState :=
  if HAVE_TIME_BEGIN_PERIOD then
    if negb (period =? timer_period st) then
      let calls :=
        if negb (timer_period st =? 0)
        then os_calls st ++ [timeEndPeriod (wrap32 (timer_period st))]
        else os_calls st in
      let calls :=
        if negb (period =? 0)
        then calls ++ [timeBeginPeriod (wrap32 period)]
        else calls in
      mkResState period calls
    else st
  else st.

(** The period the handler derives from the hint. *)
Definition hint_period (hint : option CString) : Z :=
  match hint with
  | Some h =>
      match chars h with
      | EmptyString => 1
      | String _ _ => SDL_atoi (chars h)
      end
  | None => 1
  end.

Definition SDL_TimerResolutionChanged (oldValue hint : option CString)
    (st : ResState) : ResState :=
  let period := hint_period hint in
  if negb (period =? 0) || negb (ptr_eqb oldValue hint)
  then SDL_SetSystemTimerResolutionMS period st
  else st.

(** Shutdown always releases the timer resolution request. *)
Definition SDL_QuitTicks (ts : Ticks.TickState) (st : ResState)
  : Ticks.TickState * ResState :=
  (Ticks.reset_ticks ts, SDL_SetSystemTimerResolutionMS 0 st).
End Hint.

Definition requested (c : OSCall) : option Z :=
  match c with timeBeginPeriod p => Some p | timeEndPeriod _ => None end.

(** The periods installed by the calls of [st'] that [st] had not made. *)
Definition new_requests (st st' : ResState) : list Z :=
  omap requested (drop (length (os_calls st)) (os_calls st')).

Definition hint_zero (p : Z) : option CString := Some (mkCString p "0").

(** C6, counterexample: from a state holding the default 1 ms request,
    changing the hint from "1" to "0" does not request 1 ms: the handler
    ends the installed period and begins none, leaving [timer_period = 0],
    whereas an unset hint leaves the 1 ms request in place. *)
Lemma C6_zero_is_not_default :
  let st := mkResState 1 [timeBeginPeriod 1] in
  let old := Some (mkCString 4096 "1") in
  SDL_TimerResolutionChanged true old (hint_zero 8192) st
    = mkResState 0 [timeBeginPeriod 1; timeEndPeriod 1] /\
  SDL_TimerResolutionChanged true old None st = st /\
  SDL_TimerResolutionChanged true old (hint_zero 8192) st
    <> SDL_TimerResolutionChanged true old None st.
Proof. repeat split; try (vm_compute; reflexivity). vm_compute. discriminate. Qed.

Definition hint_empty (p : Z) : option CString := Some (mkCString p EmptyString).

Lemma new_requests_refl st : new_requests st st = [].
Proof. unfold new_requests. now rewrite drop_all. Qed.

(** What the handler does for a hint whose period is the default. *)
Lemma default_period_requested oldValue hint st :
  hint_period hint = 1 ->
  let st' := SDL_TimerResolutionChanged true oldValue hint st in
  st' = SDL_SetSystemTimerResolutionMS true 1 st /\
  timer_period st' = 1 /\
  new_requests st st' = (if timer_period st =? 1 then [] else [1]).
Proof.
  intros Hp st'. subst st'. unfold SDL_TimerResolutionChanged. rewrite Hp.
  cbn [Z.eqb negb orb]. split; [reflexivity |].
  unfold SDL_SetSystemTimerResolutionMS, new_requests.
  rewrite (Z.eqb_sym 1). destruct (Z.eqb_spec (timer_period st) 1) as [E1 | N1];
    cbn [negb].
  - split; [exact E1 | now rewrite drop_all].
  - split; [reflexivity |]. cbn [os_calls Z.eqb negb].
    destruct (timer_period st =? 0); cbn [negb];
      rewrite <- ?app_assoc, drop_app_length; reflexivity.
Qed.

(** What the handler does for the hint "0". *)
Lemma zero_period_requested oldValue p st :
  let st' := SDL_TimerResolutionChanged true oldValue (hint_zero p) st in
  st' = (if ptr_eqb oldValue (hint_zero p) then st
         else SDL_SetSystemTimerResolutionMS true 0 st) /\
  timer_period st' = (if ptr_eqb oldValue (hint_zero p) then timer_period st else 0) /\
  new_requests st st' = [].
Proof.
  intros st'. subst st'.
  unfold SDL_TimerResolutionChanged, SDL_SetSystemTimerResolutionMS.
  change (hint_period (hint_zero p)) with 0.
  destruct (ptr_eqb oldValue (hint_zero p)).
  - repeat split. apply new_requests_refl.
  - unfold new_requests.
    destruct (timer_period st) eqn:E; cbn [negb Z.eqb orb os_calls timer_period];
      rewrite ?E, ?drop_app_length, ?drop_all; repeat split.
Qed.

(** C6, as the code has it: an unset or empty hint makes the handler call
    [SDL_SetSystemTimerResolutionMS 1], so that 1 ms is the period in force
    afterwards and [timeBeginPeriod 1] is called unless 1 ms was already
    the period; the string "0" gives period 0, for which the handler
    installs no request: it revokes the current one when the old and new
    hint are different pointers and does nothing when they are the same. *)
Theorem C6_resolution_hint (oldValue : option CString) (p : Z) (st : ResState) :
  let unset := SDL_TimerResolutionChanged true oldValue None st in
  let empty := SDL_TimerResolutionChanged true oldValue (hint_empty p) st in
  let zero := SDL_TimerResolutionChanged true oldValue (hint_zero p) st in
  (unset = SDL_SetSystemTimerResolutionMS true 1 st /\
   timer_period unset = 1 /\
   new_requests st unset = (if timer_period st =? 1 then [] else [1])) /\
  (empty = SDL_SetSystemTimerResolutionMS true 1 st /\
   timer_period empty = 1 /\
   new_requests st empty = (if timer_period st =? 1 then [] else [1])) /\
  (zero = (if ptr_eqb oldValue (hint_zero p) then st
           else SDL_SetSystemTimerResolutionMS true 0 st) /\
   timer_period zero = (if ptr_eqb oldValue (hint_zero p) then timer_period st else 0) /\
   new_requests st zero = []).
Proof.
  intros unset empty zero. split; [| split].
  - apply default_period_requested. reflexivity.
  - apply default_period_requested. reflexivity.
  - apply zero_period_requested.
Qed.

(** *** Requests to the operating system come in pairs *)

(** The request left open by a history of calls that starts with [cur]
    open, or [None] if the history is not well formed: a period is begun
    only when none is open, and ended only when it is the open one. *)
Fixpoint open_period (cur : option Z) (l : list OSCall) : option (option Z) :=
  match l with
  | [] => Some cur
  | timeBeginPeriod p :: l =>
      match cur with
      | None => open_period (Some p) l
      | Some _ => None
      end
  | timeEndPeriod p :: l =>
      match cur with
      | Some q => if q =? p then open_period None l else None
      | None => None
      end
  end.

(** The history is well formed and what it leaves open is the period
    recorded in [timer_period], none when that is 0. *)
Definition paired (st : ResState) : Prop :=
  open_period None (os_calls st)
    = Some (if timer_period st =? 0 then None else Some (wrap32 (timer_period st))).

Lemma open_period_app cur l1 l2 :
  open_period cur (l1 ++ l2) = open_period cur l1 ≫= fun c => open_period c l2.
Proof.
  revert cur. induction l1 as [| [p | p] l1 IH]; intros cur; simpl; [reflexivity | |].
  - destruct cur; [reflexivity | apply IH].
  - destruct cur as [q |]; [| reflexivity]. destruct (q =? p); [apply IH | reflexivity].
Qed.

Lemma SDL_SetSystemTimerResolutionMS_paired have period st :
  paired st -> paired (SDL_SetSystemTimerResolutionMS have period st).
Proof.
  unfold paired, SDL_SetSystemTimerResolutionMS. intros H.
  destruct have; [| exact H].
  destruct (Z.eqb_spec period (timer_period st)) as [_ | Hne]; cbn [negb]; [exact H |].
  cbn [timer_period os_calls].
  destruct (Z.eqb_spec (timer_period st) 0) as [E0 | N0]; cbn [negb];
    destruct (Z.eqb_spec period 0) as [P0 | PN]; cbn [negb];
    rewrite ?open_period_app, ?H; cbn; rewrite ?Z.eqb_refl; reflexivity.
Qed.

(** X15: the calls to [timeBeginPeriod] and [timeEndPeriod] are properly
    paired. If the history of calls is well formed (a period is begun only
    when none is open, and the period ended is the open one) and leaves
    open exactly the request recorded in [timer_period], then this still
    holds after [SDL_SetSystemTimerResolutionMS] with any period, after
    the hint handler with any old and new hint, and after [SDL_QuitTicks];
    and where the platform has these calls, [SDL_QuitTicks] leaves no
    request open. *)
Theorem resolution_requests_paired (have : bool) (period : Z)
    (oldValue hint : option CString) (ts : Ticks.TickState) (st : ResState) :
  paired st ->
  paired (SDL_SetSystemTimerResolutionMS have period st) /\
  paired (SDL_TimerResolutionChanged have oldValue hint st) /\
  paired (snd (SDL_QuitTicks have ts st)) /\
  (have = true ->
   timer_period (snd (SDL_QuitTicks have ts st)) = 0 /\
   open_period None (os_calls (snd (SDL_QuitTicks have ts st))) = Some None).
Proof.
  intros H. split; [now apply SDL_SetSystemTimerResolutionMS_paired |].
  split.
  { unfold SDL_TimerResolutionChanged.
    destruct (negb _ || negb _); [now apply SDL_SetSystemTimerResolutionMS_paired | exact H]. }
  pose proof (SDL_SetSystemTimerResolutionMS_paired have 0 st H) as Hq.
  split; [exact Hq |]. intros ->. cbn [SDL_QuitTicks snd] in *.
  assert (H0 : timer_period (SDL_SetSystemTimerResolutionMS true 0 st) = 0).
  { unfold SDL_SetSystemTimerResolutionMS.
    destruct (Z.eqb_spec 0 (timer_period st)) as [E | _]; cbn [negb]; [now rewrite <- E |].
    reflexivity. }
  split; [exact H0 |]. unfold paired in Hq. now rewrite H0 in Hq.
Qed.

(** X15, an instance: the default request, replaced by a 5 ms one and
    released at shutdown. *)
Lemma resolution_requests_paired_witness :
  let st := mkResState 1 [timeBeginPeriod 1] in
  let st' := SDL_SetSystemTimerResolutionMS true 5 st in
  paired st /\ paired st' /\
  os_calls (snd (SDL_QuitTicks true Ticks.tick_zero st'))
    = [timeBeginPeriod 1; timeEndPeriod 1; timeBeginPeriod 5; timeEndPeriod 5].
Proof.
  intros st st'.
  assert (H : paired st) by reflexivity.
  split; [exact H |].
  destruct (resolution_requests_paired true 5 None None Ticks.tick_zero st H) as (H' & _).
  split; [exact H' | reflexivity].
Defined.

(** X16: shutting the clock down and starting it again. After
    [SDL_InitTicks] on an uninitialised clock, [SDL_QuitTicks] leaves the
    clock uninitialised with the hint callback removed again, and the next
    [SDL_InitTicks] registers the callback once, reads a new origin and
    computes the same scalers. *)
Theorem quit_ticks_restarts_clock (have asserts : bool) (tick_freq c1 c2 : Z)
    (ts ts1 : Ticks.TickState) (rs : ResState) :
  asserts = false \/ 0 < tick_freq <= SDL_MAX_UINT32 ->
  Ticks.tick_start ts = 0 ->
  Ticks.SDL_InitTicks asserts tick_freq c1 ts = Some ts1 ->
  let q := fst (SDL_QuitTicks have ts1 rs) in
  Ticks.tick_start q = 0 /\
  Ticks.hint_callbacks q = Ticks.hint_callbacks ts /\
  exists ts2,
    Ticks.SDL_InitTicks asserts tick_freq c2 q = Some ts2 /\
    Ticks.tick_start ts2 = (if c2 =? 0 then wrap64 (c2 - 1) else c2) /\
    Ticks.tick_start ts2 <> 0 /\
    Ticks.hint_callbacks ts2 = Ticks.hint_callbacks ts1 /\
    Ticks.tick_numerator_ns ts2 = Ticks.tick_numerator_ns ts1 /\
    Ticks.tick_denominator_ns ts2 = Ticks.tick_denominator_ns ts1 /\
    Ticks.tick_numerator_ms ts2 = Ticks.tick_numerator_ms ts1 /\
    Ticks.tick_denominator_ms ts2 = Ticks.tick_denominator_ms ts1.
Proof.
  intros Hf H0 E q. subst q. cbn [SDL_QuitTicks fst].
  unfold Ticks.SDL_InitTicks in E. rewrite H0 in E. cbn [Z.eqb negb] in E.
  pose proof (Ticks.SDL_assert_freq asserts tick_freq Hf) as Ha.
  rewrite Ha in E. cbn in E. injection E as <-.
  cbn [Ticks.reset_ticks Ticks.tick_start Ticks.hint_callbacks Ticks.tick_numerator_ns
       Ticks.tick_denominator_ns Ticks.tick_numerator_ms Ticks.tick_denominator_ms pred].
  split; [reflexivity |]. split; [reflexivity |].
  unfold Ticks.SDL_InitTicks. cbn [Ticks.tick_start Z.eqb negb]. rewrite Ha. cbn.
  eexists. split; [reflexivity |]. cbn.
  split; [reflexivity |]. split; [| repeat split].
  destruct (Z.eqb_spec c2 0) as [-> | Hne]; [discriminate | exact Hne].
Qed.

(** X16, an instance: a 10 MHz counter, initialised at 5, shut down and
    initialised again at 900. *)
Lemma quit_ticks_restarts_clock_witness :
  let ts1 := Ticks.mkTickState 5 100 1 1 10000 1 in
  let q := fst (SDL_QuitTicks true ts1 (mkResState 1 [timeBeginPeriod 1])) in
  Ticks.tick_start q = 0 /\
  exists ts2, Ticks.SDL_InitTicks true 10000000 900 q = Some ts2 /\
              Ticks.tick_start ts2 = 900.
Proof.
  intros ts1 q.
  destruct (quit_ticks_restarts_clock true true 10000000 5 900 Ticks.tick_zero ts1
              (mkResState 1 [timeBeginPeriod 1]))
    as (Hz & _ & ts2 & E & Hs & _).
  - right. unfold SDL_MAX_UINT32. lia.
  - reflexivity.
  - vm_compute. reflexivity.
  - split; [exact Hz |]. exists ts2. split; [exact E | exact Hs].
Defined.

End Resolution.

(** ** The precise delay *)

Module Delay.

(** The platform calls [SDL_DelayPrecise] makes besides reading the clock. *)
Inductive Call :=
| SDL_SYS_DelayNS (ns : Z)
| SDL_CPUPauseInstruction.

(** The world as the function sees it: how many times the clock has been
    read, and the platform calls made so far, oldest first. *)
Record World := mkWorld {
  reads : nat;
  calls : list Call
}.

(** How a run ends: the function returned, or it was still inside a loop
    when the budget of loop iterations was used up. *)
Inductive Outcome :=
| Returned (w : World)
| Running (w : World).

Definition world_of (o : Outcome) : World :=
  match o with Returned w => w | Running w => w end.

(** The loop state of delay step 1. *)
Record Step1 := mkStep1 {
  current_value : Z;
  target_sleep_ns : Z;
  max_overshoot_ns : Z;
  current_sleep_ns : Z
}.

(** One pass through the body of the step 1 loop ends in [return], in
    [break], or at the end of the body. *)
Inductive Step1Result :=
| S1_Return (w : World)
| S1_Break (s : Step1) (w : World)
| S1_Continue (s : Step1) (w : World).

Definition SHORT_SLEEP_NS : Z := 1 * SDL_NS_PER_MS.

Definition delay (ns : Z) (w : World) : World :=
  mkWorld (reads w) (calls w ++ [SDL_SYS_DelayNS ns]).

Definition pause (w : World) : World :=
  mkWorld (reads w) (calls w ++ [SDL_CPUPauseInstruction]).

Section Clock.
(** The platform clock: [clock k] is what the [k]-th call of
    [SDL_GetTicksNS] finds, returned as a Uint64. *)
Variable clock : nat -> Z.

Definition now_ns (k : nat) : Z := wrap64 (clock k).

Definition SDL_GetTicksNS (w : World) : Z * World :=
  (now_ns (reads w), mkWorld (S (reads w)) (calls w)).

(** The [for] loop that divides [target_sleep_ns] by ten until it fits
    before the deadline or is at most the short sleep. A Uint64 is below
    [10^20], so twenty rounds always reach the exit. *)
Definition shrink_guard (current_value target_value target_sleep_ns : Z) : bool :=
  (SHORT_SLEEP_NS <? target_sleep_ns) &&
  (target_value <? wrap64 (current_value + target_sleep_ns + 10 * SHORT_SLEEP_NS)).

Fixpoint shrink_target (rounds : nat) (current_value target_value target_sleep_ns : Z) : Z :=
  if shrink_guard current_value target_value target_sleep_ns then
    match rounds with
    | O => target_sleep_ns
    | S n => shrink_target n current_value target_value (target_sleep_ns / 10)
    end
  else target_sleep_ns.

Definition step1_guard (target_value : Z) (s : Step1) : bool :=
  (10 * SHORT_SLEEP_NS <=? current_sleep_ns s) &&
  (wrap64 (current_value s + target_sleep_ns s + 10 * SHORT_SLEEP_NS) <? target_value).

Definition step1_body (target_value : Z) (s : Step1) (w : World) : Step1Result :=
  let w := delay (current_sleep_ns s) w in
  let (now, w) := SDL_GetTicksNS w in
  if target_value <=? now then S1_Return w
  else
    let overshoot_ns := wrap64 (wrap64 (now - current_value s) - current_sleep_ns s) in
    let max_overshoot :=
      if max_overshoot_ns s <? overshoot_ns then overshoot_ns else max_overshoot_ns s in
    let max_overshoot :=
      if target_sleep_ns s <=? max_overshoot then 0 else max_overshoot in
    if target_value <? wrap64 (now + target_sleep_ns s + 10 * SHORT_SLEEP_NS) then
      let target_sleep := shrink_target 20 now target_value (wrap64 (target_value - now) / 10) in
      if target_sleep <=? SHORT_SLEEP_NS
      then S1_Break (mkStep1 now target_sleep max_overshoot (current_sleep_ns s)) w
      else
        let max_overshoot := if target_sleep <=? max_overshoot then 0 else max_overshoot in
        S1_Continue (mkStep1 now target_sleep max_overshoot
                            (wrap64 (target_sleep - max_overshoot))) w
    else
      S1_Continue (mkStep1 now (target_sleep_ns s) max_overshoot
                          (wrap64 (target_sleep_ns s - max_overshoot))) w.

(** The later steps, entered with [current_value] and, for step 2, the
    [max_overshoot_ns] step 1 left. *)
Fixpoint step5 (fuel : nat) (target_value current_value : Z) (w : World) : Outcome :=
  if current_value <? target_value then
    match fuel with
    | O => Running w
    | S n =>
        let w := pause w in
        let (now, w) := SDL_GetTicksNS w in
        step5 n target_value now w
    end
  else Returned w.

Fixpoint step4 (fuel : nat) (target_value current_value : Z) (w : World)
  : Outcome + Z * World :=
  if wrap64 (current_value + SHORT_SLEEP_NS) <? target_value then
    match fuel with
    | O => inl (Running w)
    | S n =>
        let w := delay 0 w in
        let (now, w) := SDL_GetTicksNS w in
        step4 n target_value now w
    end
  else inr (current_value, w).

Fixpoint step3 (fuel : nat) (target_value current_value : Z) (w : World)
  : Outcome + Z * World :=
  if wrap64 (current_value + 2 * SHORT_SLEEP_NS) <? target_value then
    match fuel with
    | O => inl (Running w)
    | S n =>
        let w := delay SHORT_SLEEP_NS w in
        let (now, w) := SDL_GetTicksNS w in
        if target_value <=? now then inl (Returned w)
        else step3 n target_value now w
    end
  else inr (current_value, w).

Fixpoint step2 (fuel : nat) (target_value current_value max_sleep_ns : Z) (w : World)
  : Outcome + Z * World :=
  if wrap64 (current_value + max_sleep_ns) <? target_value then
    match fuel with
    | O => inl (Running w)
    | S n =>
        let w := delay SHORT_SLEEP_NS w in
        let (now, w) := SDL_GetTicksNS w in
        if target_value <=? now then inl (Returned w)
        else
          let next_sleep_ns := wrap64 (now - current_value) in
          let max_sleep := if max_sleep_ns <? next_sleep_ns then next_sleep_ns else max_sleep_ns in
          step2 n target_value now max_sleep w
    end
  else inr (current_value, w).

Fixpoint step1 (fuel : nat) (target_value : Z) (s : Step1) (w : World)
  : Outcome + Step1 * World :=
  if step1_guard target_value s then
    match fuel with
    | O => inl (Running w)
    | S n =>
        match step1_body target_value s w with
        | S1_Return w => inl (Returned w)
        | S1_Break s w => inr (s, w)
        | S1_Continue s w => step1 n target_value s w
        end
    end
  else inr (s, w).

(** The state in which the step 1 loop is entered. *)
Definition step1_init (ns current_value : Z) : Step1 :=
  let target_sleep := ns / 10 in
  mkStep1 current_value target_sleep 0 (wrap64 (target_sleep - SHORT_SLEEP_NS)).

(** Steps 4 and 5, the target of [goto step_4]. *)
Definition from_step_4 (fuel : nat) (target_value current_value : Z) (w : World) : Outcome :=
  match step4 fuel target_value current_value w with
  | inl o => o
  | inr (current_value, w) => step5 fuel target_value current_value w
  end.

Definition from_step_2 (fuel : nat) (target_value current_value max_overshoot : Z)
    (w : World) : Outcome :=
  let max_sleep := SHORT_SLEEP_NS in
  let max_sleep :=
    if max_overshoot <? max_sleep then wrap64 (max_sleep + max_overshoot) else max_sleep in
  match step2 fuel target_value current_value max_sleep w with
  | inl o => o
  | inr (current_value, w) =>
      match step3 fuel target_value current_value w with
      | inl o => o
      | inr (current_value, w) => from_step_4 fuel target_value current_value w
      end
  end.

(** [fuel] bounds the iterations of each loop. *)
Definition SDL_DelayPrecise (fuel : nat) (ns : Z) (w : World) : Outcome :=
  let (entry, w) := SDL_GetTicksNS w in
  let target_value := wrap64 (entry + ns) in
  if ns <=? 2 * SHORT_SLEEP_NS then from_step_4 fuel target_value entry w
  else
    let s := step1_init ns entry in
    if 10 * SHORT_SLEEP_NS <=? target_sleep_ns s then
      match step1 fuel target_value s w with
      | inl o => o
      | inr (s, w) => from_step_2 fuel target_value (current_value s) (max_overshoot_ns s) w
      end
    else from_step_2 fuel target_value entry 0 w.

(** *** Safety: a run that returns has seen the deadline pass *)

(** [current_value] is the latest reading of the clock. *)
Definition latest (current_value : Z) (w : World) : Prop :=
  exists k, reads w = S k /\ current_value = now_ns k.

(** The latest reading of the clock is at or past the deadline. *)
Definition passed (target_value : Z) (w : World) : Prop :=
  exists k, reads w = S k /\ target_value <= now_ns k.

Definition safe (target_value : Z) (o : Outcome) : Prop :=
  forall w, o = Returned w -> passed target_value w.

Definition safe_or {A} (target_value : Z) (P : A -> World -> Prop)
    (r : Outcome + A * World) : Prop :=
  match r with
  | inl o => safe target_value o
  | inr (a, w) => P a w
  end.

Lemma latest_tick w : latest (now_ns (reads w)) (mkWorld (S (reads w)) (calls w)).
Proof. exists (reads w). split; reflexivity. Qed.

Lemma passed_tick tv (w : World) cs :
  (tv <=? now_ns (reads w)) = true -> passed tv (mkWorld (S (reads w)) cs).
Proof. intros H. exists (reads w). split; [reflexivity | now apply Z.leb_le]. Qed.

Lemma safe_running tv w : safe tv (Running w).
Proof. intros w' E. discriminate. Qed.

Lemma safe_returned tv w : passed tv w -> safe tv (Returned w).
Proof. intros H w' E. now injection E as <-. Qed.

Lemma step5_safe fuel tv : forall cur w,
  latest cur w -> safe tv (step5 fuel tv cur w).
Proof.
  induction fuel as [| n IH]; intros cur w (k & Hk & Hc); simpl.
  - destruct (Z.ltb_spec cur tv); [apply safe_running |].
    apply safe_returned. exists k. split; [exact Hk | lia].
  - destruct (Z.ltb_spec cur tv).
    + apply IH. apply (latest_tick (pause w)).
    + apply safe_returned. exists k. split; [exact Hk | lia].
Qed.

Lemma step4_safe fuel tv : forall cur w,
  latest cur w -> safe_or tv latest (step4 fuel tv cur w).
Proof.
  induction fuel as [| n IH]; intros cur w Hl; simpl;
    destruct (_ <? tv); simpl; auto using safe_running.
  apply IH. apply (latest_tick (delay 0 w)).
Qed.

Lemma step3_safe fuel tv : forall cur w,
  latest cur w -> safe_or tv latest (step3 fuel tv cur w).
Proof.
  induction fuel as [| n IH]; intros cur w Hl; simpl;
    destruct (_ <? tv); simpl; auto using safe_running.
  destruct (tv <=? now_ns (reads w)) eqn:E; simpl.
  - apply safe_returned. now apply passed_tick.
  - apply IH. apply (latest_tick (delay SHORT_SLEEP_NS w)).
Qed.

Lemma step2_safe fuel tv : forall cur m w,
  latest cur w -> safe_or tv latest (step2 fuel tv cur m w).
Proof.
  induction fuel as [| n IH]; intros cur m w Hl; simpl;
    destruct (_ <? tv); simpl; auto using safe_running.
  destruct (tv <=? now_ns (reads w)) eqn:E; simpl.
  - apply safe_returned. now apply passed_tick.
  - apply IH. apply (latest_tick (delay SHORT_SLEEP_NS w)).
Qed.

Definition latest1 (s : Step1) (w : World) : Prop := latest (current_value s) w.

Lemma step1_body_safe tv s w :
  match step1_body tv s w with
  | S1_Return w' => passed tv w'
  | S1_Break s' w' | S1_Continue s' w' => latest1 s' w'
  end.
Proof.
  unfold step1_body, SDL_GetTicksNS. cbn [reads calls delay].
  destruct (tv <=? now_ns (reads w)) eqn:E; [now apply passed_tick |].
  repeat match goal with
  | |- context [if ?c then _ else _] => destruct c
  end; apply (latest_tick (delay (current_sleep_ns s) w)).
Qed.

Lemma step1_safe fuel tv : forall s w,
  latest1 s w -> safe_or tv latest1 (step1 fuel tv s w).
Proof.
  induction fuel as [| n IH]; intros s w Hl; simpl;
    destruct (step1_guard tv s); simpl; auto using safe_running.
  pose proof (step1_body_safe tv s w) as Hb.
  destruct (step1_body tv s w); simpl; auto using safe_returned.
Qed.

Lemma from_step_4_safe fuel tv cur w :
  latest cur w -> safe tv (from_step_4 fuel tv cur w).
Proof.
  intros Hl. unfold from_step_4.
  pose proof (step4_safe fuel tv cur w Hl) as H4.
  destruct (step4 fuel tv cur w) as [o | [c w']]; simpl in H4; [exact H4 |].
  now apply step5_safe.
Qed.

Lemma from_step_2_safe fuel tv cur m w :
  latest cur w -> safe tv (from_step_2 fuel tv cur m w).
Proof.
  intros Hl. unfold from_step_2.
  match goal with |- context [step2 _ _ _ ?ms _] => set (ms0 := ms) end.
  pose proof (step2_safe fuel tv cur ms0 w Hl) as H2.
  destruct (step2 fuel tv cur ms0 w) as [o | [c w']]; simpl in H2; [exact H2 |].
  pose proof (step3_safe fuel tv c w' H2) as H3.
  destruct (step3 fuel tv c w') as [o | [c' w'']]; simpl in H3; [exact H3 |].
  now apply from_step_4_safe.
Qed.

Lemma SDL_DelayPrecise_safe fuel ns w :
  safe (wrap64 (now_ns (reads w) + ns)) (SDL_DelayPrecise fuel ns w).
Proof.
  unfold SDL_DelayPrecise, SDL_GetTicksNS.
  set (tv := wrap64 (now_ns (reads w) + ns)).
  set (w1 := mkWorld (S (reads w)) (calls w)).
  assert (Hl : latest (now_ns (reads w)) w1) by apply latest_tick.
  destruct (ns <=? 2 * SHORT_SLEEP_NS); [now apply from_step_4_safe |].
  destruct (10 * SHORT_SLEEP_NS <=? _); [| now apply from_step_2_safe].
  pose proof (step1_safe fuel tv (step1_init ns (now_ns (reads w))) w1 Hl) as H1.
  destruct (step1 fuel tv _ w1) as [o | [s' w']]; simpl in H1; [exact H1 |].
  now apply from_step_2_safe.
Qed.

(** *** Termination: on a clock that reaches the deadline every loop ends *)

Section Progress.
Hypothesis monotone : forall i j : nat, (i <= j)%nat -> now_ns i <= now_ns j.
Hypothesis headroom : forall k, now_ns k + SHORT_SLEEP_NS <= SDL_MAX_UINT64.
Variables (target_value : Z) (K : nat).
Hypothesis reached : target_value <= now_ns K.

(** The latest reading is still before the deadline. *)
Definition before (current_value : Z) (w : World) : Prop :=
  exists k, reads w = S k /\ current_value = now_ns k /\ current_value < target_value.

(** The iteration budget covers the readings left before the [K]-th. *)
Definition covers (fuel : nat) (w : World) : Prop := (K < reads w + fuel)%nat.

Definition ends {A} (P : A -> World -> Prop) (w : World) (r : Outcome + A * World) : Prop :=
  match r with
  | inl (Running _) => False
  | inl (Returned _) => True
  | inr (a, w') => P a w' /\ (reads w <= reads w')%nat
  end.

Lemma before_index cur k : cur = now_ns k -> cur < target_value -> (k < K)%nat.
Proof.
  intros -> Hlt. destruct (Nat.lt_ge_cases k K) as [H | H]; [exact H |].
  pose proof (monotone K k H). lia.
Qed.

Lemma before_latest cur w : before cur w -> latest cur w.
Proof. intros (k & Hk & Hc & _). now exists k. Qed.

Lemma before_tick (w : World) cs :
  (target_value <=? now_ns (reads w)) = false ->
  before (now_ns (reads w)) (mkWorld (S (reads w)) cs).
Proof.
  intros E. apply Z.leb_gt in E. exists (reads w). repeat split. exact E.
Qed.

Lemma step5_ends fuel : forall cur w,
  latest cur w -> covers fuel w -> exists w', step5 fuel target_value cur w = Returned w'.
Proof.
  unfold covers.
  induction fuel as [| n IH]; intros cur w (k & Hk & Hc) Hf; simpl;
    destruct (Z.ltb_spec cur target_value) as [Hlt | Hge]; eauto.
  - pose proof (before_index cur k Hc Hlt). lia.
  - apply IH; [apply (latest_tick (pause w)) | simpl; lia].
Qed.

Lemma step4_guard_before cur k :
  cur = now_ns k -> wrap64 (cur + SHORT_SLEEP_NS) < target_value -> cur < target_value.
Proof.
  intros -> Hlt. pose proof (headroom k) as Hh.
  pose proof (wrap64_range (clock k)) as [H0 _]. fold (now_ns k) in H0.
  rewrite wrap64_small in Hlt;
    unfold SHORT_SLEEP_NS, SDL_NS_PER_MS, SDL_MAX_UINT64 in *; lia.
Qed.

Lemma step4_ends fuel : forall cur w,
  latest cur w -> covers fuel w -> ends latest w (step4 fuel target_value cur w).
Proof.
  unfold covers.
  induction fuel as [| n IH]; intros cur w (k & Hk & Hc) Hf; simpl;
    (destruct (Z.ltb_spec (wrap64 (cur + SHORT_SLEEP_NS)) target_value) as [Hlt | Hge];
     [| simpl; split; [now exists k | lia]]);
    pose proof (before_index cur k Hc (step4_guard_before cur k Hc Hlt)) as Hk'.
  - lia.
  - specialize (IH (now_ns (reads w)) (mkWorld (S (reads w)) (calls (delay 0 w)))).
    unfold ends in *. simpl in IH.
    destruct (step4 n target_value _ _) as [[|] | [c w']]; simpl in *.
    + trivial.
    + apply IH; [apply (latest_tick (delay 0 w)) | lia].
    + destruct IH as [? ?]; [apply (latest_tick (delay 0 w)) | lia |]. split; [assumption | lia].
Qed.

Lemma step3_ends fuel : forall cur w,
  before cur w -> covers fuel w -> ends before w (step3 fuel target_value cur w).
Proof.
  unfold covers.
  induction fuel as [| n IH]; intros cur w Hb Hf; simpl;
    (destruct (_ <? target_value); [| simpl; split; [exact Hb | lia]]);
    destruct Hb as (k & Hk & Hc & Hlt); pose proof (before_index cur k Hc Hlt).
  - lia.
  - destruct (target_value <=? now_ns (reads w)) eqn:E; simpl; [trivial |].
    specialize (IH (now_ns (reads w))
                   (mkWorld (S (reads w)) (calls (delay SHORT_SLEEP_NS w)))).
    unfold ends in *. simpl in IH.
    destruct (step3 n target_value _ _) as [[|] | [c w']]; simpl in *.
    + trivial.
    + apply IH; [now apply before_tick | lia].
    + destruct IH as [? ?]; [now apply before_tick | lia |]. split; [assumption | lia].
Qed.

Lemma step2_ends fuel : forall cur m w,
  before cur w -> covers fuel w -> ends before w (step2 fuel target_value cur m w).
Proof.
  unfold covers.
  induction fuel as [| n IH]; intros cur m w Hb Hf; simpl;
    (destruct (_ <? target_value); [| simpl; split; [exact Hb | lia]]);
    destruct Hb as (k & Hk & Hc & Hlt); pose proof (before_index cur k Hc Hlt).
  - lia.
  - destruct (target_value <=? now_ns (reads w)) eqn:E; simpl; [trivial |].
    match goal with |- context [step2 n _ _ ?ms _] => set (m' := ms) end.
    specialize (IH (now_ns (reads w)) m'
                   (mkWorld (S (reads w)) (calls (delay SHORT_SLEEP_NS w)))).
    unfold ends in *. simpl in IH.
    destruct (step2 n target_value _ _ _) as [[|] | [c w']]; simpl in *.
    + trivial.
    + apply IH; [now apply before_tick | lia].
    + destruct IH as [? ?]; [now apply before_tick | lia |]. split; [assumption | lia].
Qed.

Definition before1 (s : Step1) (w : World) : Prop := before (current_value s) w.

Lemma step1_body_ends s w :
  match step1_body target_value s w with
  | S1_Return w' => True
  | S1_Break s' w' | S1_Continue s' w' => before1 s' w' /\ reads w' = S (reads w)
  end.
Proof.
  unfold step1_body, SDL_GetTicksNS. cbn [reads calls delay].
  destruct (target_value <=? now_ns (reads w)) eqn:E; [trivial |].
  repeat match goal with
  | |- context [if ?c then _ else _] => destruct c
  end; (split; [now apply before_tick | reflexivity]).
Qed.

Lemma step1_ends fuel : forall s w,
  before1 s w -> covers fuel w -> ends before1 w (step1 fuel target_value s w).
Proof.
  unfold covers.
  induction fuel as [| n IH]; intros s w Hb Hf; simpl;
    (destruct (step1_guard target_value s); [| simpl; split; [exact Hb | lia]]);
    destruct Hb as (k & Hk & Hc & Hlt);
    pose proof (before_index (current_value s) k Hc Hlt).
  - lia.
  - pose proof (step1_body_ends s w) as Hbody.
    destruct (step1_body target_value s w) as [w' | s' w' | s' w']; simpl; [trivial | |].
    + destruct Hbody as [? ?]. split; [assumption | lia].
    + destruct Hbody as [Hb' Hr]. specialize (IH s' w' Hb').
      unfold ends in *.
      destruct (step1 n target_value s' w') as [[|] | [c w'']]; simpl in *.
      * trivial.
      * apply IH. lia.
      * destruct IH as [? ?]; [lia |]. split; [assumption | lia].
Qed.

Lemma from_step_4_ends fuel cur w :
  latest cur w -> covers fuel w ->
  exists w', from_step_4 fuel target_value cur w = Returned w'.
Proof.
  intros Hl Hf. unfold from_step_4.
  pose proof (step4_ends fuel cur w Hl Hf) as H4.
  destruct (step4 fuel target_value cur w) as [[|] | [c w']]; simpl in H4;
    [eauto | contradiction |].
  destruct H4 as [Hl' Hr]. apply step5_ends; [exact Hl' | unfold covers in *; lia].
Qed.

Lemma from_step_2_ends fuel cur m w :
  before cur w -> covers fuel w ->
  exists w', from_step_2 fuel target_value cur m w = Returned w'.
Proof.
  intros Hb Hf. unfold from_step_2.
  match goal with |- context [step2 _ _ _ ?ms _] => set (ms0 := ms) end.
  pose proof (step2_ends fuel cur ms0 w Hb Hf) as H2.
  destruct (step2 fuel target_value cur ms0 w) as [[|] | [c w']]; simpl in H2;
    [eauto | contradiction |].
  destruct H2 as [Hb2 Hr2].
  assert (Hf2 : covers fuel w') by (unfold covers in *; lia).
  pose proof (step3_ends fuel c w' Hb2 Hf2) as H3.
  destruct (step3 fuel target_value c w') as [[|] | [c' w'']]; simpl in H3;
    [eauto | contradiction |].
  destruct H3 as [Hb3 Hr3].
  apply from_step_4_ends; [now apply before_latest | unfold covers in *; lia].
Qed.

End Progress.

(** *** The platform calls of a run only accumulate *)


Definition sum_world {A} (r : Outcome + A * World) : World :=
  match r with
  | inl o => world_of o
  | inr (_, w) => w
  end.








Definition body_world (r : Step1Result) : World :=
  match r with
  | S1_Return w => w
  | S1_Break _ w => w
  | S1_Continue _ w => w
  end.

(** Every pass through the body of step 1 makes exactly one platform
    call, the sleep of [current_sleep_ns], and reads the clock once. *)
Lemma step1_body_world tv s w :
  body_world (step1_body tv s w)
    = mkWorld (S (reads w)) (calls w ++ [SDL_SYS_DelayNS (current_sleep_ns s)]).
Proof.
  unfold step1_body, SDL_GetTicksNS. cbn [reads calls delay].
  repeat match goal with
  | |- context [if ?c then _ else _] => destruct c
  end; reflexivity.
Qed.




(** *** The state of the step 1 loop *)

Lemma shrink_target_bounds rounds c tv : forall t,
  0 <= t -> 0 <= shrink_target rounds c tv t <= t.
Proof.
  induction rounds as [| n IH]; intros t Ht; simpl;
    destruct (shrink_guard c tv t); try lia.
  assert (0 <= t / 10 <= t) by (split; [apply Z.div_pos | apply Z.div_le_upper_bound]; lia).
  specialize (IH (t / 10)). lia.
Qed.

(** The rounds given to the [for] loop are enough: it stops because its
    condition fails. *)
Lemma shrink_target_exit_gen rounds c tv : forall t,
  0 <= t <= SHORT_SLEEP_NS * 10 ^ Z.of_nat rounds ->
  shrink_guard c tv (shrink_target rounds c tv t) = false.
Proof.
  induction rounds as [| n IH]; intros t Ht; simpl shrink_target;
    destruct (shrink_guard c tv t) eqn:G; try exact G.
  - exfalso. unfold shrink_guard in G. apply andb_prop in G as [G _].
    apply Z.ltb_lt in G. simpl in Ht. lia.
  - apply IH. rewrite Nat2Z.inj_succ, Z.pow_succ_r in Ht by lia.
    split; [apply Z.div_pos; lia |].
    apply Z.div_le_upper_bound; lia.
Qed.

Lemma shrink_target_exit c tv t :
  0 <= t <= SDL_MAX_UINT64 ->
  shrink_guard c tv (shrink_target 20 c tv t) = false.
Proof.
  intros Ht. apply shrink_target_exit_gen.
  unfold SDL_MAX_UINT64 in Ht. change (SHORT_SLEEP_NS * 10 ^ Z.of_nat 20)
    with 100000000000000000000000000. lia.
Qed.

(** What holds of the loop state whenever the loop condition is tested:
    [target_sleep_ns] is above the short sleep and [max_overshoot_ns] is
    below [target_sleep_ns]. *)
Definition step1_wf (s : Step1) : Prop :=
  SHORT_SLEEP_NS < target_sleep_ns s <= SDL_MAX_UINT64 /\
  0 <= max_overshoot_ns s < target_sleep_ns s.

(** The overshoot the body observes: what the clock advanced by over the
    sleep, less the sleep requested, in Uint64. *)
Definition overshoot_of (s : Step1) (w : World) : Z :=
  wrap64 (wrap64 (now_ns (reads w) - current_value s) - current_sleep_ns s).

Lemma step1_body_continue tv s w s' w' :
  step1_wf s ->
  step1_body tv s w = S1_Continue s' w' ->
  step1_wf s' /\
  current_sleep_ns s' = target_sleep_ns s' - max_overshoot_ns s' /\
  current_value s' = now_ns (reads w) /\
  let m := Z.max (max_overshoot_ns s) (overshoot_of s w) in
  max_overshoot_ns s' =
    (if (target_sleep_ns s <=? m) || (target_sleep_ns s' <=? m) then 0 else m).
Proof.
  intros [[Ht1 Ht2] [Hm1 Hm2]] E.
  unfold step1_body, SDL_GetTicksNS in E. cbn [reads calls delay] in E.
  fold (overshoot_of s w) in E.
  pose proof (wrap64_range (wrap64 (now_ns (reads w) - current_value s)
                            - current_sleep_ns s)) as [Ho _].
  fold (overshoot_of s w) in Ho.
  set (ov := overshoot_of s w) in *.
  destruct (tv <=? now_ns (reads w)); [discriminate |].
  assert (Em : (if max_overshoot_ns s <? ov then ov else max_overshoot_ns s)
               = Z.max (max_overshoot_ns s) ov)
    by (destruct (Z.ltb_spec (max_overshoot_ns s) ov); lia).
  rewrite Em in E. set (m := Z.max (max_overshoot_ns s) ov) in *.
  assert (Hm : 0 <= m) by lia.
  destruct (tv <? wrap64 (now_ns (reads w) + target_sleep_ns s + 10 * SHORT_SLEEP_NS)).
  - set (t0 := wrap64 (tv - now_ns (reads w)) / 10) in *.
    assert (Ht0 : 0 <= t0 <= SDL_MAX_UINT64).
    { pose proof (wrap64_range (tv - now_ns (reads w))) as [? ?].
      unfold t0. split; [apply Z.div_pos; lia |].
      apply Z.div_le_upper_bound; lia. }
    pose proof (shrink_target_bounds 20 (now_ns (reads w)) tv t0 (proj1 Ht0)) as Hb.
    set (t' := shrink_target 20 (now_ns (reads w)) tv t0) in *.
    destruct (Z.leb_spec t' SHORT_SLEEP_NS) as [? | Hgt]; [discriminate |].
    injection E as <- <-. unfold step1_wf. cbn [target_sleep_ns max_overshoot_ns
      current_sleep_ns current_value].
    destruct (Z.leb_spec (target_sleep_ns s) m) as [H1 | H1]; cbn [orb].
    + assert (SHORT_SLEEP_NS > 0) by reflexivity.
      destruct (Z.leb_spec t' 0); [lia |].
      rewrite wrap64_small by lia. repeat split; lia.
    + destruct (Z.leb_spec t' m) as [H2 | H2].
      * assert (SHORT_SLEEP_NS > 0) by reflexivity.
        rewrite wrap64_small by lia. repeat split; lia.
      * rewrite wrap64_small by lia. repeat split; lia.
  - injection E as <- <-. unfold step1_wf. cbn [target_sleep_ns max_overshoot_ns
      current_sleep_ns current_value].
    assert (SHORT_SLEEP_NS > 0) by reflexivity.
    destruct (Z.leb_spec (target_sleep_ns s) m) as [H1 | H1]; cbn [orb].
    + rewrite wrap64_small by lia. repeat split; lia.
    + rewrite wrap64_small by lia. repeat split; lia.
Qed.

End Clock.

(** A clock whose successive readings never go back. *)
Definition nondecreasing (clock : nat -> Z) : Prop :=
  forall i j : nat, (i <= j)%nat -> now_ns clock i <= now_ns clock j.

(** A clock whose readings stay one short sleep away from the end of the
    Uint64 range. *)
Definition has_headroom (clock : nat -> Z) : Prop :=
  forall k, now_ns clock k + SHORT_SLEEP_NS <= SDL_MAX_UINT64.

Lemma SDL_DelayPrecise_returns clock K fuel ns w :
  0 <= ns ->
  now_ns clock (reads w) + ns <= SDL_MAX_UINT64 ->
  nondecreasing clock -> has_headroom clock ->
  now_ns clock (reads w) + ns <= now_ns clock K ->
  (K < reads w + fuel)%nat ->
  exists w', SDL_DelayPrecise clock fuel ns w = Returned w'.
Proof.
  intros Hns Hfit Hmono Hroom Hreach Hfuel.
  pose proof (wrap64_range (clock (reads w))) as [He _]. fold (now_ns clock (reads w)) in He.
  unfold SDL_DelayPrecise, SDL_GetTicksNS.
  rewrite (wrap64_small (now_ns clock (reads w) + ns)) by lia.
  set (entry := now_ns clock (reads w)) in *.
  set (tv := entry + ns) in *.
  set (w1 := mkWorld (S (reads w)) (calls w)).
  assert (Hl : latest clock entry w1) by apply latest_tick.
  assert (Hc : covers K fuel w1) by (unfold covers; simpl; lia).
  destruct (Z.leb_spec ns (2 * SHORT_SLEEP_NS)) as [Hle | Hgt].
  { apply (from_step_4_ends clock Hmono Hroom tv K Hreach); assumption. }
  assert (Hb : before clock tv entry w1).
  { exists (reads w). repeat split. assert (SHORT_SLEEP_NS > 0) by reflexivity. lia. }
  destruct (10 * SHORT_SLEEP_NS <=? _).
  - pose proof (step1_ends clock Hmono tv K Hreach fuel (step1_init ns entry) w1 Hb Hc) as H1.
    destruct (step1 clock fuel tv _ w1) as [[|] | [s' w']]; simpl in H1;
      [eauto | contradiction |].
    destruct H1 as [Hb' Hr].
    apply (from_step_2_ends clock Hmono Hroom tv K Hreach); [exact Hb' |].
    unfold covers in *. lia.
  - apply (from_step_2_ends clock Hmono Hroom tv K Hreach); assumption.
Qed.

(** C1, counterexample: on a non-decreasing clock that starts at 1 ns
    and advances by a microsecond per reading, [SDL_DelayPrecise] of
    [2^64 - 1] ns returns at once, whatever its budget, without any sleep:
    the deadline [1 + (2^64 - 1)] wraps to 0, and the next reading of the
    clock, 1001, is far below entry plus [ns]. *)
Lemma C1_returns_at_once :
  let clock := fun k => Z.min (1 + Z.of_nat k * 1000) 1000000000000 in
  nondecreasing clock /\
  (forall fuel,
     SDL_DelayPrecise clock fuel SDL_MAX_UINT64 (mkWorld 0 []) = Returned (mkWorld 1 [])) /\
  now_ns clock 0 = 1 /\ now_ns clock 1 = 1001 /\
  ~ (now_ns clock 0 + SDL_MAX_UINT64 <= now_ns clock 1).
Proof.
  intros clock. split; [| split; [| split; [| split]]].
  - intros i j Hij. unfold now_ns, clock.
    rewrite !wrap64_small; unfold SDL_MAX_UINT64; lia.
  - intros fuel. destruct fuel; vm_compute; reflexivity.
  - reflexivity.
  - reflexivity.
  - vm_compute. intros H. apply H. reflexivity.
Qed.

(** C1, as the code has it: for every [ns] such that the entry time plus [ns] does
    not exceed [2^64 - 1], on a non-decreasing clock, a call of
    [SDL_DelayPrecise ns] that returns does so only when the clock has
    reached entry plus [ns]: the last reading it took, and every later one,
    is at least that; and it does return, within any budget that covers
    the readings up to one that reaches the deadline, when the clock keeps
    one short sleep away from the end of the Uint64 range. *)
Theorem C1_delay_precise_elapsed (clock : nat -> Z) (ns : Z) (w : World) :
  0 <= ns ->
  now_ns clock (reads w) + ns <= SDL_MAX_UINT64 ->
  nondecreasing clock ->
  (forall fuel w', SDL_DelayPrecise clock fuel ns w = Returned w' ->
     forall k, (reads w' <= S k)%nat -> now_ns clock (reads w) + ns <= now_ns clock k) /\
  (forall K fuel, has_headroom clock ->
     now_ns clock (reads w) + ns <= now_ns clock K -> (K < reads w + fuel)%nat ->
     exists w', SDL_DelayPrecise clock fuel ns w = Returned w').
Proof.
  intros Hns Hfit Hmono. split.
  - intros fuel w' E k Hk.
    pose proof (wrap64_range (clock (reads w))) as [He _].
    fold (now_ns clock (reads w)) in He.
    destruct (SDL_DelayPrecise_safe clock fuel ns w w' E) as (j & Hj & Hp).
    rewrite wrap64_small in Hp by lia.
    pose proof (Hmono j k ltac:(lia)). lia.
  - intros K fuel Hroom Hreach Hfuel.
    now apply (SDL_DelayPrecise_returns clock K).
Qed.

(** C1, an instance: a 5 ms delay on a clock that advances 0.4 ms per
    reading returns, and only once the clock shows 5 ms or more. *)
Lemma C1_delay_precise_elapsed_witness :
  let clock := fun k => Z.min (Z.of_nat k * 400000) 1000000000000 in
  exists w', SDL_DelayPrecise clock 20 5000000 (mkWorld 0 []) = Returned w' /\
    forall k, (reads w' <= S k)%nat -> now_ns clock 0 + 5000000 <= now_ns clock k.
Proof.
  intros clock.
  assert (Hmono : nondecreasing clock).
  { intros i j Hij. unfold now_ns, clock.
    rewrite !wrap64_small; unfold SDL_MAX_UINT64; lia. }
  assert (Hroom : has_headroom clock).
  { intros k. unfold now_ns, clock.
    rewrite !wrap64_small; unfold SDL_MAX_UINT64, SHORT_SLEEP_NS, SDL_NS_PER_MS; lia. }
  destruct (C1_delay_precise_elapsed clock 5000000 (mkWorld 0 []))
    as [Hsafe Hret].
  - lia.
  - vm_compute. discriminate.
  - exact Hmono.
  - destruct (Hret 13%nat 20%nat Hroom) as [w' E].
    + vm_compute. discriminate.
    + simpl. lia.
    + exists w'. split; [exact E | exact (Hsafe 20%nat w' E)].
Defined.

(** C10, counterexample: when the entry time is within one short sleep
    of [2^64], the sum [current + SHORT] of the step 4 condition wraps
    below the deadline, and [SDL_DelayPrecise 0] does call the system
    sleep: after two iterations it has made two zero-duration sleeps and
    is still in the loop. *)
Lemma C10_zero_delay_sleeps_near_wrap :
  let clock := fun k => 18446744073709550616 + Z.min (Z.of_nat k) 999 in
  nondecreasing clock /\
  SDL_DelayPrecise clock 2 0 (mkWorld 0 [])
    = Running (mkWorld 3 [SDL_SYS_DelayNS 0; SDL_SYS_DelayNS 0]) /\
  calls (world_of (SDL_DelayPrecise clock 2 0 (mkWorld 0 []))) <> [].
Proof.
  intros clock. split; [| split].
  - intros i j Hij. unfold now_ns, clock.
    rewrite !wrap64_small; unfold SDL_MAX_UINT64; lia.
  - vm_compute. reflexivity.
  - vm_compute. discriminate.
Qed.

(** C10, as the code has it: when the entry time plus one short sleep does not
    exceed [2^64 - 1], [SDL_DelayPrecise 0] returns having read the clock
    once and made no platform call at all: no system sleep, not even of
    zero duration, and no CPU pause. *)
Theorem C10_delay_precise_zero (clock : nat -> Z) (fuel : nat) (w : World) :
  now_ns clock (reads w) + SHORT_SLEEP_NS <= SDL_MAX_UINT64 ->
  SDL_DelayPrecise clock fuel 0 w = Returned (mkWorld (S (reads w)) (calls w)).
Proof.
  intros Hroom.
  pose proof (wrap64_range (clock (reads w))) as [He _].
  fold (now_ns clock (reads w)) in He.
  assert (Hs : SHORT_SLEEP_NS = 1000000) by reflexivity.
  unfold SDL_DelayPrecise, SDL_GetTicksNS.
  change (0 <=? 2 * SHORT_SLEEP_NS) with true. cbn iota.
  unfold from_step_4.
  assert (G4 : (wrap64 (now_ns clock (reads w) + SHORT_SLEEP_NS)
                <? wrap64 (now_ns clock (reads w) + 0)) = false).
  { apply Z.ltb_ge. rewrite !wrap64_small; unfold SDL_MAX_UINT64 in *; lia. }
  assert (G5 : (now_ns clock (reads w) <? wrap64 (now_ns clock (reads w) + 0)) = false).
  { apply Z.ltb_ge. rewrite !wrap64_small; unfold SDL_MAX_UINT64 in *; lia. }
  destruct fuel; simpl; rewrite G4; simpl; rewrite G5; reflexivity.
Qed.

(** C10, an instance: a zero delay at the eighth reading of a clock. *)
Lemma C10_delay_precise_zero_witness :
  SDL_DelayPrecise (fun k => Z.of_nat k * 1000) 3 0 (mkWorld 7 [SDL_CPUPauseInstruction])
    = Returned (mkWorld 8 [SDL_CPUPauseInstruction]).
Proof.
  apply (C10_delay_precise_zero (fun k => Z.of_nat k * 1000) 3
           (mkWorld 7 [SDL_CPUPauseInstruction])).
  vm_compute. discriminate.
Defined.





(** *** The shape of a run *)

Section Pacing.
Variable clock : nat -> Z.

(** [w'] is [w] after the platform calls [l], the clock having been read
    once after each of them. *)
Definition after (w : World) (l : list Call) (w' : World) : Prop :=
  w' = mkWorld (reads w + length l) (calls w ++ l).

Lemma after_nil w : after w [] w.
Proof. unfold after. destruct w. simpl. now rewrite Nat.add_0_r, app_nil_r. Qed.

Lemma after_cons (w : World) c l w' :
  after (mkWorld (S (reads w)) (calls w ++ [c])) l w' -> after w (c :: l) w'.
Proof.
  unfold after. intros ->. cbn [reads calls length].
  rewrite <- app_assoc. f_equal. lia.
Qed.

Lemma after_app w l1 w1 l2 w2 : after w l1 w1 -> after w1 l2 w2 -> after w (l1 ++ l2) w2.
Proof.
  unfold after. intros -> ->. cbn [reads calls].
  rewrite length_app, app_assoc. f_equal. lia.
Qed.

Lemma step5_after fuel tv : forall cur w,
  exists n, after w (repeat SDL_CPUPauseInstruction n) (world_of (step5 clock fuel tv cur w)).
Proof.
  induction fuel as [| k IH]; intros cur w; simpl;
    destruct (cur <? tv); simpl; try (exists 0%nat; apply after_nil).
  destruct (IH (now_ns clock (reads w))
               (mkWorld (S (reads w)) (calls w ++ [SDL_CPUPauseInstruction]))) as [n Hn].
  exists (S n). apply after_cons. exact Hn.
Qed.

Lemma step4_after fuel tv : forall cur w,
  exists n, after w (repeat (SDL_SYS_DelayNS 0) n) (sum_world (step4 clock fuel tv cur w)).
Proof.
  induction fuel as [| k IH]; intros cur w; simpl;
    destruct (_ <? tv); simpl; try (exists 0%nat; apply after_nil).
  destruct (IH (now_ns clock (reads w))
               (mkWorld (S (reads w)) (calls w ++ [SDL_SYS_DelayNS 0]))) as [n Hn].
  exists (S n). apply after_cons. exact Hn.
Qed.

Lemma step3_after fuel tv : forall cur w,
  exists n, after w (repeat (SDL_SYS_DelayNS SHORT_SLEEP_NS) n)
              (sum_world (step3 clock fuel tv cur w)).
Proof.
  induction fuel as [| k IH]; intros cur w; simpl;
    destruct (_ <? tv); simpl; try (exists 0%nat; apply after_nil).
  destruct (tv <=? _); simpl.
  - exists 1%nat. apply after_cons, after_nil.
  - destruct (IH (now_ns clock (reads w))
                 (mkWorld (S (reads w)) (calls w ++ [SDL_SYS_DelayNS SHORT_SLEEP_NS])))
      as [n Hn].
    exists (S n). apply after_cons. exact Hn.
Qed.

Lemma step2_after fuel tv : forall cur m w,
  exists n, after w (repeat (SDL_SYS_DelayNS SHORT_SLEEP_NS) n)
              (sum_world (step2 clock fuel tv cur m w)).
Proof.
  induction fuel as [| k IH]; intros cur m w; simpl;
    destruct (_ <? tv); simpl; try (exists 0%nat; apply after_nil).
  destruct (tv <=? _); simpl.
  - exists 1%nat. apply after_cons, after_nil.
  - match goal with |- context [step2 clock k tv ?c ?m' ?w'] =>
      destruct (IH c m' w') as [n Hn] end.
    exists (S n). apply after_cons. exact Hn.
Qed.

(** A sleep of at least ten short sleeps. *)
Definition long_sleep (c : Call) : Prop :=
  exists d, c = SDL_SYS_DelayNS d /\ 10 * SHORT_SLEEP_NS <= d.

Lemma step1_after fuel tv : forall s w,
  exists l, after w l (sum_world (step1 clock fuel tv s w)) /\ Forall long_sleep l.
Proof.
  induction fuel as [| k IH]; intros s w; simpl;
    destruct (step1_guard tv s) eqn:G; simpl;
    try (exists []; split; [apply after_nil | constructor]).
  assert (Hlong : long_sleep (SDL_SYS_DelayNS (current_sleep_ns s))).
  { exists (current_sleep_ns s). split; [reflexivity |].
    unfold step1_guard in G. apply andb_prop in G as [G _]. now apply Z.leb_le in G. }
  pose proof (step1_body_world clock tv s w) as Hw.
  destruct (step1_body clock tv s w) as [w' | s' w' | s' w']; simpl in Hw; subst w'; simpl.
  - exists [SDL_SYS_DelayNS (current_sleep_ns s)]. split; [apply after_cons, after_nil |].
    constructor; [exact Hlong | constructor].
  - exists [SDL_SYS_DelayNS (current_sleep_ns s)]. split; [apply after_cons, after_nil |].
    constructor; [exact Hlong | constructor].
  - match goal with |- context [step1 clock k tv s' ?w'] =>
      destruct (IH s' w') as (l & Hl & Fl) end.
    exists (SDL_SYS_DelayNS (current_sleep_ns s) :: l).
    split; [apply after_cons; exact Hl | constructor; assumption].
Qed.

(** The calls of a run, phase by phase. *)
Definition phases (l1 : list Call) (n2 n4 n5 : nat) : list Call :=
  l1 ++ repeat (SDL_SYS_DelayNS SHORT_SLEEP_NS) n2
     ++ repeat (SDL_SYS_DelayNS 0) n4
     ++ repeat SDL_CPUPauseInstruction n5.

Lemma from_step_4_after fuel tv cur w :
  exists n4 n5, after w (phases [] 0 n4 n5) (world_of (from_step_4 clock fuel tv cur w)).
Proof.
  unfold from_step_4, phases. cbn [repeat Datatypes.app].
  destruct (step4_after fuel tv cur w) as [n4 H4].
  destruct (step4 clock fuel tv cur w) as [o | [c w']]; simpl in H4.
  - exists n4, 0%nat. cbn [repeat]. now rewrite app_nil_r.
  - destruct (step5_after fuel tv c w') as [n5 H5].
    exists n4, n5. eapply after_app; eassumption.
Qed.

Lemma from_step_2_after fuel tv cur m w :
  exists n2 n4 n5, after w (phases [] n2 n4 n5) (world_of (from_step_2 clock fuel tv cur m w)).
Proof.
  unfold from_step_2, phases. cbn [Datatypes.app].
  match goal with |- context [step2 _ _ _ _ ?ms _] => set (ms0 := ms) end.
  destruct (step2_after fuel tv cur ms0 w) as [a H2].
  destruct (step2 clock fuel tv cur ms0 w) as [o | [c w']]; simpl in H2.
  - exists a, 0%nat, 0%nat. cbn [repeat Datatypes.app]. now rewrite app_nil_r.
  - destruct (step3_after fuel tv c w') as [b H3].
    pose proof (after_app _ _ _ _ _ H2 H3) as H23. rewrite <- repeat_app in H23.
    destruct (step3 clock fuel tv c w') as [o | [c' w'']]; simpl in H3, H23.
    + exists (a + b)%nat, 0%nat, 0%nat. cbn [repeat Datatypes.app]. now rewrite app_nil_r.
    + destruct (from_step_4_after fuel tv c' w'') as (n4 & n5 & H45).
      exists (a + b)%nat, n4, n5. eapply after_app; eassumption.
Qed.

Lemma SDL_DelayPrecise_after fuel ns w :
  exists l1 n2 n4 n5,
    after (mkWorld (S (reads w)) (calls w)) (phases l1 n2 n4 n5)
      (world_of (SDL_DelayPrecise clock fuel ns w)) /\
    Forall long_sleep l1 /\
    (ns <= 2 * SHORT_SLEEP_NS -> l1 = [] /\ n2 = 0%nat).
Proof.
  unfold SDL_DelayPrecise, SDL_GetTicksNS.
  set (tv := wrap64 (now_ns clock (reads w) + ns)).
  set (w1 := mkWorld (S (reads w)) (calls w)).
  destruct (Z.leb_spec ns (2 * SHORT_SLEEP_NS)) as [Hle | Hgt].
  { destruct (from_step_4_after fuel tv (now_ns clock (reads w)) w1) as (n4 & n5 & H).
    exists [], 0%nat, n4, n5. repeat split; [exact H | constructor]. }
  destruct (10 * SHORT_SLEEP_NS <=? _).
  - destruct (step1_after fuel tv (step1_init ns (now_ns clock (reads w))) w1)
      as (l1 & H1 & F1).
    destruct (step1 clock fuel tv _ w1) as [o | [s' w']]; simpl in H1.
    + exists l1, 0%nat, 0%nat, 0%nat. unfold phases. cbn [repeat Datatypes.app].
      rewrite app_nil_r. split; [exact H1 | split; [exact F1 | lia]].
    + destruct (from_step_2_after fuel tv (current_value s') (max_overshoot_ns s') w')
        as (n2 & n4 & n5 & H2).
      exists l1, n2, n4, n5. split; [| split; [exact F1 | lia]].
      unfold phases in *. cbn [Datatypes.app] in H2. eapply after_app; eassumption.
  - destruct (from_step_2_after fuel tv (now_ns clock (reads w)) 0 w1)
      as (n2 & n4 & n5 & H2).
    exists [], n2, n4, n5. split; [exact H2 | split; [constructor | lia]].
Qed.

(** *** No sleep is requested that would itself reach the deadline *)

(** [ontime tv r l]: the calls [l], the first made when the latest reading
    of the clock is the [r]-th and the clock read once after each, are all
    made with time to spare: a sleep of [d], counted as at least one short
    sleep, would end before [tv] if it lasted exactly [d]; a pause is made
    only before [tv]. *)
Fixpoint ontime (tv : Z) (r : nat) (l : list Call) : Prop :=
  match l with
  | [] => True
  | c :: l =>
      match c with
      | SDL_SYS_DelayNS d => now_ns clock r + Z.max d SHORT_SLEEP_NS < tv
      | SDL_CPUPauseInstruction => now_ns clock r < tv
      end /\ ontime tv (S r) l
  end.

Lemma ontime_app tv l1 : forall r l2,
  ontime tv r l1 -> ontime tv (r + length l1) l2 -> ontime tv r (l1 ++ l2).
Proof.
  induction l1 as [| c l1 IH]; intros r l2 H1 H2; simpl in *.
  - now rewrite Nat.add_0_r in H2.
  - destruct H1 as [Hc H1]. split; [exact Hc |]. apply IH; [exact H1 |].
    now replace (S r + length l1)%nat with (r + S (length l1))%nat by lia.
Qed.

Section Bounded.
Hypothesis monotone : nondecreasing clock.
(** The readings stay within the lower quarter of the Uint64 range. *)
Hypothesis bounded : forall k, now_ns clock k <= 4611686018427387904.
Variable tv : Z.
Hypothesis tv_u64 : 0 <= tv <= SDL_MAX_UINT64.

(** What a loop entered after the [r]-th reading leaves: the calls it
    made, on time, and, when it falls through, the reading it ends with. *)
Definition paced {A} (value : A -> Z) (w : World) (r : nat) (res : Outcome + A * World)
  : Prop :=
  exists l, after w l (sum_world res) /\ ontime tv r l /\
    match res with
    | inl _ => True
    | inr (a, _) => value a = now_ns clock (r + length l)
    end.

Lemma paced_nil {A} (value : A -> Z) w r a :
  value a = now_ns clock r -> paced value w r (inr (a, w)).
Proof.
  intros E. exists []. split; [apply after_nil |]. split; [exact I |].
  simpl. now rewrite Nat.add_0_r.
Qed.

Lemma paced_end {A} (value : A -> Z) w r o :
  world_of o = w -> paced value w r (inl o).
Proof.
  intros E. exists []. split; [| split; exact I]. simpl. rewrite E. apply after_nil.
Qed.

Lemma paced_cons {A} (value : A -> Z) (w : World) r c res :
  match c with
  | SDL_SYS_DelayNS d => now_ns clock r + Z.max d SHORT_SLEEP_NS < tv
  | SDL_CPUPauseInstruction => now_ns clock r < tv
  end ->
  paced value (mkWorld (S (reads w)) (calls w ++ [c])) (S r) res ->
  paced value w r res.
Proof.
  intros Hc (l & Ha & Ho & Hv). exists (c :: l).
  split; [now apply after_cons |]. split; [split; assumption |].
  destruct res as [o | [a w']]; [exact I |].
  simpl. now replace (r + S (length l))%nat with (S r + length l)%nat by lia.
Qed.

(** The sums the loop conditions compute do not wrap. *)
Lemma guard_exact cur d r :
  cur = now_ns clock r -> 0 <= d <= 4611686018427387904 ->
  wrap64 (cur + d) = cur + d.
Proof.
  intros -> Hd. pose proof (bounded r). pose proof (wrap64_range (clock r)) as [H0 _].
  fold (now_ns clock r) in H0. apply wrap64_small. unfold SDL_MAX_UINT64. lia.
Qed.

Lemma step5_paced fuel : forall cur w r,
  reads w = S r -> cur = now_ns clock r ->
  paced (fun c : Z => c) w r (inl (step5 clock fuel tv cur w)).
Proof.
  induction fuel as [| k IH]; intros cur w r Hr Hc; simpl;
    destruct (Z.ltb_spec cur tv) as [Hlt | Hge]; try (now apply paced_end).
  apply (paced_cons _ _ _ SDL_CPUPauseInstruction); [now subst cur |].
  apply IH; simpl; now rewrite Hr.
Qed.

Lemma step4_paced fuel : forall cur w r,
  reads w = S r -> cur = now_ns clock r ->
  paced (fun c : Z => c) w r (step4 clock fuel tv cur w).
Proof.
  assert (Hs : SHORT_SLEEP_NS = 1000000) by reflexivity.
  induction fuel as [| k IH]; intros cur w r Hr Hc; simpl;
    (rewrite (guard_exact cur SHORT_SLEEP_NS r Hc) by lia);
    destruct (Z.ltb_spec (cur + SHORT_SLEEP_NS) tv) as [Hlt | Hge];
    try (now apply paced_end); try (now apply paced_nil).
  apply (paced_cons _ _ _ (SDL_SYS_DelayNS 0)); [subst cur; lia |].
  apply IH; simpl; now rewrite Hr.
Qed.

Lemma step3_paced fuel : forall cur w r,
  reads w = S r -> cur = now_ns clock r ->
  paced (fun c : Z => c) w r (step3 clock fuel tv cur w).
Proof.
  assert (Hs : SHORT_SLEEP_NS = 1000000) by reflexivity.
  induction fuel as [| k IH]; intros cur w r Hr Hc; simpl;
    (rewrite (guard_exact cur (2 * SHORT_SLEEP_NS) r Hc) by lia);
    destruct (Z.ltb_spec (cur + 2 * SHORT_SLEEP_NS) tv) as [Hlt | Hge];
    try (now apply paced_end); try (now apply paced_nil).
  apply (paced_cons _ _ _ (SDL_SYS_DelayNS SHORT_SLEEP_NS)); [subst cur; lia |].
  destruct (tv <=? now_ns clock (reads w)).
  - now apply paced_end.
  - apply IH; simpl; now rewrite Hr.
Qed.

Lemma step2_paced fuel : forall cur m w r,
  reads w = S r -> cur = now_ns clock r ->
  SHORT_SLEEP_NS <= m <= 4611686018427387904 ->
  paced (fun c : Z => c) w r (step2 clock fuel tv cur m w).
Proof.
  assert (Hs : SHORT_SLEEP_NS = 1000000) by reflexivity.
  induction fuel as [| k IH]; intros cur m w r Hr Hc Hm; simpl;
    (rewrite (guard_exact cur m r Hc) by lia);
    destruct (Z.ltb_spec (cur + m) tv) as [Hlt | Hge];
    try (now apply paced_end); try (now apply paced_nil).
  apply (paced_cons _ _ _ (SDL_SYS_DelayNS SHORT_SLEEP_NS)); [subst cur; lia |].
  destruct (tv <=? now_ns clock (reads w)).
  - now apply paced_end.
  - apply IH; [simpl; now rewrite Hr | simpl; now rewrite Hr |].
    rewrite Hr. pose proof (monotone r (S r) ltac:(lia)) as Hmono.
    pose proof (bounded (S r)). pose proof (wrap64_range (clock r)) as [H0 _].
    fold (now_ns clock r) in H0. subst cur.
    rewrite (wrap64_small (now_ns clock (S r) - now_ns clock r))
      by (unfold SDL_MAX_UINT64; lia).
    destruct (Z.ltb_spec m (now_ns clock (S r) - now_ns clock r)); lia.
Qed.

(** What holds of the step 1 state besides [step1_wf]: the sleep asked
    for is at most [target_sleep_ns], itself at most a tenth of the
    Uint64 range. *)
Definition step1_fit (s : Step1) : Prop :=
  step1_wf s /\ target_sleep_ns s <= 1844674407370955161 /\
  0 <= current_sleep_ns s <= target_sleep_ns s.

Lemma tenth_u64 x : 0 <= x <= SDL_MAX_UINT64 -> 0 <= x / 10 <= 1844674407370955161.
Proof.
  unfold SDL_MAX_UINT64. intros [H0 H1]. split; [apply Z.div_pos; lia |].
  change 1844674407370955161 with (18446744073709551615 / 10).
  apply Z.div_le_mono; lia.
Qed.

Lemma step1_body_next s w :
  step1_fit s ->
  match step1_body clock tv s w with
  | S1_Return _ => True
  | S1_Break s' _ => 0 <= max_overshoot_ns s' /\ current_value s' = now_ns clock (reads w)
  | S1_Continue s' _ => step1_fit s' /\ current_value s' = now_ns clock (reads w)
  end.
Proof.
  intros (Hwf & Ht & Hc).
  destruct (step1_body clock tv s w) as [w' | s' w' | s' w'] eqn:E; [exact I | |].
  - pose proof Hwf as [[Ht1 Ht2] [Hm1 Hm2]].
    unfold step1_body, SDL_GetTicksNS in E. cbn [reads calls delay] in E.
    pose proof (wrap64_range (wrap64 (now_ns clock (reads w) - current_value s)
                              - current_sleep_ns s)) as [Ho _].
    destruct (tv <=? now_ns clock (reads w)); [discriminate |].
    destruct (tv <? _); [| discriminate].
    set (t' := shrink_target 20 _ _ _) in E. clearbody t'.
    destruct (t' <=? SHORT_SLEEP_NS); [| discriminate].
    injection E as <- <-. cbn [max_overshoot_ns current_value].
    split; [| reflexivity].
    destruct (max_overshoot_ns s <? _); destruct (target_sleep_ns s <=? _); lia.
  - destruct (step1_body_continue clock tv s w s' w' Hwf E) as (Hwf' & Hcs & Hcv & _).
    split; [| exact Hcv]. split; [exact Hwf' |].
    pose proof Hwf' as [[Ht1 Ht2] [Hm1 Hm2]]. split; [| lia].
    unfold step1_body, SDL_GetTicksNS in E. cbn [reads calls delay] in E.
    destruct (tv <=? now_ns clock (reads w)); [discriminate |].
    destruct (tv <? _).
    + set (t0 := wrap64 (tv - now_ns clock (reads w)) / 10) in *.
      assert (Ht0 : 0 <= t0 <= 1844674407370955161)
        by apply tenth_u64, wrap64_range.
      pose proof (shrink_target_bounds 20 (now_ns clock (reads w)) tv t0 (proj1 Ht0)).
      set (t' := shrink_target 20 _ _ _) in *. clearbody t'.
      destruct (t' <=? SHORT_SLEEP_NS); [discriminate |].
      injection E as <- <-. cbn [target_sleep_ns]. lia.
    + injection E as <- <-. cbn [target_sleep_ns]. exact Ht.
Qed.

Lemma step1_paced fuel : forall s w r,
  reads w = S r -> current_value s = now_ns clock r -> step1_fit s ->
  exists l, after w l (sum_world (step1 clock fuel tv s w)) /\ ontime tv r l /\
    match step1 clock fuel tv s w with
    | inl _ => True
    | inr (s', _) =>
        current_value s' = now_ns clock (r + length l) /\ 0 <= max_overshoot_ns s'
    end.
Proof.
  assert (Hs : SHORT_SLEEP_NS = 1000000) by reflexivity.
  assert (Hstay : forall s w r, current_value s = now_ns clock r -> step1_fit s ->
            exists l, after w l w /\ ontime tv r l /\
              current_value s = now_ns clock (r + length l) /\ 0 <= max_overshoot_ns s).
  { intros s w r Hc (Hwf & _). exists []. split; [apply after_nil |].
    split; [exact I |]. simpl. rewrite Nat.add_0_r. split; [exact Hc | apply Hwf]. }
  induction fuel as [| k IH]; intros s w r Hr Hc Hfit; simpl;
    destruct (step1_guard tv s) eqn:G; simpl; try (now apply Hstay).
  { exists []. split; [apply after_nil | split; exact I]. }
  assert (Hon : now_ns clock r + Z.max (current_sleep_ns s) SHORT_SLEEP_NS < tv).
  { destruct Hfit as (_ & Ht & Hcs).
    unfold step1_guard in G. apply andb_prop in G as [G1 G2].
    apply Z.leb_le in G1. apply Z.ltb_lt in G2.
    rewrite <- Z.add_assoc in G2.
    rewrite (guard_exact (current_value s) _ r Hc) in G2 by lia. lia. }
  pose proof (step1_body_world clock tv s w) as Hw.
  pose proof (step1_body_next s w Hfit) as Hn.
  destruct (step1_body clock tv s w) as [w' | s' w' | s' w']; simpl in Hw; subst w'; simpl.
  - exists [SDL_SYS_DelayNS (current_sleep_ns s)].
    split; [apply after_cons, after_nil |]. split; [split; [exact Hon | exact I] | exact I].
  - exists [SDL_SYS_DelayNS (current_sleep_ns s)].
    split; [apply after_cons, after_nil |]. split; [split; [exact Hon | exact I] |].
    destruct Hn as [Hm Hv]. rewrite Hv, Hr. simpl. split; [f_equal; lia | exact Hm].
  - destruct Hn as [Hfit' Hv].
    match goal with |- context [step1 clock k tv s' ?w'] =>
      destruct (IH s' w' (S r)) as (l & Ha & Ho & Hres) end;
      [simpl; now rewrite Hr | now rewrite Hv, Hr | exact Hfit' |].
    exists (SDL_SYS_DelayNS (current_sleep_ns s) :: l).
    split; [now apply after_cons |]. split; [split; assumption |].
    match goal with |- context [step1 clock k tv s' ?w'] =>
      destruct (step1 clock k tv s' w') as [o | [s'' w'']] end; [exact I |].
    simpl. now replace (r + S (length l))%nat with (S r + length l)%nat by lia.
Qed.

Lemma paced_then {A} (value : A -> Z) w r (res : Outcome + A * World) :
  reads w = S r -> paced value w r res ->
  exists l, after w l (sum_world res) /\ ontime tv r l /\
    match res with
    | inl _ => True
    | inr (a, w') => reads w' = S (r + length l) /\ value a = now_ns clock (r + length l)
    end.
Proof.
  intros Hr (l & Ha & Ho & Hv). exists l. split; [exact Ha |]. split; [exact Ho |].
  destruct res as [o | [a w']]; [exact I |]. split; [| exact Hv].
  simpl in Ha. unfold after in Ha. rewrite Ha. simpl. lia.
Qed.

Lemma from_step_4_paced fuel cur w r :
  reads w = S r -> cur = now_ns clock r ->
  exists l, after w l (world_of (from_step_4 clock fuel tv cur w)) /\ ontime tv r l.
Proof.
  intros Hr Hc. unfold from_step_4.
  destruct (paced_then _ w r _ Hr (step4_paced fuel cur w r Hr Hc)) as (l4 & A4 & O4 & R4).
  destruct (step4 clock fuel tv cur w) as [o | [c w']]; simpl in A4; [eauto |].
  destruct R4 as [Hr' Hc'].
  destruct (step5_paced fuel c w' _ Hr' Hc') as (l5 & A5 & O5 & _). simpl in A5.
  exists (l4 ++ l5). split; [eapply after_app; eassumption | now apply ontime_app].
Qed.

Lemma from_step_2_paced fuel cur m w r :
  reads w = S r -> cur = now_ns clock r -> 0 <= m ->
  exists l, after w l (world_of (from_step_2 clock fuel tv cur m w)) /\ ontime tv r l.
Proof.
  intros Hr Hc Hm. unfold from_step_2.
  assert (Hs : SHORT_SLEEP_NS = 1000000) by reflexivity.
  match goal with |- context [step2 _ _ _ _ ?ms _] => set (ms0 := ms) end.
  assert (Hms : SHORT_SLEEP_NS <= ms0 <= 4611686018427387904).
  { subst ms0. destruct (Z.ltb_spec m SHORT_SLEEP_NS).
    - rewrite wrap64_small; unfold SDL_MAX_UINT64; lia.
    - lia. }
  destruct (paced_then _ w r _ Hr (step2_paced fuel cur ms0 w r Hr Hc Hms))
    as (l2 & A2 & O2 & R2).
  destruct (step2 clock fuel tv cur ms0 w) as [o | [c w']]; simpl in A2; [eauto |].
  destruct R2 as [Hr2 Hc2].
  destruct (paced_then _ w' _ _ Hr2 (step3_paced fuel c w' _ Hr2 Hc2))
    as (l3 & A3 & O3 & R3).
  destruct (step3 clock fuel tv c w') as [o | [c' w'']]; simpl in A3.
  - exists (l2 ++ l3). split; [eapply after_app; eassumption | now apply ontime_app].
  - destruct R3 as [Hr3 Hc3].
    destruct (from_step_4_paced fuel c' w'' _ Hr3 Hc3) as (l4 & A4 & O4).
    exists (l2 ++ l3 ++ l4). split.
    + eapply after_app; [eassumption |]. eapply after_app; eassumption.
    + apply ontime_app; [exact O2 |]. now apply ontime_app.
Qed.

End Bounded.

End Pacing.

Lemma SDL_DelayPrecise_paced clock fuel ns w :
  nondecreasing clock ->
  (forall k, now_ns clock k <= 4611686018427387904) ->
  0 <= ns -> now_ns clock (reads w) + ns <= SDL_MAX_UINT64 ->
  exists l, after (mkWorld (S (reads w)) (calls w)) l
              (world_of (SDL_DelayPrecise clock fuel ns w)) /\
    ontime clock (now_ns clock (reads w) + ns) (reads w) l.
Proof.
  intros Hmono Hb Hns Hfit.
  pose proof (wrap64_range (clock (reads w))) as [He _].
  fold (now_ns clock (reads w)) in He.
  assert (Hs : SHORT_SLEEP_NS = 1000000) by reflexivity.
  unfold SDL_DelayPrecise, SDL_GetTicksNS.
  rewrite (wrap64_small (now_ns clock (reads w) + ns)) by lia.
  set (entry := now_ns clock (reads w)) in *.
  set (tv := entry + ns) in *.
  set (w1 := mkWorld (S (reads w)) (calls w)).
  assert (Hr : reads w1 = S (reads w)) by reflexivity.
  assert (Htv : 0 <= tv <= SDL_MAX_UINT64) by lia.
  destruct (ns <=? 2 * SHORT_SLEEP_NS).
  { now apply (from_step_4_paced clock Hb tv). }
  destruct (Z.leb_spec (10 * SHORT_SLEEP_NS) (target_sleep_ns (step1_init ns entry)))
    as [Hbig | Hsmall].
  - assert (Hfit0 : step1_fit (step1_init ns entry)).
    { unfold step1_init in *. cbn [target_sleep_ns] in Hbig.
      assert (Hq : 0 <= ns / 10 <= 1844674407370955161) by (apply tenth_u64; lia).
      unfold step1_fit, step1_wf. cbn [target_sleep_ns max_overshoot_ns current_sleep_ns].
      rewrite wrap64_small; unfold SDL_MAX_UINT64 in *; lia. }
    destruct (step1_paced clock Hb tv fuel (step1_init ns entry) w1 (reads w) Hr
                eq_refl Hfit0) as (l1 & A1 & O1 & R1).
    destruct (step1 clock fuel tv _ w1) as [o | [s' w']]; simpl in A1; [eauto |].
    destruct R1 as [Hc1 Hm1].
    assert (Hr1 : reads w' = S (reads w + length l1)).
    { unfold after in A1. rewrite A1. simpl. lia. }
    destruct (from_step_2_paced clock Hmono Hb tv fuel (current_value s')
                (max_overshoot_ns s') w' _ Hr1 Hc1 Hm1) as (l2 & A2 & O2).
    exists (l1 ++ l2). split; [eapply after_app; eassumption | now apply ontime_app].
  - now apply (from_step_2_paced clock Hmono Hb tv).
Qed.

(** X1: whatever the clock does and whether or not the run ends,
    [SDL_DelayPrecise] makes its platform calls in four phases, in this
    order: sleeps of at least ten short sleeps each, sleeps of exactly one
    short sleep, zero-duration sleeps, CPU pauses. No other call is made
    and no phase is revisited. *)
Theorem delay_precise_phases (clock : nat -> Z) (fuel : nat) (ns : Z) (w : World) :
  exists l1 n2 n4 n5,
    calls (world_of (SDL_DelayPrecise clock fuel ns w)) = calls w ++ phases l1 n2 n4 n5 /\
    Forall long_sleep l1.
Proof.
  destruct (SDL_DelayPrecise_after clock fuel ns w) as (l1 & n2 & n4 & n5 & Ha & Fl & _).
  exists l1, n2, n4, n5. split; [| exact Fl]. unfold after in Ha. now rewrite Ha.
Qed.

(** X2: the clock is read once on entry and once after every platform
    call, and at no other time: the number of readings a run takes is one
    more than the number of sleeps and pauses it makes. *)
Theorem delay_precise_reads (clock : nat -> Z) (fuel : nat) (ns : Z) (w : World) :
  let w' := world_of (SDL_DelayPrecise clock fuel ns w) in
  (length (calls w) <= length (calls w'))%nat /\
  reads w' = (reads w + 1 + (length (calls w') - length (calls w)))%nat.
Proof.
  destruct (SDL_DelayPrecise_after clock fuel ns w) as (l1 & n2 & n4 & n5 & Ha & _).
  unfold after in Ha. cbv zeta. rewrite Ha. cbn [reads calls].
  rewrite length_app. lia.
Qed.

(** X3: a delay of at most two short sleeps (2 ms) never asks the system
    for a real sleep: its calls are zero-duration sleeps followed by CPU
    pauses, and nothing else. *)
Theorem delay_precise_short_never_sleeps (clock : nat -> Z) (fuel : nat) (ns : Z)
    (w : World) :
  ns <= 2 * SHORT_SLEEP_NS ->
  exists n4 n5,
    calls (world_of (SDL_DelayPrecise clock fuel ns w))
      = calls w ++ repeat (SDL_SYS_DelayNS 0) n4 ++ repeat SDL_CPUPauseInstruction n5.
Proof.
  intros Hns.
  destruct (SDL_DelayPrecise_after clock fuel ns w) as (l1 & n2 & n4 & n5 & Ha & _ & Hshort).
  destruct (Hshort Hns) as [-> ->]. exists n4, n5.
  unfold after in Ha. now rewrite Ha.
Qed.

(** X3, an instance: 1.5 ms on a clock that advances 0.4 ms per reading. *)
Lemma delay_precise_short_never_sleeps_witness :
  exists n4 n5,
    calls (world_of (SDL_DelayPrecise (fun k => Z.of_nat k * 400000) 9 1500000
                       (mkWorld 0 [])))
      = [] ++ repeat (SDL_SYS_DelayNS 0) n4 ++ repeat SDL_CPUPauseInstruction n5.
Proof.
  apply (delay_precise_short_never_sleeps (fun k => Z.of_nat k * 400000) 9 1500000
           (mkWorld 0 [])).
  vm_compute. discriminate.
Defined.

(** X4: on a non-decreasing clock whose readings stay in the lower quarter
    of the Uint64 range, for a deadline that does not wrap, no call is made
    that would by itself reach the deadline: every sleep of [d] is
    requested when the latest reading plus [d], and plus at least one
    short sleep, is still before entry plus [ns], and every CPU pause when
    the latest reading is before it. Any overshoot comes from the platform
    sleeping longer than asked, never from the request. *)
Theorem delay_precise_requests_before_deadline (clock : nat -> Z) (fuel : nat)
    (ns : Z) (w : World) :
  nondecreasing clock ->
  (forall k, now_ns clock k <= 4611686018427387904) ->
  0 <= ns ->
  now_ns clock (reads w) + ns <= SDL_MAX_UINT64 ->
  exists l,
    calls (world_of (SDL_DelayPrecise clock fuel ns w)) = calls w ++ l /\
    ontime clock (now_ns clock (reads w) + ns) (reads w) l.
Proof.
  intros Hmono Hb Hns Hfit.
  destruct (SDL_DelayPrecise_paced clock fuel ns w Hmono Hb Hns Hfit) as (l & Ha & Ho).
  exists l. split; [| exact Ho]. unfold after in Ha. now rewrite Ha.
Qed.

(** X4, an instance: one second on a clock that advances 99.5 ms per
    reading. *)
Lemma delay_precise_requests_before_deadline_witness :
  let clock := fun k => Z.min (Z.of_nat k * 99500000) 1000000000000 in
  exists l,
    calls (world_of (SDL_DelayPrecise clock 50 1000000000 (mkWorld 0 []))) = [] ++ l /\
    ontime clock (now_ns clock 0 + 1000000000) 0 l.
Proof.
  intros clock.
  apply (delay_precise_requests_before_deadline clock 50 1000000000 (mkWorld 0 [])).
  - intros i j Hij. unfold now_ns, clock.
    rewrite !wrap64_small; unfold SDL_MAX_UINT64; lia.
  - intros k. unfold now_ns, clock. rewrite wrap64_small; unfold SDL_MAX_UINT64; lia.
  - lia.
  - vm_compute. discriminate.
Defined.

End Delay.

(** ** The timer queue *)

(** Each function is modelled running to completion on the shared state:
    the mutex, the spinlock and the atomic operations become plain reads
    and writes, and the interleaving of threads is the order in which the
    functions are applied. *)

Module Timers.

(** Timer records live at addresses; [SDL_malloc] hands out fresh ones. *)
Abbreviation addr := nat.

(** [struct SDL_Timer] without its [next] link: the lists threaded through
    [next] are lists of addresses. A callback is a function pointer, 0 for
    [NULL]; [canceled] is the value of the atomic integer. *)
Record SDL_Timer := mkTimer {
  timerID : Z;
  callback_ms : Z;
  callback_ns : Z;
  userdata : Z;
  interval : Z;
  scheduled : Z;
  canceled : Z
}.

#[global] Instance SDL_Timer_inhabited : Inhabited SDL_Timer :=
  populate (mkTimer 0 0 0 0 0 0 0).

(** [struct SDL_TimerMap], a registry entry, without its [next] link. *)
Record SDL_TimerMap := mkTimerMap {
  entry_timerID : Z;
  timer : addr
}.

(** Modelled from the spec: the error a call leaves behind ("a boolean
    return plus a thread-local error string"): [SDL_InvalidParamError]
    names the parameter, [SDL_SetError] carries a message. *)
Inductive SDL_Error :=
| InvalidParam (param : string)
| Message (msg : string).

Section Queue.
(** The application: its state, and what calling a millisecond or a
    nanosecond callback (function pointer, userdata, timer id, interval)
    returns and does to that state. Callbacks act on the application's
    state only: one that itself adds or removes timers is outside this
    model. *)
Context {App : Type}.
Variable invoke_ms : Z -> Z -> Z -> Z -> App -> Z * App.
Variable invoke_ns : Z -> Z -> Z -> Z -> App -> Z * App.
(** The platform: the successive readings of [SDL_GetTicksNS], whether the
    [k]-th [SDL_malloc] succeeds, and whether the mutex, the semaphore and
    the thread can be created. *)
Variable clock : nat -> Z.
Variable malloc_ok : nat -> bool.
Variables mutex_ok sem_ok thread_ok : bool.

Record State := mkState {
  init : bool;  (* [SDL_InitState]: the timers are initialised *)
  thread : bool;  (* [data->thread] is not [NULL]: the worker exists *)
  timermap : list SDL_TimerMap;  (* the registry, head first *)
  timermap_lock : bool;  (* the mutex exists *)
  sem : option nat;  (* the semaphore and its count; [None] is [NULL] *)
  pending : list addr;  (* timers handed to the worker, head first *)
  freelist : list addr;  (* recyclable timer records, head first *)
  active : Z;  (* the atomic [active] flag *)
  timers : list addr;  (* the worker's list, head first *)
  worker_freelist : list addr;  (* the worker's local [freelist_head .. freelist_tail] *)
  heap : gmap addr SDL_Timer;  (* the allocated timer records *)
  brk : addr;  (* the next address [SDL_malloc] hands out *)
  mallocs : nat;  (* how many times [SDL_malloc] was called *)
  last_object_id : Z;  (* the last identifier [SDL_GetNextObjectID] gave *)
  reads : nat;  (* how many times the clock was read *)
  waits : list Z;  (* the timeouts the worker waited with, oldest first *)
  error : option SDL_Error;  (* the thread's error, as [SDL_SetError] left it *)
  app_state : App  (* the state of the application the callbacks run in *)
}.

Definition with_init (v : bool) (st : State) : State :=
  mkState v (thread st) (timermap st) (timermap_lock st) (sem st)
    (pending st) (freelist st) (active st) (timers st) (worker_freelist st)
    (heap st) (brk st) (mallocs st) (last_object_id st) (reads st) (waits st)
    (error st) (app_state st).

Definition with_thread (v : bool) (st : State) : State :=
  mkState (init st) v (timermap st) (timermap_lock st) (sem st) (pending st)
    (freelist st) (active st) (timers st) (worker_freelist st) (heap st)
    (brk st) (mallocs st) (last_object_id st) (reads st) (waits st)
    (error st) (app_state st).

Definition with_timermap (v : list SDL_TimerMap) (st : State) : State :=
  mkState (init st) (thread st) v (timermap_lock st) (sem st) (pending st)
    (freelist st) (active st) (timers st) (worker_freelist st) (heap st)
    (brk st) (mallocs st) (last_object_id st) (reads st) (waits st)
    (error st) (app_state st).

Definition with_timermap_lock (v : bool) (st : State) : State :=
  mkState (init st) (thread st) (timermap st) v (sem st) (pending st)
    (freelist st) (active st) (timers st) (worker_freelist st) (heap st)
    (brk st) (mallocs st) (last_object_id st) (reads st) (waits st)
    (error st) (app_state st).

Definition with_sem (v : option nat) (st : State) : State :=
  mkState (init st) (thread st) (timermap st) (timermap_lock st) v
    (pending st) (freelist st) (active st) (timers st) (worker_freelist st)
    (heap st) (brk st) (mallocs st) (last_object_id st) (reads st) (waits st)
    (error st) (app_state st).

Definition with_pending (v : list addr) (st : State) : State :=
  mkState (init st) (thread st) (timermap st) (timermap_lock st) (sem st) v
    (freelist st) (active st) (timers st) (worker_freelist st) (heap st)
    (brk st) (mallocs st) (last_object_id st) (reads st) (waits st)
    (error st) (app_state st).

Definition with_freelist (v : list addr) (st : State) : State :=
  mkState (init st) (thread st) (timermap st) (timermap_lock st) (sem st)
    (pending st) v (active st) (timers st) (worker_freelist st) (heap st)
    (brk st) (mallocs st) (last_object_id st) (reads st) (waits st)
    (error st) (app_state st).

Definition with_active (v : Z) (st : State) : State :=
  mkState (init st) (thread st) (timermap st) (timermap_lock st) (sem st)
    (pending st) (freelist st) v (timers st) (worker_freelist st) (heap st)
    (brk st) (mallocs st) (last_object_id st) (reads st) (waits st)
    (error st) (app_state st).

Definition with_timers (v : list addr) (st : State) : State :=
  mkState (init st) (thread st) (timermap st) (timermap_lock st) (sem st)
    (pending st) (freelist st) (active st) v (worker_freelist st) (heap st)
    (brk st) (mallocs st) (last_object_id st) (reads st) (waits st)
    (error st) (app_state st).

Definition with_worker_freelist (v : list addr) (st : State) : State :=
  mkState (init st) (thread st) (timermap st) (timermap_lock st) (sem st)
    (pending st) (freelist st) (active st) (timers st) v (heap st) (brk st)
    (mallocs st) (last_object_id st) (reads st) (waits st) (error st)
    (app_state st).

Definition with_heap (v : gmap addr SDL_Timer) (st : State) : State :=
  mkState (init st) (thread st) (timermap st) (timermap_lock st) (sem st)
    (pending st) (freelist st) (active st) (timers st) (worker_freelist st) v
    (brk st) (mallocs st) (last_object_id st) (reads st) (waits st)
    (error st) (app_state st).

Definition with_brk (v : addr) (st : State) : State :=
  mkState (init st) (thread st) (timermap st) (timermap_lock st) (sem st)
    (pending st) (freelist st) (active st) (timers st) (worker_freelist st)
    (heap st) v (mallocs st) (last_object_id st) (reads st) (waits st)
    (error st) (app_state st).

Definition with_mallocs (v : nat) (st : State) : State :=
  mkState (init st) (thread st) (timermap st) (timermap_lock st) (sem st)
    (pending st) (freelist st) (active st) (timers st) (worker_freelist st)
    (heap st) (brk st) v (last_object_id st) (reads st) (waits st) (error st)
    (app_state st).

Definition with_last_object_id (v : Z) (st : State) : State :=
  mkState (init st) (thread st) (timermap st) (timermap_lock st) (sem st)
    (pending st) (freelist st) (active st) (timers st) (worker_freelist st)
    (heap st) (brk st) (mallocs st) v (reads st) (waits st) (error st)
    (app_state st).

Definition with_reads (v : nat) (st : State) : State :=
  mkState (init st) (thread st) (timermap st) (timermap_lock st) (sem st)
    (pending st) (freelist st) (active st) (timers st) (worker_freelist st)
    (heap st) (brk st) (mallocs st) (last_object_id st) v (waits st)
    (error st) (app_state st).

Definition with_waits (v : list Z) (st : State) : State :=
  mkState (init st) (thread st) (timermap st) (timermap_lock st) (sem st)
    (pending st) (freelist st) (active st) (timers st) (worker_freelist st)
    (heap st) (brk st) (mallocs st) (last_object_id st) (reads st) v
    (error st) (app_state st).

Definition with_error (v : option SDL_Error) (st : State) : State :=
  mkState (init st) (thread st) (timermap st) (timermap_lock st) (sem st)
    (pending st) (freelist st) (active st) (timers st) (worker_freelist st)
    (heap st) (brk st) (mallocs st) (last_object_id st) (reads st) (waits st)
    v (app_state st).

Definition with_app_state (v : App) (st : State) : State :=
  mkState (init st) (thread st) (timermap st) (timermap_lock st) (sem st)
    (pending st) (freelist st) (active st) (timers st) (worker_freelist st)
    (heap st) (brk st) (mallocs st) (last_object_id st) (reads st) (waits st)
    (error st) v.

Definition sched (h : gmap addr SDL_Timer) (a : addr) : Z := scheduled (h !!! a).

Definition set_canceled (v : Z) (t : SDL_Timer) : SDL_Timer :=
  mkTimer (timerID t) (callback_ms t) (callback_ns t) (userdata t)
    (interval t) (scheduled t) v.

Definition reschedule (i s : Z) (t : SDL_Timer) : SDL_Timer :=
  mkTimer (timerID t) (callback_ms t) (callback_ns t) (userdata t) i s (canceled t).

Definition SDL_SetError (msg : string) (st : State) : bool * State :=
  (false, with_error (Some (Message msg)) st).

Definition SDL_InvalidParamError (param : string) (st : State) : bool * State :=
  (false, with_error (Some (InvalidParam param)) st).

Definition SDL_GetTicksNS (st : State) : Z * State :=
  (wrap64 (clock (reads st)), with_reads (S (reads st)) st).

(** Modelled from the spec: [next_object_id ()] "returns a fresh non-zero
    32-bit identifier": the next one after the last, skipping zero. *)
Definition SDL_GetNextObjectID (st : State) : Z * State :=
  let id := wrap32 (last_object_id st + 1) in
  let id := if id =? 0 then 1 else id in
  (id, with_last_object_id id st).

(** [SDL_malloc] of a timer record: a fresh address, or [NULL]. *)
Definition SDL_malloc_timer (st : State) : option addr * State :=
  let st' := with_mallocs (S (mallocs st)) st in
  if malloc_ok (mallocs st) then (Some (brk st), with_brk (S (brk st)) st')
  else (None, st').

(** [SDL_malloc] of a registry entry: only success matters. *)
Definition SDL_malloc_entry (st : State) : bool * State :=
  (malloc_ok (mallocs st), with_mallocs (S (mallocs st)) st).

Definition SDL_free_timer (a : addr) (st : State) : State :=
  with_heap (delete a (heap st)) st.

Definition SDL_SignalSemaphore (st : State) : State :=
  with_sem (S <$> sem st) st.

Definition SDL_WaitSemaphoreTimeoutNS (delay : Z) (st : State) : State :=
  with_waits (waits st ++ [delay]) (with_sem (pred <$> sem st) st).

(** The scan of [SDL_AddTimerInternal]: the place before the first entry
    scheduled strictly later than the timer. *)
Fixpoint insert_timer (h : gmap addr SDL_Timer) (t : addr) (l : list addr) : list addr :=
  match l with
  | [] => [t]
  | curr :: rest =>
      if sched h t <? sched h curr then t :: curr :: rest
      else curr :: insert_timer h t rest
  end.

Definition SDL_AddTimerInternal (t : addr) (st : State) : State :=
  with_timers (insert_timer (heap st) t (timers st)) st.

(** *** The worker *)

(** Pending and freelist maintenance, under the spinlock. *)
Definition intake (st : State) : list addr * State :=
  let p := pending st in
  let st := with_pending [] st in
  let st :=
    match worker_freelist st with
    | [] => st
    | _ :: _ => with_freelist (worker_freelist st ++ freelist st) st
    end in
  (p, st).

(** Sort the pending timers into the list. *)
Fixpoint merge (p : list addr) (st : State) : State :=
  match p with
  | [] => st
  | current :: p => merge p (SDL_AddTimerInternal current st)
  end.

Definition maintenance (st : State) : State :=
  let (p, st) := intake st in
  with_worker_freelist [] (merge p st).

(** The interval the worker obtains for a timer it is about to handle: 0
    when canceled, else what the callback returns, in nanoseconds. *)
Definition next_interval (c : SDL_Timer) (a : App) : Z * App :=
  if negb (canceled c =? 0) then (0, a)
  else if negb (callback_ms c =? 0) then
    let (r, a) := invoke_ms (callback_ms c) (userdata c) (timerID c)
                    (wrap32 (SDL_NS_TO_MS (interval c))) a in
    (SDL_MS_TO_NS (wrap32 r), a)
  else
    let (r, a) := invoke_ns (callback_ns c) (userdata c) (timerID c) (interval c) a in
    (wrap64 r, a).

(** The body of the dispatch loop for the head [current] of the list, which
    is due at [tick]. *)
Definition dispatch (tick : Z) (current : addr) (rest : list addr) (st : State) : State :=
  let st := with_timers rest st in
  let c := heap st !!! current in
  let (i, a) := next_interval c (app_state st) in
  let st := with_app_state a st in
  if 0 <? i then
    let st := with_heap (<[current := reschedule i (wrap64 (tick + i)) c]> (heap st)) st in
    SDL_AddTimerInternal current st
  else
    let st := with_worker_freelist (worker_freelist st ++ [current]) st in
    with_heap (<[current := set_canceled 1 c]> (heap st)) st.

(** Process all the timers due at [tick]; the result carries [delay]. *)
Fixpoint dispatch_all (fuel : nat) (tick : Z) (st : State) : option (Z * State) :=
  match timers st with
  | [] => Some (SDL_MAX_UINT64, st)
  | current :: rest =>
      if tick <? sched (heap st) current
      then Some (wrap64 (sched (heap st) current - tick), st)
      else
        match fuel with
        | O => None
        | S n => dispatch_all n tick (dispatch tick current rest st)
        end
  end.

(** One turn of the [for (;;)] of [SDL_TimerThread]: [Some (true, _)] when
    it reaches the wait, [Some (false, _)] when it breaks out, [None] when
    the dispatch loop outlasts [fuel]. *)
Definition SDL_TimerThread_turn (fuel : nat) (st : State) : option (bool * State) :=
  let st := maintenance st in
  if active st =? 0 then Some (false, st)
  else
    let (tick, st) := SDL_GetTicksNS st in
    '(delay, st) ← dispatch_all fuel tick st;
    let (now, st) := SDL_GetTicksNS st in
    let i := wrap64 (now - tick) in
    let delay := if delay <? i then 0 else wrap64 (delay - i) in
    Some (true, SDL_WaitSemaphoreTimeoutNS delay st).

(** *** Initialisation and shutdown *)

Fixpoint free_timers (l : list addr) (h : gmap addr SDL_Timer) : gmap addr SDL_Timer :=
  match l with
  | [] => h
  | a :: l => free_timers l (delete a h)
  end.

Definition SDL_QuitTimers (st : State) : State :=
  if negb (init st) then st
  else
    let st := with_active 0 st in
    (* the worker is woken, leaves its loop after its maintenance, is joined *)
    let st :=
      if thread st
      then with_thread false (maintenance (SDL_SignalSemaphore st))
      else st in
    let st := with_sem None st in
    let st := with_timers [] (with_heap (free_timers (timers st) (heap st)) st) in
    let st := with_freelist [] (with_heap (free_timers (freelist st) (heap st)) st) in
    let st := with_timermap [] st in
    let st := with_timermap_lock false st in
    with_init false st.

Definition SDL_InitTimers (st : State) : bool * State :=
  if init st then (true, st)
  else
    let fail st := (false, SDL_QuitTimers (with_init true st)) in
    let st := with_timermap_lock mutex_ok st in
    if negb mutex_ok then fail st
    else
      let st := with_sem (if sem_ok then Some O else None) st in
      if negb sem_ok then fail st
      else
        let st := with_active 1 st in
        let st := with_thread thread_ok st in
        if negb thread_ok then fail st
        else (true, with_init true st).

Definition SDL_CheckInitTimers (st : State) : bool * State := SDL_InitTimers st.

(** *** The registry *)

(** The search of [SDL_RemoveTimer]: the first entry with the id, and the
    registry with that entry unlinked. *)
Fixpoint unlink (id : Z) (l : list SDL_TimerMap) : option SDL_TimerMap * list SDL_TimerMap :=
  match l with
  | [] => (None, [])
  | entry :: rest =>
      if entry_timerID entry =? id then (Some entry, rest)
      else let (found, rest) := unlink id rest in (found, entry :: rest)
  end.

Definition SDL_RemoveTimer (id : Z) (st : State) : bool * State :=
  if id =? 0 then SDL_InvalidParamError "id" st
  else
    let (found, rest) := unlink id (timermap st) in
    let st := with_timermap rest st in
    let (was_canceled, st) :=
      match found with
      | Some entry =>
          let t := heap st !!! timer entry in
          if canceled t =? 0
          then (true, with_heap (<[timer entry := set_canceled 1 t]> (heap st)) st)
          else (false, st)
      | None => (false, st)
      end in
    if was_canceled then (true, st) else SDL_SetError "Timer not found" st.

(** How [SDL_CreateTimer] obtains its record: the head of the freelist,
    whose previous id is removed from the registry first, or a new
    allocation. *)
Definition acquire_timer (st : State) : option addr * State :=
  let reused := head (freelist st) in
  let st := with_freelist (tail (freelist st)) st in
  match reused with
  | Some t => (Some t, snd (SDL_RemoveTimer (timerID (heap st !!! t)) st))
  | None => SDL_malloc_timer st
  end.

Definition SDL_CreateTimer (interval callback_ms callback_ns userdata : Z) (st : State)
  : Z * State :=
  if (callback_ms =? 0) && (callback_ns =? 0)
  then (0, snd (SDL_InvalidParamError "callback" st))
  else
    let (ok, st) := SDL_CheckInitTimers st in
    if negb ok then (0, st)
    else
      let (got, st) := acquire_timer st in
      match got with
      | None => (0, st)
      | Some t =>
          let (id, st) := SDL_GetNextObjectID st in
          let (now, st) := SDL_GetTicksNS st in
          let record := mkTimer id callback_ms callback_ns userdata interval
                          (wrap64 (now + interval)) 0 in
          let st := with_heap (<[t := record]> (heap st)) st in
          let (ok, st) := SDL_malloc_entry st in
          if negb ok then (0, SDL_free_timer t st)
          else
            let st := with_timermap (mkTimerMap id t :: timermap st) st in
            let st := with_pending (t :: pending st) st in
            let st := SDL_SignalSemaphore st in
            (id, st)
      end.

Definition SDL_AddTimer (interval callback userdata : Z) (st : State) : Z * State :=
  SDL_CreateTimer (SDL_MS_TO_NS interval) callback 0 userdata st.

Definition SDL_AddTimerNS (interval callback userdata : Z) (st : State) : Z * State :=
  SDL_CreateTimer interval 0 callback userdata st.

(** *** Removing a timer *)

Lemma canceled_set_canceled v t : canceled (set_canceled v t) = v.
Proof. reflexivity. Qed.

(** What the search of [SDL_RemoveTimer] finds, in terms of the registry:
    [entry] is the first entry of the registry [l] with the id, [l1] the
    entries before it and [l2] those after it. *)
Definition first_with_id (id : Z) (l l1 : list SDL_TimerMap) (entry : SDL_TimerMap)
    (l2 : list SDL_TimerMap) : Prop :=
  l = l1 ++ entry :: l2 /\ entry_timerID entry = id /\
  Forall (fun e => entry_timerID e <> id) l1.

Lemma unlink_first id l l1 entry l2 :
  first_with_id id l l1 entry l2 -> unlink id l = (Some entry, l1 ++ l2).
Proof.
  intros (-> & He & Hl1). induction Hl1 as [| x l1 Hx _ IH]; simpl.
  - apply Z.eqb_eq in He. now rewrite He.
  - apply Z.eqb_neq in Hx. now rewrite Hx, IH.
Qed.

Lemma unlink_found id l :
  match unlink id l with
  | (Some entry, rest) => exists l1 l2, first_with_id id l l1 entry l2 /\ rest = l1 ++ l2
  | (None, rest) => rest = l /\ Forall (fun e => entry_timerID e <> id) l
  end.
Proof.
  induction l as [| x l IH]; simpl; [split; constructor |].
  destruct (Z.eqb_spec (entry_timerID x) id) as [E | N].
  - exists [], l. repeat split; [exact E | constructor].
  - destruct (unlink id l) as [[e |] rest].
    + destruct IH as (l1 & l2 & (-> & He & Hl) & ->).
      exists (x :: l1), l2. repeat split; [exact He | now constructor].
    + destruct IH as [-> Hl]. split; [reflexivity | now constructor].
Qed.

Lemma unlink_none id l :
  Forall (fun e => entry_timerID e <> id) l -> unlink id l = (None, l).
Proof.
  induction 1 as [| x l Hx _ IH]; simpl; [reflexivity |].
  apply Z.eqb_neq in Hx. now rewrite Hx, IH.
Qed.

Lemma with_timermap_id st : with_timermap (timermap st) st = st.
Proof. now destruct st. Qed.

(** C2: for a non-zero [id], [SDL_RemoveTimer id] returns [true] exactly
    when the registry holds an entry with that id and the record of the
    first such entry is not canceled when the call is made. Whenever the
    registry holds an entry with the id, the first one is unlinked; if its
    record was not canceled the call sets [canceled] to 1 in that record,
    writes nothing else and returns [true]; if it was already canceled the
    call writes no record and returns [false] with "Timer not found". When
    no entry has the id the call returns [false] with "Timer not found"
    and changes nothing else. A call that returns [false] changes no
    record. For [id = 0] it returns [false] with the invalid-parameter
    error for "id" and leaves the registry, the records and every list as
    they were. *)
Theorem C2_remove_timer (id : Z) (st : State) :
  let r := SDL_RemoveTimer id st in
  let r0 := SDL_RemoveTimer 0 st in
  (fst r = true <->
   id <> 0 /\
   exists l1 entry l2, first_with_id id (timermap st) l1 entry l2 /\
     canceled (heap st !!! timer entry) = 0) /\
  (forall l1 entry l2,
     id <> 0 -> first_with_id id (timermap st) l1 entry l2 ->
     timermap (snd r) = l1 ++ l2 /\
     (canceled (heap st !!! timer entry) = 0 ->
      fst r = true /\
      heap (snd r) = <[timer entry := set_canceled 1 (heap st !!! timer entry)]> (heap st) /\
      canceled (heap (snd r) !!! timer entry) = 1 /\
      error (snd r) = error st) /\
     (canceled (heap st !!! timer entry) <> 0 ->
      fst r = false /\ heap (snd r) = heap st /\
      error (snd r) = Some (Message "Timer not found"))) /\
  (id <> 0 -> Forall (fun e => entry_timerID e <> id) (timermap st) ->
   r = (false, with_error (Some (Message "Timer not found")) st)) /\
  (fst r = false -> heap (snd r) = heap st) /\
  r0 = (false, with_error (Some (InvalidParam "id")) st) /\
  fst r0 = false /\ error (snd r0) = Some (InvalidParam "id") /\
  timermap (snd r0) = timermap st /\ heap (snd r0) = heap st /\
  pending (snd r0) = pending st /\ timers (snd r0) = timers st /\
  freelist (snd r0) = freelist st /\ worker_freelist (snd r0) = worker_freelist st.
Proof.
  intros r r0.
  assert (Hfound : forall l1 entry l2,
    id <> 0 -> first_with_id id (timermap st) l1 entry l2 ->
    r = (if canceled (heap st !!! timer entry) =? 0
         then (true, with_heap (<[timer entry := set_canceled 1 (heap st !!! timer entry)]>
                                  (heap st)) (with_timermap (l1 ++ l2) st))
         else (false, with_error (Some (Message "Timer not found"))
                        (with_timermap (l1 ++ l2) st)))).
  { intros l1 entry l2 Hid Hf. subst r. unfold SDL_RemoveTimer.
    apply Z.eqb_neq in Hid. rewrite Hid, (unlink_first _ _ _ _ _ Hf).
    cbn [heap with_timermap]. now destruct (canceled (heap st !!! timer entry) =? 0). }
  assert (Hnone : id <> 0 -> Forall (fun e => entry_timerID e <> id) (timermap st) ->
    r = (false, with_error (Some (Message "Timer not found")) st)).
  { intros Hid Hl. subst r. unfold SDL_RemoveTimer.
    apply Z.eqb_neq in Hid. rewrite Hid, (unlink_none _ _ Hl).
    cbn [SDL_SetError]. now rewrite with_timermap_id. }
  assert (H0 : id = 0 -> r = (false, with_error (Some (InvalidParam "id")) st)).
  { intros ->. reflexivity. }
  pose proof (unlink_found id (timermap st)) as Hu.
  split; [| split; [| split; [exact Hnone | split; [| subst r0; cbn; repeat split]]]].
  - split.
    + intros Ht. destruct (Z.eq_dec id 0) as [E | Hid];
        [rewrite (H0 E) in Ht; discriminate |].
      split; [exact Hid |].
      destruct (unlink id (timermap st)) as [[entry |] rest].
      * destruct Hu as (l1 & l2 & Hf & _). exists l1, entry, l2. split; [exact Hf |].
        rewrite (Hfound _ _ _ Hid Hf) in Ht.
        destruct (Z.eqb_spec (canceled (heap st !!! timer entry)) 0); [assumption |].
        discriminate.
      * destruct Hu as [_ Hl]. rewrite (Hnone Hid Hl) in Ht. discriminate.
    + intros (Hid & l1 & entry & l2 & Hf & Hc).
      rewrite (Hfound _ _ _ Hid Hf), Hc. reflexivity.
  - intros l1 entry l2 Hid Hf. rewrite (Hfound _ _ _ Hid Hf).
    split; [now destruct (canceled (heap st !!! timer entry) =? 0) |].
    split.
    + intros Hc. rewrite Hc. cbn. rewrite lookup_total_insert_eq. repeat split.
    + intros Hc. apply Z.eqb_neq in Hc. rewrite Hc. repeat split.
  - intros Hf. destruct (Z.eq_dec id 0) as [E | Hid]; [now rewrite (H0 E) |].
    destruct (unlink id (timermap st)) as [[entry |] rest].
    + destruct Hu as (l1 & l2 & Hfw & _). rewrite (Hfound _ _ _ Hid Hfw) in Hf |- *.
      destruct (canceled (heap st !!! timer entry) =? 0); [discriminate | reflexivity].
    + destruct Hu as [_ Hl]. now rewrite (Hnone Hid Hl).
Qed.

(** *** Firing a timer *)

Lemma SDL_MS_TO_NS_u32 r : SDL_MS_TO_NS (wrap32 r) = wrap32 r * SDL_NS_PER_MS.
Proof.
  unfold SDL_MS_TO_NS.
  assert (0 <= wrap32 r <= SDL_MAX_UINT32) as Hr.
  { unfold wrap32, SDL_MAX_UINT32. pose proof (Z.mod_pos_bound r 4294967296). lia. }
  unfold SDL_MAX_UINT32, SDL_NS_PER_MS in *.
  rewrite (wrap64_small (wrap32 r)) by (unfold SDL_MAX_UINT64; lia).
  apply wrap64_small. unfold SDL_MAX_UINT64. lia.
Qed.

Lemma next_interval_range c a : 0 <= fst (next_interval c a) <= SDL_MAX_UINT64.
Proof.
  unfold next_interval.
  destruct (negb (canceled c =? 0)); [cbn; unfold SDL_MAX_UINT64; lia |].
  destruct (negb (callback_ms c =? 0)).
  - destruct (invoke_ms _ _ _ _ _) as [r a']. cbn. apply wrap64_range.
  - destruct (invoke_ns _ _ _ _ _) as [r a']. cbn. apply wrap64_range.
Qed.

Lemma insert_timer_elem h t l : t ∈ insert_timer h t l.
Proof.
  induction l as [| c l IH]; simpl; [set_solver |].
  destruct (sched h t <? sched h c); set_solver.
Qed.

(** C4, as the code has it: when the worker handles the head [current] of
    its list at the sampled [tick] and the record is not canceled, the
    callback is invoked (the millisecond one if set, its result converted
    to nanoseconds) giving an interval [i] in nanoseconds. If [i] is
    positive the record gets [interval = i] and [scheduled] the Uint64
    sum of [tick] and [i], which is [tick + i] exactly when that fits 64
    bits, stays not canceled and is put back into the list by
    [SDL_AddTimerInternal], the local freelist being unchanged. If [i] is
    0 the record is marked canceled and appended to the local freelist,
    and the list is left without it. *)
Theorem C4_dispatch_reschedules (tick : Z) (current : addr) (rest : list addr)
    (st : State) :
  0 <= tick ->
  canceled (heap st !!! current) = 0 ->
  let c := heap st !!! current in
  let i := fst (next_interval c (app_state st)) in
  let st' := dispatch tick current rest st in
  let c' := heap st' !!! current in
  i = (if callback_ms c =? 0
       then wrap64 (fst (invoke_ns (callback_ns c) (userdata c) (timerID c)
                           (interval c) (app_state st)))
       else wrap32 (fst (invoke_ms (callback_ms c) (userdata c) (timerID c)
                           (wrap32 (SDL_NS_TO_MS (interval c))) (app_state st)))
            * SDL_NS_PER_MS) /\
  (0 < i ->
   interval c' = i /\ scheduled c' = wrap64 (tick + i) /\
   (tick + i <= SDL_MAX_UINT64 -> scheduled c' = tick + i) /\
   canceled c' = 0 /\
   timers st' = insert_timer (heap st') current rest /\ current ∈ timers st' /\
   worker_freelist st' = worker_freelist st) /\
  (i = 0 ->
   canceled c' = 1 /\ worker_freelist st' = worker_freelist st ++ [current] /\
   timers st' = rest) /\
  (forall fuel, timers st = current :: rest -> sched (heap st) current <= tick ->
   dispatch_all (S fuel) tick st = dispatch_all fuel tick st').
Proof.
  intros Htick Hc c i st' c'.
  pose proof (next_interval_range c (app_state st)) as Hi. fold i in Hi.
  split; [| split; [| split]].
  - subst i. unfold next_interval. fold c in Hc. rewrite Hc. cbn [Z.eqb negb].
    destruct (callback_ms c =? 0); cbn [negb].
    + destruct (invoke_ns _ _ _ _ _) as [r a']. reflexivity.
    + destruct (invoke_ms _ _ _ _ _) as [r a']. cbn [fst]. apply SDL_MS_TO_NS_u32.
  - intros Hpos. subst c' st'. unfold dispatch. cbn [heap with_timers app_state].
    fold c. destruct (next_interval c (app_state st)) as [i' a'] eqn:E.
    cbn [fst] in i. subst i. apply Z.ltb_lt in Hpos. rewrite Hpos.
    cbn [SDL_AddTimerInternal heap with_heap with_timers with_app_state timers
         worker_freelist].
    rewrite lookup_total_insert_eq. cbn [interval scheduled canceled reschedule].
    repeat split; try assumption.
    + intros Hfit. apply wrap64_small. lia.
    + apply insert_timer_elem.
  - intros H0. subst c' st'. unfold dispatch. cbn [heap with_timers app_state].
    fold c. destruct (next_interval c (app_state st)) as [i' a'] eqn:E.
    cbn [fst] in i. subst i. subst i'. cbn [Z.ltb Z.compare].
    cbn [heap with_heap with_timers with_app_state timers worker_freelist
         with_worker_freelist].
    rewrite lookup_total_insert_eq. repeat split.
  - intros fuel Ht Hdue. cbn [dispatch_all]. rewrite Ht.
    apply Z.ltb_ge in Hdue. rewrite Hdue. reflexivity.
Qed.

(** *** The sorted list *)

(** Sorted by non-decreasing [scheduled]. *)
Definition timers_sorted (h : gmap addr SDL_Timer) (l : list addr) : Prop :=
  StronglySorted (fun a b => sched h a <= sched h b) l.

Lemma insert_timer_perm h t l : insert_timer h t l ≡ₚ t :: l.
Proof.
  induction l as [| c l IH]; simpl; [reflexivity |].
  destruct (sched h t <? sched h c); [reflexivity |].
  rewrite IH. apply perm_swap.
Qed.

Lemma insert_timer_sorted h t l :
  timers_sorted h l -> timers_sorted h (insert_timer h t l).
Proof.
  unfold timers_sorted.
  induction l as [| c l IH]; intros Hs; simpl.
  - repeat constructor.
  - apply StronglySorted_inv in Hs as [Hl Hc].
    destruct (Z.ltb_spec (sched h t) (sched h c)) as [Hlt | Hge].
    + constructor; [constructor; assumption |].
      constructor; [lia |]. eapply Forall_impl; [exact Hc |]. simpl. intros x Hx. lia.
    + constructor; [apply IH; exact Hl |].
      rewrite insert_timer_perm. constructor; [lia | exact Hc].
Qed.

(** Where [SDL_AddTimerInternal] puts the timer: after every entry
    scheduled no later than it, before every entry scheduled later. *)
Lemma insert_timer_split h t l :
  timers_sorted h l ->
  exists l1 l2, l = l1 ++ l2 /\ insert_timer h t l = l1 ++ t :: l2 /\
    Forall (fun a => sched h a <= sched h t) l1 /\
    Forall (fun a => sched h t < sched h a) l2.
Proof.
  unfold timers_sorted.
  induction l as [| c l IH]; intros Hs; simpl.
  - exists [], []. repeat split; constructor.
  - apply StronglySorted_inv in Hs as [Hl Hc].
    destruct (Z.ltb_spec (sched h t) (sched h c)) as [Hlt | Hge].
    + exists [], (c :: l). repeat split; [constructor |].
      constructor; [exact Hlt |].
      eapply Forall_impl; [exact Hc |]. simpl. intros x Hx. lia.
    + destruct (IH Hl) as (l1 & l2 & E1 & E2 & F1 & F2).
      exists (c :: l1), l2. rewrite E2. repeat split.
      * now rewrite E1.
      * constructor; [lia | exact F1].
      * exact F2.
Qed.

Lemma timers_sorted_agree h h' l :
  (forall a, a ∈ l -> sched h' a = sched h a) ->
  timers_sorted h l -> timers_sorted h' l.
Proof.
  unfold timers_sorted. induction l as [| c l IH]; intros Ha Hs; [constructor |].
  apply StronglySorted_inv in Hs as [Hl Hc].
  constructor.
  - apply IH; [| exact Hl]. intros a Hin. apply Ha. now constructor.
  - rewrite Forall_forall in *. intros x Hx.
    rewrite (Ha c) by constructor. rewrite (Ha x) by (now constructor).
    apply Hc. exact Hx.
Qed.

Lemma timers_sorted_tail h c l : timers_sorted h (c :: l) -> timers_sorted h l.
Proof. intros Hs. now apply StronglySorted_inv in Hs as [Hl _]. Qed.

(** *** The invariant of the queue *)

(** Every record the queue holds, list by list. *)
Definition queue (st : State) : list addr :=
  pending st ++ timers st ++ freelist st ++ worker_freelist st.

(** No record is in two lists or twice in one, every record was handed
    out by [SDL_malloc], and the worker's list is sorted. *)
Definition queue_ok (st : State) : Prop :=
  NoDup (queue st) /\
  Forall (fun a => (a < brk st)%nat) (queue st) /\
  timers_sorted (heap st) (timers st).

Lemma queue_ok_sub st st' :
  queue st' `sublist_of` queue st ->
  (brk st <= brk st')%nat ->
  timers_sorted (heap st') (timers st') ->
  queue_ok st -> queue_ok st'.
Proof.
  intros Hsub Hbrk Hs (Hn & Hf & _). split; [| split].
  - eapply sublist_NoDup; eassumption.
  - rewrite Forall_forall in *. intros a Ha.
    apply sublist_subseteq in Hsub. specialize (Hf a (Hsub a Ha)). lia.
  - exact Hs.
Qed.

Lemma queue_ok_perm st st' :
  queue st' ≡ₚ queue st ->
  (brk st <= brk st')%nat ->
  timers_sorted (heap st') (timers st') ->
  queue_ok st -> queue_ok st'.
Proof.
  intros Hp Hbrk Hs (Hn & Hf & _). split; [| split].
  - now rewrite Hp.
  - rewrite Hp. eapply Forall_impl; [exact Hf |]. simpl. intros. lia.
  - exact Hs.
Qed.

(** Changes to the other fields do not matter. *)
Lemma queue_ok_same st st' :
  pending st' = pending st -> timers st' = timers st ->
  freelist st' = freelist st -> worker_freelist st' = worker_freelist st ->
  brk st' = brk st -> heap st' = heap st ->
  queue_ok st -> queue_ok st'.
Proof.
  intros E1 E2 E3 E4 E5 E6 H. apply (queue_ok_perm st).
  - unfold queue. now rewrite E1, E2, E3, E4.
  - lia.
  - rewrite E6, E2. apply H.
  - exact H.
Qed.

Lemma with_timers_id st : with_timers (timers st) st = st.
Proof. now destruct st. Qed.

Lemma merge_timers p : forall st, merge p st = with_timers (timers (merge p st)) st.
Proof.
  induction p as [| c p IH]; intros st; simpl.
  - symmetry. apply with_timers_id.
  - rewrite IH at 1. reflexivity.
Qed.

Lemma merge_perm p : forall st, timers (merge p st) ≡ₚ p ++ timers st.
Proof.
  induction p as [| c p IH]; intros st; simpl; [reflexivity |].
  rewrite IH. cbn [SDL_AddTimerInternal timers with_timers].
  rewrite insert_timer_perm. symmetry. apply Permutation_middle.
Qed.

Lemma merge_sorted p : forall st,
  timers_sorted (heap st) (timers st) ->
  timers_sorted (heap st) (timers (merge p st)).
Proof.
  induction p as [| c p IH]; intros st Hs; simpl; [exact Hs |].
  apply (IH (SDL_AddTimerInternal c st)). cbn. now apply insert_timer_sorted.
Qed.

Lemma intake_fields st :
  fst (intake st) = pending st /\
  pending (snd (intake st)) = [] /\
  timers (snd (intake st)) = timers st /\
  freelist (snd (intake st)) = worker_freelist st ++ freelist st /\
  worker_freelist (snd (intake st)) = worker_freelist st /\
  heap (snd (intake st)) = heap st /\ brk (snd (intake st)) = brk st /\
  error (snd (intake st)) = error st.
Proof.
  unfold intake. cbn. destruct (worker_freelist st) eqn:E; cbn; rewrite ?E; repeat split.
Qed.

Lemma maintenance_fields st :
  pending (maintenance st) = [] /\
  timers (maintenance st) = timers (merge (pending st) (snd (intake st))) /\
  freelist (maintenance st) = worker_freelist st ++ freelist st /\
  worker_freelist (maintenance st) = [] /\
  heap (maintenance st) = heap st /\ brk (maintenance st) = brk st /\
  error (maintenance st) = error st.
Proof.
  destruct (intake_fields st) as (E0 & E1 & E2 & E3 & E4 & E5 & E6 & E7).
  unfold maintenance. destruct (intake st) as [p st1]. cbn [fst snd] in *. subst p.
  rewrite (merge_timers (pending st) st1). cbn. repeat split; assumption.
Qed.

(** The maintenance rewrites the four lists and nothing else. *)
Lemma maintenance_shape st :
  exists T F, maintenance st
    = with_worker_freelist [] (with_timers T (with_freelist F (with_pending [] st))).
Proof.
  unfold maintenance, intake.
  match goal with |- context [merge ?p ?s] => rewrite (merge_timers p s) end.
  destruct (worker_freelist (with_pending [] st)) as [| a l]; eexists _, _.
  - instantiate (1 := freelist st). destruct st; reflexivity.
  - reflexivity.
Qed.

Lemma maintenance_ok st : queue_ok st -> queue_ok (maintenance st).
Proof.
  intros H.
  destruct (maintenance_fields st) as (M1 & M2 & M3 & M4 & M5 & M6 & _).
  destruct (intake_fields st) as (_ & _ & I2 & _ & _ & I5 & _).
  apply (queue_ok_perm st); [| lia | | exact H].
  - unfold queue. rewrite M1, M2, M3, M4, merge_perm, I2, app_nil_r.
    rewrite <- !app_assoc. rewrite app_nil_l. apply Permutation_app_head, Permutation_app_head.
    apply Permutation_app_comm.
  - rewrite M5, M2, <- I5. apply merge_sorted. rewrite I5, I2. apply H.
Qed.

Lemma sched_set_canceled (h : gmap addr SDL_Timer) t v a :
  sched (<[t := set_canceled v (h !!! t)]> h) a = sched h a.
Proof.
  unfold sched. destruct (decide (t = a)) as [-> | Hne].
  - now rewrite lookup_total_insert_eq.
  - now rewrite lookup_total_insert_ne.
Qed.

Lemma sched_insert_ne (h : gmap addr SDL_Timer) t r a :
  a <> t -> sched (<[t := r]> h) a = sched h a.
Proof. intros Hne. unfold sched. now rewrite lookup_total_insert_ne. Qed.

Lemma queue_head_fresh st current rest :
  timers st = current :: rest -> NoDup (queue st) -> current ∉ rest.
Proof.
  unfold queue. intros -> Hn. apply NoDup_app in Hn as (_ & _ & Hn).
  apply NoDup_app in Hn as (Hn & _ & _). now apply NoDup_cons in Hn as [? _].
Qed.

Lemma queue_retire (p r f w : list addr) c :
  p ++ r ++ f ++ w ++ [c] ≡ₚ p ++ (c :: r) ++ f ++ w.
Proof.
  apply Permutation_app_head. rewrite !app_assoc.
  rewrite <- Permutation_cons_append. rewrite <- !app_assoc. reflexivity.
Qed.

Lemma dispatch_ok tick current rest st :
  timers st = current :: rest -> queue_ok st ->
  queue_ok (dispatch tick current rest st).
Proof.
  intros Ht H. pose proof H as (Hn & Hf & Hs).
  pose proof (queue_head_fresh st current rest Ht Hn) as Hfresh.
  rewrite Ht in Hs. apply timers_sorted_tail in Hs.
  unfold dispatch. cbn [heap with_timers app_state].
  destruct (next_interval (heap st !!! current) (app_state st)) as [i a].
  destruct (0 <? i).
  - apply (queue_ok_perm st); [| cbn; lia | | exact H].
    + unfold queue. cbn. rewrite insert_timer_perm, Ht. reflexivity.
    + cbn. apply insert_timer_sorted.
      apply (timers_sorted_agree (heap st)); [| exact Hs].
      intros x Hx. apply sched_insert_ne. intros ->. contradiction.
  - apply (queue_ok_perm st); [| cbn; lia | | exact H].
    + unfold queue. cbn. rewrite Ht. apply queue_retire.
    + cbn. apply (timers_sorted_agree (heap st)); [| exact Hs].
      intros x _. apply sched_set_canceled.
Qed.

Lemma dispatch_all_ok fuel tick : forall st d st',
  queue_ok st -> dispatch_all fuel tick st = Some (d, st') -> queue_ok st'.
Proof.
  induction fuel as [| n IH]; intros st d st' H E; simpl in E;
    destruct (timers st) as [| current rest] eqn:Ht;
    try (injection E as <- <-; exact H);
    destruct (tick <? sched (heap st) current);
    try (injection E as <- <-; exact H); try discriminate.
  eapply IH; [| exact E]. now apply dispatch_ok.
Qed.

Lemma SDL_TimerThread_turn_ok fuel st b st' :
  queue_ok st -> SDL_TimerThread_turn fuel st = Some (b, st') -> queue_ok st'.
Proof.
  intros H E. unfold SDL_TimerThread_turn in E.
  apply maintenance_ok in H.
  destruct (active (maintenance st) =? 0); [injection E as <- <-; exact H |].
  cbn [SDL_GetTicksNS] in E.
  set (st1 := with_reads _ (maintenance st)) in E.
  assert (H1 : queue_ok st1) by (revert H; apply queue_ok_same; reflexivity).
  destruct (dispatch_all fuel _ st1) as [[d st2] |] eqn:D; [| discriminate].
  cbn in E. injection E as <- <-.
  apply (dispatch_all_ok _ _ _ _ _ H1) in D.
  revert D. apply queue_ok_same; reflexivity.
Qed.

Lemma SDL_RemoveTimer_fields id st :
  let st' := snd (SDL_RemoveTimer id st) in
  pending st' = pending st /\ timers st' = timers st /\
  freelist st' = freelist st /\ worker_freelist st' = worker_freelist st /\
  brk st' = brk st /\ mallocs st' = mallocs st /\
  (forall a, sched (heap st') a = sched (heap st) a) /\
  (error st' = error st \/ error st' = Some (InvalidParam "id") \/
   error st' = Some (Message "Timer not found")).
Proof.
  unfold SDL_RemoveTimer. destruct (id =? 0); [cbn; tauto |].
  destruct (unlink id (timermap st)) as [[entry |] rest]; cbn [heap with_timermap].
  - destruct (canceled (heap st !!! timer entry) =? 0); cbn; repeat split; auto.
    intros a. apply sched_set_canceled.
  - cbn. tauto.
Qed.

Lemma SDL_RemoveTimer_ok id st : queue_ok st -> queue_ok (snd (SDL_RemoveTimer id st)).
Proof.
  intros H. destruct (SDL_RemoveTimer_fields id st) as (E1 & E2 & E3 & E4 & E5 & _ & Hs & _).
  apply (queue_ok_perm st); [| lia | | exact H].
  - unfold queue. now rewrite E1, E2, E3, E4.
  - rewrite E2. apply (timers_sorted_agree (heap st)); [| apply H].
    intros a _. apply Hs.
Qed.

Lemma queue_outer_sublist (p t f w : list addr) : p ++ [] ++ [] ++ w `sublist_of` p ++ t ++ f ++ w.
Proof.
  apply sublist_app; [reflexivity |]. cbn [Datatypes.app].
  apply sublist_inserts_l, sublist_inserts_l. reflexivity.
Qed.


Lemma SDL_QuitTimers_ok st : queue_ok st -> queue_ok (SDL_QuitTimers st).
Proof.
  intros H. unfold SDL_QuitTimers. destruct (init st); [| exact H]. cbn [negb].
  set (st2 := if thread (with_active 0 st) then _ else _).
  assert (H2 : queue_ok st2).
  { subst st2. destruct (thread (with_active 0 st)).
    - assert (H1 : queue_ok (maintenance (SDL_SignalSemaphore (with_active 0 st)))).
      { apply maintenance_ok. revert H. apply queue_ok_same; reflexivity. }
      revert H1. apply queue_ok_same; reflexivity.
    - revert H. apply queue_ok_same; reflexivity. }
  clearbody st2. apply (queue_ok_sub st2); [| cbn; lia | constructor | exact H2].
  unfold queue. cbn. apply queue_outer_sublist.
Qed.


Lemma SDL_InitTimers_ok st : queue_ok st -> queue_ok (snd (SDL_InitTimers st)).
Proof.
  intros H. unfold SDL_InitTimers. destruct (init st); [exact H |].
  assert (Hq : forall s, queue_ok s -> queue_ok (SDL_QuitTimers (with_init true s))).
  { intros s Hs. apply SDL_QuitTimers_ok. revert Hs. apply queue_ok_same; reflexivity. }
  destruct mutex_ok; cbn [negb snd];
    [| apply Hq; revert H; apply queue_ok_same; reflexivity].
  destruct sem_ok; cbn [negb snd];
    [| apply Hq; revert H; apply queue_ok_same; reflexivity].
  destruct thread_ok; cbn [negb snd];
    [| apply Hq]; revert H; apply queue_ok_same; reflexivity.
Qed.

(** The record [SDL_CreateTimer] holds between acquiring and publishing
    it is in none of the lists. *)
Definition holding (t : addr) (st : State) : Prop :=
  NoDup (t :: queue st) /\
  Forall (fun a => (a < brk st)%nat) (t :: queue st) /\
  timers_sorted (heap st) (timers st).

Lemma queue_take (p r f w : list addr) t :
  p ++ r ++ (t :: f) ++ w ≡ₚ t :: p ++ r ++ f ++ w.
Proof.
  cbn [Datatypes.app]. rewrite (app_assoc p r), <- Permutation_middle, <- app_assoc.
  reflexivity.
Qed.

Lemma acquire_timer_ok st :
  queue_ok st ->
  match acquire_timer st with
  | (Some t, st') => holding t st'
  | (None, st') => queue_ok st'
  end.
Proof.
  intros (Hn & Hf & Hs). unfold acquire_timer.
  destruct (freelist st) as [| t f] eqn:Ef; cbn [head tail].
  - unfold SDL_malloc_timer. cbn [mallocs with_freelist brk].
    destruct (malloc_ok (mallocs st)).
    + unfold holding, queue in *. cbn. rewrite Ef in *. split; [| split].
      * constructor; [| exact Hn]. intros Hin.
        rewrite Forall_forall in Hf. specialize (Hf _ Hin). lia.
      * constructor; [lia |]. eapply Forall_impl; [exact Hf |]. simpl. lia.
      * exact Hs.
    + unfold queue_ok, queue in *. cbn. rewrite Ef in *. auto.
  - set (st1 := with_freelist f st).
    destruct (SDL_RemoveTimer_fields (timerID (heap st1 !!! t)) st1)
      as (E1 & E2 & E3 & E4 & E5 & _ & Hsch & _).
    unfold holding, queue in *. rewrite E1, E2, E3, E4, E5. cbn.
    rewrite Ef in *. split; [| split].
    + now rewrite queue_take in Hn.
    + now rewrite queue_take in Hf.
    + apply (timers_sorted_agree (heap st)); [| exact Hs].
      intros a _. apply Hsch.
Qed.


Lemma sched_delete_ne (h : gmap addr SDL_Timer) t a :
  a <> t -> sched (delete t h) a = sched h a.
Proof. intros Hne. unfold sched. now rewrite lookup_total_delete_ne. Qed.

Lemma holding_fresh t st : holding t st -> t ∉ timers st.
Proof.
  intros (Hn & _ & _) Hin. apply NoDup_cons in Hn as [Hn _]. apply Hn.
  unfold queue. set_solver.
Qed.

Lemma SDL_CreateTimer_ok interval cb_ms cb_ns ud st :
  queue_ok st -> queue_ok (snd (SDL_CreateTimer interval cb_ms cb_ns ud st)).
Proof.
  intros H. unfold SDL_CreateTimer.
  destruct ((cb_ms =? 0) && (cb_ns =? 0)).
  { cbn [snd SDL_InvalidParamError]. revert H. apply queue_ok_same; reflexivity. }
  unfold SDL_CheckInitTimers.
  pose proof (SDL_InitTimers_ok st H) as H1.
  destruct (SDL_InitTimers st) as [ok st1]. cbn [snd] in H1.
  destruct ok; cbn [negb snd]; [| exact H1].
  pose proof (acquire_timer_ok st1 H1) as H2.
  destruct (acquire_timer st1) as [[t |] st2]; cbn [snd]; [| exact H2].
  pose proof (holding_fresh t st2 H2) as Hfresh.
  destruct H2 as (Hn & Hf & Hs).
  cbn [SDL_GetNextObjectID SDL_GetTicksNS SDL_malloc_entry].
  cbn [mallocs with_heap with_reads with_last_object_id heap reads].
  destruct (malloc_ok (mallocs st2)); cbn [negb snd].
  - split; [| split].
    + unfold queue. cbn. exact Hn.
    + unfold queue. cbn. exact Hf.
    + cbn. apply (timers_sorted_agree (heap st2)); [| exact Hs].
      intros a Ha. apply sched_insert_ne. intros ->. contradiction.
  - split; [| split].
    + unfold queue. cbn. now apply NoDup_cons in Hn as [_ ?].
    + unfold queue. cbn. now apply Forall_cons in Hf as [_ ?].
    + cbn. apply (timers_sorted_agree (heap st2)); [| exact Hs].
      intros a Ha. rewrite sched_delete_ne, sched_insert_ne;
        try reflexivity; intros ->; contradiction.
Qed.


(** *** The states the timer subsystem can be in *)

(** Before anything is initialised. *)
Definition boot (a : App) : State :=
  mkState false false [] false None [] [] 0 [] [] ∅ 0%nat 0%nat 0 0%nat [] None a.

(** What can happen: a thread creates or removes a timer, the subsystem
    is initialised or shut down, the worker takes a turn. *)
Inductive step (st : State) : State -> Prop :=
| step_create interval cb_ms cb_ns ud :
    step st (snd (SDL_CreateTimer interval cb_ms cb_ns ud st))
| step_remove id :
    step st (snd (SDL_RemoveTimer id st))
| step_init :
    step st (snd (SDL_InitTimers st))
| step_quit :
    step st (SDL_QuitTimers st)
| step_worker fuel again st' :
    SDL_TimerThread_turn fuel st = Some (again, st') -> step st st'.

Inductive reachable : State -> Prop :=
| reach_boot a : reachable (boot a)
| reach_step st st' : reachable st -> step st st' -> reachable st'.

Lemma step_ok st st' : step st st' -> queue_ok st -> queue_ok st'.
Proof.
  intros [i cm cn ud | id | | | fuel again st'' E] H.
  - now apply SDL_CreateTimer_ok.
  - now apply SDL_RemoveTimer_ok.
  - now apply SDL_InitTimers_ok.
  - now apply SDL_QuitTimers_ok.
  - eapply SDL_TimerThread_turn_ok; eassumption.
Qed.

Lemma reachable_ok st : reachable st -> queue_ok st.
Proof.
  induction 1 as [a | st st' _ IH Hstep].
  - repeat split; constructor.
  - eapply step_ok; eassumption.
Qed.

(** C3: in every state the subsystem can reach the worker's list [timers]
    is sorted by non-decreasing [scheduled]; and [SDL_AddTimerInternal]
    inserts a record into a sorted list after all the entries scheduled no
    later than it (so after the earlier entries with the same deadline)
    and before all the entries scheduled later, which leaves the list
    sorted. *)
Theorem C3_timers_sorted (st : State) (h : gmap addr SDL_Timer) (t : addr)
    (l : list addr) :
  reachable st ->
  timers_sorted h l ->
  timers_sorted (heap st) (timers st) /\
  timers (SDL_AddTimerInternal t st) = insert_timer (heap st) t (timers st) /\
  timers_sorted (heap st) (timers (SDL_AddTimerInternal t st)) /\
  timers_sorted h (insert_timer h t l) /\
  exists l1 l2, l = l1 ++ l2 /\ insert_timer h t l = l1 ++ t :: l2 /\
    Forall (fun a => sched h a <= sched h t) l1 /\
    Forall (fun a => sched h t < sched h a) l2 /\
    (forall a, a ∈ l -> sched h a <= sched h t -> a ∈ l1).
Proof.
  intros Hr Hl. destruct (reachable_ok st Hr) as (_ & _ & Hs).
  split; [exact Hs |]. split; [reflexivity |].
  split; [now apply insert_timer_sorted |].
  split; [now apply insert_timer_sorted |].
  destruct (insert_timer_split h t l Hl) as (l1 & l2 & E1 & E2 & F1 & F2).
  exists l1, l2. repeat split; try assumption.
  intros a Ha Hle. subst l. apply elem_of_app in Ha as [Ha | Ha]; [exact Ha |].
  rewrite Forall_forall in F2. specialize (F2 a Ha). lia.
Qed.

(** *** Initialisation and shutdown, as a pair *)

(** A state in which the subsystem is down: not initialised, no worker. *)
Definition down (st : State) : Prop := init st = false /\ thread st = false.

Lemma SDL_QuitTimers_no_thread st :
  init st = true -> thread st = false ->
  let st' := SDL_QuitTimers st in
  down st' /\ timermap_lock st' = false /\ sem st' = None /\
  timermap st' = [] /\ timers st' = [] /\ freelist st' = [] /\
  pending st' = pending st.
Proof.
  intros Hi Ht. unfold SDL_QuitTimers, down. rewrite Hi. cbn [negb].
  change (thread (with_active 0 st)) with (thread st). rewrite Ht.
  cbn. repeat split. exact Ht.
Qed.

(** X5: from a state in which the subsystem is down, [SDL_InitTimers]
    succeeds exactly when the mutex, the semaphore and the thread can all
    be created. On success the subsystem is up with an empty semaphore and
    the lists untouched, and a second call changes nothing; on failure
    everything built so far is torn down again: the subsystem is down, with
    no mutex, no semaphore, no worker and an empty registry. *)
Theorem init_timers_all_or_nothing (st : State) :
  down st ->
  let r := SDL_InitTimers st in
  fst r = mutex_ok && sem_ok && thread_ok /\
  (fst r = true ->
   init (snd r) = true /\ thread (snd r) = true /\ timermap_lock (snd r) = true /\
   sem (snd r) = Some 0%nat /\ active (snd r) = 1 /\
   pending (snd r) = pending st /\ timers (snd r) = timers st /\
   freelist (snd r) = freelist st /\ timermap (snd r) = timermap st /\
   heap (snd r) = heap st /\
   SDL_InitTimers (snd r) = (true, snd r)) /\
  (fst r = false ->
   down (snd r) /\ timermap_lock (snd r) = false /\ sem (snd r) = None /\
   timermap (snd r) = [] /\ timers (snd r) = [] /\ freelist (snd r) = [] /\
   pending (snd r) = pending st).
Proof.
  intros [Hi Ht] r. subst r. unfold SDL_InitTimers. rewrite Hi.
  assert (Hfail : forall s, thread s = false -> pending s = pending st ->
            let s' := SDL_QuitTimers (with_init true s) in
            down s' /\ timermap_lock s' = false /\ sem s' = None /\
            timermap s' = [] /\ timers s' = [] /\ freelist s' = [] /\
            pending s' = pending st).
  { intros s Hs Hp. rewrite <- Hp.
    exact (SDL_QuitTimers_no_thread (with_init true s) eq_refl Hs). }
  destruct mutex_ok; cbn [negb andb fst snd].
  2: { split; [reflexivity |]. split; [discriminate |]. intros _.
       now apply Hfail. }
  destruct sem_ok; cbn [negb andb fst snd].
  2: { split; [reflexivity |]. split; [discriminate |]. intros _.
       now apply Hfail. }
  destruct thread_ok; cbn [negb andb fst snd].
  2: { split; [reflexivity |]. split; [discriminate |]. intros _.
       now apply Hfail. }
  split; [reflexivity |]. split; [| discriminate]. intros _. cbn. repeat split.
Qed.

Lemma free_timers_lookup l : forall (h : gmap addr SDL_Timer) a,
  free_timers l h !! a = if decide (a ∈ l) then None else h !! a.
Proof.
  induction l as [| b l IH]; intros h a; simpl.
  - destruct (decide (a ∈ [])) as [Hin | _]; [| reflexivity]. now apply elem_of_nil in Hin.
  - rewrite IH. destruct (decide (a ∈ l)) as [Hl | Hl].
    + destruct (decide (a ∈ b :: l)) as [_ | Hn]; [reflexivity |].
      exfalso. apply Hn. now constructor.
    + destruct (decide (a = b)) as [-> | Hne].
      * rewrite lookup_delete_eq.
        destruct (decide (b ∈ b :: l)) as [_ | Hn]; [reflexivity |].
        exfalso. apply Hn. constructor.
      * rewrite lookup_delete_ne by congruence.
        destruct (decide (a ∈ b :: l)) as [Hin | _]; [| reflexivity].
        apply elem_of_cons in Hin as [-> | Hin]; contradiction.
Qed.

Lemma SDL_QuitTimers_down st : init st = false -> SDL_QuitTimers st = st.
Proof. intros Hi. unfold SDL_QuitTimers. now rewrite Hi. Qed.

Lemma SDL_QuitTimers_init st : init (SDL_QuitTimers st) = false.
Proof.
  unfold SDL_QuitTimers. destruct (init st) eqn:Hi; [reflexivity | exact Hi].
Qed.

(** X6: [SDL_QuitTimers] on a running subsystem lets the worker take in
    what is pending, then frees every timer record of every list and
    empties the registry: afterwards the subsystem is down, all four lists
    and the registry are empty, no record that was in a list is allocated
    any more, every other record is untouched, and a second call changes
    nothing. *)
Theorem quit_timers_frees_everything (st : State) :
  init st = true -> thread st = true ->
  let st' := SDL_QuitTimers st in
  down st' /\ active st' = 0 /\ sem st' = None /\ timermap_lock st' = false /\
  pending st' = [] /\ timers st' = [] /\ freelist st' = [] /\
  worker_freelist st' = [] /\ timermap st' = [] /\
  (forall a, a ∈ queue st -> heap st' !! a = None) /\
  (forall a, a ∉ queue st -> heap st' !! a = heap st !! a) /\
  SDL_QuitTimers st' = st'.
Proof.
  intros Hi Ht st'. subst st'. unfold SDL_QuitTimers at 1 2 3 4 5 6 7 8 9 10 11.
  rewrite Hi. cbn [negb].
  change (thread (with_active 0 st)) with (thread st). rewrite Ht.
  set (st0 := SDL_SignalSemaphore (with_active 0 st)).
  destruct (maintenance_fields st0) as (M1 & M2 & M3 & M4 & M5 & _).
  destruct (intake_fields st0) as (_ & _ & I2 & _).
  assert (Hperm : timers (maintenance st0) ≡ₚ pending st ++ timers st).
  { rewrite M2, merge_perm, I2. reflexivity. }
  destruct (maintenance_shape st0) as (T & F & Hshape).
  assert (HT : T = timers (maintenance st0)) by (rewrite Hshape; reflexivity).
  assert (HF : F = freelist (maintenance st0)) by (rewrite Hshape; reflexivity).
  rewrite Hshape. cbn.
  assert (Hin : forall a, a ∈ queue st <-> a ∈ T \/ a ∈ F).
  { intros a. rewrite HT, HF, Hperm, M3. unfold queue. cbn.
    rewrite !elem_of_app. tauto. }
  unfold down. cbn. repeat split.
  - intros a Ha. apply Hin in Ha. rewrite !free_timers_lookup.
    destruct (decide (a ∈ F)); [reflexivity |].
    destruct (decide (a ∈ T)); [reflexivity | tauto].
  - intros a Ha. rewrite !free_timers_lookup.
    destruct (decide (a ∈ F)) as [HinF | _]; [exfalso; apply Ha, Hin; tauto |].
    destruct (decide (a ∈ T)) as [HinT | _]; [exfalso; apply Ha, Hin; tauto |].
    reflexivity.
  - apply SDL_QuitTimers_down, SDL_QuitTimers_init.
Qed.

(** *** Creating and removing, as a pair *)

Lemma SDL_GetNextObjectID_range st :
  0 < fst (SDL_GetNextObjectID st) <= SDL_MAX_UINT32.
Proof.
  unfold SDL_GetNextObjectID. cbn [fst].
  pose proof (Z.mod_pos_bound (last_object_id st + 1) 4294967296 eq_refl) as Hw.
  fold (wrap32 (last_object_id st + 1)) in Hw. unfold SDL_MAX_UINT32.
  destruct (Z.eqb_spec (wrap32 (last_object_id st + 1)) 0); lia.
Qed.

Lemma unlink_length id l : (length (snd (unlink id l)) <= length l)%nat.
Proof.
  induction l as [| e l IH]; simpl; [lia |].
  destruct (entry_timerID e =? id); simpl; [lia |].
  destruct (unlink id l) as [found rest]. simpl in *. lia.
Qed.

Lemma unlink_sublist id l : snd (unlink id l) `sublist_of` l.
Proof.
  induction l as [| e l IH]; simpl; [constructor |].
  destruct (entry_timerID e =? id); simpl; [now apply sublist_cons |].
  destruct (unlink id l) as [found rest]. simpl in *. now apply sublist_skip.
Qed.

Lemma with_error_id st : with_error (error st) st = st.
Proof. now destruct st. Qed.

(** [SDL_RemoveTimer] rewrites the registry, the records and the error,
    and nothing else. *)
Lemma SDL_RemoveTimer_shape id st :
  exists tm h e,
    snd (SDL_RemoveTimer id st) = with_error e (with_heap h (with_timermap tm st)) /\
    tm `sublist_of` timermap st.
Proof.
  unfold SDL_RemoveTimer. destruct (id =? 0).
  { exists (timermap st), (heap st), (Some (InvalidParam "id")).
    split; [now destruct st | reflexivity]. }
  pose proof (unlink_sublist id (timermap st)) as Hsub.
  destruct (unlink id (timermap st)) as [[entry |] rest]; cbn [snd] in Hsub;
    cbn [heap with_timermap].
  - destruct (canceled (heap st !!! timer entry) =? 0).
    + eexists rest, _, (error st). split; [| exact Hsub]. cbn [snd].
      now rewrite <- (with_error_id (with_heap _ _)) at 1.
    + eexists rest, (heap st), _. split; [| exact Hsub]. cbn. now destruct st.
  - eexists rest, (heap st), _. split; [| exact Hsub]. cbn. now destruct st.
Qed.

(** What [acquire_timer] leaves alone, and where its record comes from. *)
Lemma acquire_timer_fields st :
  let got := fst (acquire_timer st) in
  let st' := snd (acquire_timer st) in
  pending st' = pending st /\ timers st' = timers st /\
  worker_freelist st' = worker_freelist st /\ sem st' = sem st /\
  reads st' = reads st /\ init st' = init st /\ thread st' = thread st /\
  last_object_id st' = last_object_id st /\ app_state st' = app_state st /\
  timermap st' `sublist_of` timermap st /\
  match got with
  | Some t => freelist st = t :: freelist st' \/
              (freelist st = [] /\ freelist st' = [] /\ t = brk st)
  | None => freelist st = [] /\ freelist st' = []
  end.
Proof.
  unfold acquire_timer. destruct (freelist st) as [| t f] eqn:Ef; cbn [head tail].
  - unfold SDL_malloc_timer. destruct (malloc_ok _); cbn; repeat split; auto.
  - cbn [fst snd].
    match goal with |- context [SDL_RemoveTimer ?i ?s] =>
      destruct (SDL_RemoveTimer_shape i s) as (tm & h & e & -> & Hsub)
    end.
    cbn. repeat split; auto.
Qed.

(** The state after a successful [SDL_CreateTimer]. *)
Lemma SDL_CreateTimer_success (interval cb_ms cb_ns ud : Z) (st : State) :
  init st = true ->
  let r := SDL_CreateTimer interval cb_ms cb_ns ud st in
  fst r <> 0 ->
  exists t,
    pending (snd r) = t :: pending st /\
    head (timermap (snd r)) = Some (mkTimerMap (fst r) t) /\
    heap (snd r) !!! t
      = mkTimer (fst r) cb_ms cb_ns ud interval
          (wrap64 (wrap64 (clock (reads st)) + interval)) 0 /\
    sem (snd r) = S <$> sem st /\
    timers (snd r) = timers st /\
    (freelist st = t :: freelist (snd r) \/
     (freelist st = [] /\ freelist (snd r) = [] /\ t = brk st)).
Proof.
  intros Hi r. subst r. unfold SDL_CreateTimer.
  destruct ((cb_ms =? 0) && (cb_ns =? 0)).
  { cbn. intros H; now contradiction H. }
  unfold SDL_CheckInitTimers, SDL_InitTimers. rewrite Hi. cbn [negb].
  pose proof (acquire_timer_fields st) as Hacq. cbv zeta in Hacq.
  destruct (acquire_timer st) as [[t |] st2]; cbn [fst snd] in Hacq;
    destruct Hacq as (P & T & W & S' & R & _ & _ & _ & _ & Hsub & Hfrom).
  2: { cbn [fst snd]. intros H; now contradiction H. }
  unfold SDL_GetNextObjectID, SDL_GetTicksNS, SDL_malloc_entry.
  cbn [mallocs with_heap with_reads with_last_object_id heap reads fst].
  destruct (malloc_ok (mallocs st2)); cbn [negb fst snd].
  - intros _. exists t. cbn.
    rewrite lookup_total_insert_eq, P, T, S', R. repeat split. exact Hfrom.
  - intros H; now contradiction H.
Qed.

(** X7: on an initialised subsystem, a [SDL_CreateTimer] that returns a
    non-zero id has published exactly one timer: one record, taken from
    the head of the freelist if there is one and newly allocated
    otherwise, is put at the head of [pending], not canceled, holding the
    arguments and scheduled at the clock reading plus the interval; one
    entry with the returned id is put at the head of the registry; and the
    semaphore is posted once. A call that returns 0 has published nothing:
    [pending], the worker's list and the semaphore are as before, and the
    registry has not grown. *)
Theorem create_timer_publishes_once (interval cb_ms cb_ns ud : Z) (st : State) :
  init st = true ->
  let r := SDL_CreateTimer interval cb_ms cb_ns ud st in
  (fst r <> 0 ->
   exists t,
     pending (snd r) = t :: pending st /\
     head (timermap (snd r)) = Some (mkTimerMap (fst r) t) /\
     heap (snd r) !!! t
       = mkTimer (fst r) cb_ms cb_ns ud interval
           (wrap64 (wrap64 (clock (reads st)) + interval)) 0 /\
     sem (snd r) = S <$> sem st /\
     timers (snd r) = timers st /\
     (freelist st = t :: freelist (snd r) \/
      (freelist st = [] /\ freelist (snd r) = [] /\ t = brk st))) /\
  (fst r = 0 ->
   pending (snd r) = pending st /\ timers (snd r) = timers st /\
   sem (snd r) = sem st /\
   (length (timermap (snd r)) <= length (timermap st))%nat).
Proof.
  intros Hi r. split; [exact (SDL_CreateTimer_success interval cb_ms cb_ns ud st Hi) |].
  subst r. unfold SDL_CreateTimer.
  destruct ((cb_ms =? 0) && (cb_ns =? 0)).
  { cbn. intros _; repeat split; lia. }
  unfold SDL_CheckInitTimers, SDL_InitTimers. rewrite Hi. cbn [negb].
  pose proof (acquire_timer_fields st) as Hacq. cbv zeta in Hacq.
  destruct (acquire_timer st) as [[t |] st2]; cbn [fst snd] in Hacq;
    destruct Hacq as (P & T & W & S' & R & _ & _ & _ & _ & Hsub & Hfrom).
  2: { cbn [fst snd]. intros _. repeat split; try assumption.
       now apply sublist_length. }
  pose proof (SDL_GetNextObjectID_range st2) as Hid. revert Hid.
  unfold SDL_GetNextObjectID, SDL_GetTicksNS, SDL_malloc_entry.
  cbn [mallocs with_heap with_reads with_last_object_id heap reads fst].
  destruct (malloc_ok (mallocs st2)); cbn [negb fst snd].
  - intros Hid H. lia.
  - intros _ _. cbn. repeat split; try assumption. now apply sublist_length.
Qed.

(** *** Which callbacks [SDL_CreateTimer] accepts *)






(** X8: a timer that [SDL_CreateTimer] has just created can be removed:
    [SDL_RemoveTimer] with the returned id succeeds, unlinks the entry it
    put at the head of the registry and leaves the record canceled. *)
Theorem create_then_remove (interval cb_ms cb_ns ud : Z) (st : State) :
  init st = true ->
  let r := SDL_CreateTimer interval cb_ms cb_ns ud st in
  fst r <> 0 ->
  let r' := SDL_RemoveTimer (fst r) (snd r) in
  fst r' = true /\
  timermap (snd r') = tail (timermap (snd r)) /\
  exists t, pending (snd r') = t :: pending st /\ canceled (heap (snd r') !!! t) = 1.
Proof.
  intros Hi r Hr r'.
  destruct (SDL_CreateTimer_success interval cb_ms cb_ns ud st Hi Hr)
    as (t & P & Hm & Hh & _).
  subst r'. fold r in P, Hm, Hh. clearbody r. unfold SDL_RemoveTimer.
  destruct (Z.eqb_spec (fst r) 0) as [E | _]; [contradiction |].
  destruct (timermap (snd r)) as [| e tm] eqn:Etm; [discriminate |].
  cbn [head] in Hm. injection Hm as ->. cbn [unlink entry_timerID].
  rewrite Z.eqb_refl. cbn [timer heap with_timermap]. rewrite Hh. cbn [canceled Z.eqb].
  cbn. split; [reflexivity |]. split; [reflexivity |]. exists t.
  rewrite lookup_total_insert_eq. split; [exact P | reflexivity].
Qed.

(** X21: the first phase of a worker turn moves every pending timer into
    the sorted list and hands the retired records back. From a state
    whose timer list is sorted, after the maintenance at the top of the
    loop [pending] is empty, the timer list holds exactly the records
    that were pending or already listed and is sorted, the shared
    freelist is the worker's freelist followed by the old shared one, the
    worker's freelist is empty, and no record has been written. *)
Theorem worker_takes_pending (st : State) :
  timers_sorted (heap st) (timers st) ->
  let st' := maintenance st in
  pending st' = [] /\
  timers st' ≡ₚ pending st ++ timers st /\
  timers_sorted (heap st') (timers st') /\
  freelist st' = worker_freelist st ++ freelist st /\
  worker_freelist st' = [] /\
  heap st' = heap st /\
  queue st' ≡ₚ queue st.
Proof.
  intros Hs st'. subst st'.
  destruct (maintenance_fields st) as (P & T & F & W & Hh & _).
  destruct (intake_fields st) as (_ & _ & IT & _ & _ & IH & _).
  assert (Hp : timers (maintenance st) ≡ₚ pending st ++ timers st)
    by (rewrite T, merge_perm, IT; reflexivity).
  split; [exact P |]. split; [exact Hp |].
  split.
  { rewrite T, Hh, <- IH. apply merge_sorted. now rewrite IH, IT. }
  split; [exact F |]. split; [exact W |]. split; [exact Hh |].
  unfold queue. rewrite P, Hp, F, W, app_nil_r. cbn [Datatypes.app].
  rewrite <- !app_assoc. apply Permutation_app_head, Permutation_app_head.
  apply Permutation_app_comm.
Qed.

(** *** The dispatch loop *)




Lemma dispatch_queue tick current rest st :
  timers st = current :: rest ->
  queue (dispatch tick current rest st) ≡ₚ queue st.
Proof.
  intros Ht. unfold dispatch. cbn [heap with_timers app_state].
  destruct (next_interval (heap st !!! current) (app_state st)) as [i a].
  destruct (0 <? i).
  - unfold queue. cbn. rewrite insert_timer_perm, Ht. reflexivity.
  - unfold queue. cbn. rewrite Ht. apply queue_retire.
Qed.

(** What the body of the loop leaves alone. *)
Lemma dispatch_fields tick current rest st :
  let st' := dispatch tick current rest st in
  reads st' = reads st /\ waits st' = waits st /\ pending st' = pending st /\
  freelist st' = freelist st /\ timermap st' = timermap st /\
  sem st' = sem st /\ active st' = active st.
Proof.
  unfold dispatch. cbn [heap with_timers app_state].
  destruct (next_interval (heap st !!! current) (app_state st)) as [i a].
  destruct (0 <? i); cbn; repeat split.
Qed.


(** Where the loop stops. *)
Lemma dispatch_all_exit fuel tick : forall st d st',
  dispatch_all fuel tick st = Some (d, st') ->
  match timers st' with
  | [] => d = SDL_MAX_UINT64
  | c :: _ => tick < sched (heap st') c /\ d = wrap64 (sched (heap st') c - tick)
  end /\
  queue st' ≡ₚ queue st /\ reads st' = reads st /\ waits st' = waits st /\
  sem st' = sem st.
Proof.
  induction fuel as [| n IH]; intros st d st' E; simpl in E;
    destruct (timers st) as [| current rest] eqn:Ht.
  1, 3: injection E as <- <-; rewrite Ht; repeat split; reflexivity.
  - destruct (Z.ltb_spec tick (sched (heap st) current)); [| discriminate].
    injection E as <- <-. rewrite Ht. repeat split; try reflexivity. assumption.
  - destruct (Z.ltb_spec tick (sched (heap st) current)).
    + injection E as <- <-. rewrite Ht. repeat split; try reflexivity. assumption.
    + apply IH in E as (Hx & Hq & Hr & Hw & Hs).
      pose proof (dispatch_fields tick current rest st) as (Fr & Fw & _ & _ & _ & Fs & _).
      split; [exact Hx |]. rewrite Hq, Hr, Hw, Hs.
      split; [now apply dispatch_queue | auto].
Qed.





(** *** Deadlines are Uint64 values *)

Definition records_ok (h : gmap addr SDL_Timer) : Prop :=
  forall a, is_u64 (sched h a).

Lemma records_ok_insert h t r :
  records_ok h -> is_u64 (scheduled r) -> records_ok (<[t := r]> h).
Proof.
  intros H Hr a. unfold sched. destruct (decide (a = t)) as [-> | Hne].
  - now rewrite lookup_total_insert_eq.
  - rewrite lookup_total_insert_ne by congruence. apply H.
Qed.

Lemma records_ok_delete h t : records_ok h -> records_ok (delete t h).
Proof.
  intros H a. unfold sched. destruct (decide (a = t)) as [-> | Hne].
  - rewrite lookup_total_delete_eq. cbn. unfold is_u64, SDL_MAX_UINT64. lia.
  - rewrite lookup_total_delete_ne by congruence. apply H.
Qed.

Lemma records_ok_free_timers l : forall h, records_ok h -> records_ok (free_timers l h).
Proof.
  induction l as [| a l IH]; intros h H; simpl; [exact H |].
  apply IH. now apply records_ok_delete.
Qed.

Lemma dispatch_records tick current rest st :
  records_ok (heap st) -> records_ok (heap (dispatch tick current rest st)).
Proof.
  intros H. unfold dispatch. cbn [heap with_timers app_state].
  destruct (next_interval (heap st !!! current) (app_state st)) as [i a].
  destruct (0 <? i); cbn.
  - apply records_ok_insert; [exact H | apply wrap64_range].
  - apply records_ok_insert; [exact H | apply (H current)].
Qed.

Lemma dispatch_all_records fuel tick : forall st d st',
  records_ok (heap st) -> dispatch_all fuel tick st = Some (d, st') ->
  records_ok (heap st').
Proof.
  induction fuel as [| n IH]; intros st d st' H E; simpl in E;
    destruct (timers st) as [| current rest] eqn:Ht;
    try (injection E as <- <-; exact H);
    destruct (tick <? sched (heap st) current);
    try (injection E as <- <-; exact H); try discriminate.
  eapply IH; [| exact E]. now apply dispatch_records.
Qed.

Lemma SDL_TimerThread_turn_records fuel st b st' :
  records_ok (heap st) -> SDL_TimerThread_turn fuel st = Some (b, st') ->
  records_ok (heap st').
Proof.
  intros H E. unfold SDL_TimerThread_turn in E.
  destruct (maintenance_fields st) as (_ & _ & _ & _ & Hh & _).
  destruct (active (maintenance st) =? 0); [injection E as <- <-; now rewrite Hh |].
  cbn [SDL_GetTicksNS] in E.
  set (st1 := with_reads _ (maintenance st)) in E.
  destruct (dispatch_all fuel _ st1) as [[d st2] |] eqn:D; [| discriminate].
  assert (H1 : records_ok (heap st1))
    by (change (records_ok (heap (maintenance st))); now rewrite Hh).
  cbn in E. injection E as <- <-. cbn.
  apply (dispatch_all_records _ _ _ _ _ H1 D).
Qed.

Lemma SDL_RemoveTimer_records id st :
  records_ok (heap st) -> records_ok (heap (snd (SDL_RemoveTimer id st))).
Proof.
  intros H. unfold SDL_RemoveTimer. destruct (id =? 0); [exact H |].
  destruct (unlink id (timermap st)) as [[entry |] rest]; cbn [heap with_timermap];
    [| exact H].
  destruct (canceled (heap st !!! timer entry) =? 0); [| exact H].
  cbn. apply records_ok_insert; [exact H | apply (H (timer entry))].
Qed.

Lemma SDL_QuitTimers_records st :
  records_ok (heap st) -> records_ok (heap (SDL_QuitTimers st)).
Proof.
  intros H. unfold SDL_QuitTimers. destruct (init st); [| exact H]. cbn [negb].
  cbv zeta. set (s1 := if thread _ then _ else _).
  assert (H1 : records_ok (heap s1)).
  { subst s1. destruct (thread _); [| exact H].
    change (records_ok (heap (maintenance (SDL_SignalSemaphore (with_active 0 st))))).
    destruct (maintenance_fields (SDL_SignalSemaphore (with_active 0 st)))
      as (_ & _ & _ & _ & -> & _). exact H. }
  clearbody s1. cbn. now apply records_ok_free_timers, records_ok_free_timers.
Qed.

Lemma SDL_InitTimers_records st :
  records_ok (heap st) -> records_ok (heap (snd (SDL_InitTimers st))).
Proof.
  intros H. unfold SDL_InitTimers. destruct (init st); [exact H |].
  destruct mutex_ok, sem_ok, thread_ok; cbn [negb snd];
    try (apply SDL_QuitTimers_records); exact H.
Qed.

Lemma SDL_CreateTimer_records i cm cn ud st :
  records_ok (heap st) -> records_ok (heap (snd (SDL_CreateTimer i cm cn ud st))).
Proof.
  intros H. unfold SDL_CreateTimer.
  destruct ((cm =? 0) && (cn =? 0)); [exact H |].
  unfold SDL_CheckInitTimers.
  pose proof (SDL_InitTimers_records st H) as H1.
  destruct (SDL_InitTimers st) as [ok st1]. cbn [snd] in H1.
  destruct ok; cbn [negb]; [| exact H1].
  assert (H2 : records_ok (heap (snd (acquire_timer st1)))).
  { unfold acquire_timer. destruct (freelist st1) as [| t f]; cbn [head tail].
    - unfold SDL_malloc_timer. destruct (malloc_ok _); exact H1.
    - cbn [snd]. apply SDL_RemoveTimer_records. exact H1. }
  destruct (acquire_timer st1) as [[t |] st2]; cbn [snd] in H2; [| exact H2].
  cbn [SDL_GetNextObjectID SDL_GetTicksNS SDL_malloc_entry].
  cbn [mallocs with_heap with_reads with_last_object_id heap reads fst].
  destruct (malloc_ok (mallocs st2)); cbn.
  - apply records_ok_insert; [exact H2 | apply wrap64_range].
  - apply records_ok_delete, records_ok_insert; [exact H2 | apply wrap64_range].
Qed.

Lemma reachable_records st : reachable st -> records_ok (heap st).
Proof.
  induction 1 as [a | st st' _ IH Hstep].
  - intros x. cbn. unfold sched. rewrite lookup_total_empty. cbn.
    unfold is_u64, SDL_MAX_UINT64. lia.
  - destruct Hstep as [i cm cn ud | id | | | fuel again st'' E].
    + now apply SDL_CreateTimer_records.
    + now apply SDL_RemoveTimer_records.
    + now apply SDL_InitTimers_records.
    + now apply SDL_QuitTimers_records.
    + eapply SDL_TimerThread_turn_records; eauto.
Qed.

(** X10: the worker sleeps until the earliest deadline. In a turn of a
    reachable state that reaches the semaphore wait, with the second
    clock reading [now] not before the first, [tick], the timeout passed
    to the wait is the time from [now] to the deadline at the head of the
    timer list, which lies after [tick], or 0 if that deadline has passed
    while the callbacks ran; with no timer left it is the largest Uint64
    less the time the callbacks took. The turn reads the clock twice and
    waits once. *)
Theorem worker_waits_until_earliest (fuel : nat) (st st' : State) :
  reachable st ->
  let tick := wrap64 (clock (reads st)) in
  let now := wrap64 (clock (S (reads st))) in
  tick <= now ->
  SDL_TimerThread_turn fuel st = Some (true, st') ->
  exists w,
    waits st' = waits st ++ [w] /\ reads st' = S (S (reads st)) /\
    sem st' = pred <$> sem st /\
    match timers st' with
    | [] => w = SDL_MAX_UINT64 - (now - tick)
    | c :: _ => tick < sched (heap st') c /\ w = Z.max 0 (sched (heap st') c - now)
    end.
Proof.
  intros Hreach tick now Hmono E.
  apply reachable_records in Hreach.
  pose proof (wrap64_range (clock (reads st))) as Rt. fold tick in Rt.
  pose proof (wrap64_range (clock (S (reads st)))) as Rn. fold now in Rn.
  unfold SDL_TimerThread_turn in E.
  destruct (maintenance_shape st) as (T & F & Hm).
  assert (Hh : heap (maintenance st) = heap st) by now rewrite Hm.
  assert (Hr : reads (maintenance st) = reads st) by now rewrite Hm.
  assert (Hw : waits (maintenance st) = waits st) by now rewrite Hm.
  assert (Hs : sem (maintenance st) = sem st) by now rewrite Hm.
  destruct (active (maintenance st) =? 0); [discriminate |].
  cbn [SDL_GetTicksNS] in E. rewrite Hr in E. fold tick in E.
  set (st1 := with_reads _ (maintenance st)) in E.
  destruct (dispatch_all fuel tick st1) as [[d st2] |] eqn:D; [| discriminate].
  assert (H1 : records_ok (heap st1))
    by (change (records_ok (heap (maintenance st))); now rewrite Hh).
  pose proof (dispatch_all_records _ _ _ _ _ H1 D) as Hrec.
  apply dispatch_all_exit in D as (Hx & _ & Hr2 & Hw2 & Hs2).
  assert (Hr1 : reads st1 = S (reads st))
    by (subst st1; reflexivity).
  assert (Hw1 : waits st1 = waits st) by (subst st1; cbn [waits with_reads]; exact Hw).
  assert (Hs1 : sem st1 = sem st) by (subst st1; cbn [sem with_reads]; exact Hs).
  rewrite Hr1 in Hr2. rewrite Hw1 in Hw2. rewrite Hs1 in Hs2. clearbody st1.
  cbn in E. rewrite Hr2 in E. fold tick now in E.
  injection E as <-.
  eexists. cbn. rewrite Hw2, Hs2.
  split; [reflexivity |]. split; [reflexivity |]. split; [reflexivity |].
  rewrite (wrap64_small (now - tick)) by lia.
  destruct (timers st2) as [| c l].
  - subst d. unfold SDL_MAX_UINT64 in *.
    destruct (Z.ltb_spec 18446744073709551615 (now - tick)); [lia |].
    apply wrap64_small. unfold SDL_MAX_UINT64. lia.
  - destruct Hx as [Hc ->]. split; [exact Hc |].
    pose proof (Hrec c) as Rc. unfold is_u64 in Rc.
    rewrite (wrap64_small (sched (heap st2) c - tick)) by lia.
    destruct (Z.ltb_spec (sched (heap st2) c - tick) (now - tick)); [lia |].
    rewrite wrap64_small by lia. lia.
Qed.

(** X11: each callback gets the interval in the unit it was registered
    in. For a timer created by [SDL_AddTimer] with a 32-bit interval in
    milliseconds, which the record stores in nanoseconds, the worker calls
    the millisecond callback with that same number of milliseconds, the
    user data and the returned id, and takes its result, a Uint32, as
    milliseconds; for a timer created by [SDL_AddTimerNS] with any
    interval in nanoseconds it calls the nanosecond callback with the
    interval as given and takes its result as a Uint64 of nanoseconds. *)
Theorem add_timer_callback_units (ms ns cb ud : Z) (st : State) (a : App) :
  init st = true -> 0 <= ms <= SDL_MAX_UINT32 ->
  let r := SDL_AddTimer ms cb ud st in
  let r' := SDL_AddTimerNS ns cb ud st in
  (fst r <> 0 ->
   exists t, head (pending (snd r)) = Some t /\
     next_interval (heap (snd r) !!! t) a
     = (wrap32 (fst (invoke_ms cb ud (fst r) ms a)) * SDL_NS_PER_MS,
        snd (invoke_ms cb ud (fst r) ms a))) /\
  (fst r' <> 0 ->
   exists t, head (pending (snd r')) = Some t /\
     next_interval (heap (snd r') !!! t) a
     = (wrap64 (fst (invoke_ns cb ud (fst r') ns a)),
        snd (invoke_ns cb ud (fst r') ns a))).
Proof.
  intros Hi Hms r r'.
  assert (Hcb : fst r <> 0 \/ fst r' <> 0 -> cb <> 0).
  { intros H ->. subst r r'. unfold SDL_AddTimer, SDL_AddTimerNS, SDL_CreateTimer in H.
    cbn in H. destruct H as [H | H]; now apply H. }
  unfold SDL_AddTimer in r. unfold SDL_AddTimerNS in r'.
  split; intros Hr.
  - destruct (SDL_CreateTimer_success _ _ _ _ st Hi Hr) as (t & P & _ & Hh & _).
    exists t. fold r in P, Hh. rewrite P, Hh. split; [reflexivity |].
    unfold next_interval. cbn [canceled callback_ms userdata timerID interval Z.eqb negb].
    destruct (Z.eqb_spec cb 0) as [E | _]; [exfalso; apply Hcb; auto |]. cbn [negb].
    assert (Hback : wrap32 (SDL_NS_TO_MS (SDL_MS_TO_NS ms)) = ms).
    { unfold SDL_NS_TO_MS, SDL_MS_TO_NS, SDL_NS_PER_MS, SDL_MAX_UINT32 in *.
      rewrite (wrap64_small ms) by (unfold SDL_MAX_UINT64; lia).
      rewrite wrap64_small by (unfold SDL_MAX_UINT64; lia).
      rewrite Z.div_mul by lia. apply wrap32_small. unfold SDL_MAX_UINT32. lia. }
    rewrite Hback. destruct (invoke_ms cb ud (fst r) ms a) as [x a']. cbn [fst snd].
    f_equal. unfold SDL_MS_TO_NS, SDL_NS_PER_MS.
    pose proof (Z.mod_pos_bound x 4294967296 eq_refl) as Hx. fold (wrap32 x) in Hx.
    rewrite (wrap64_small (wrap32 x)) by (unfold SDL_MAX_UINT64; lia).
    apply wrap64_small. unfold SDL_MAX_UINT64. lia.
  - destruct (SDL_CreateTimer_success _ _ _ _ st Hi Hr) as (t & P & _ & Hh & _).
    exists t. fold r' in P, Hh. rewrite P, Hh. split; [reflexivity |].
    unfold next_interval. cbn [canceled callback_ms callback_ns userdata timerID interval
                               Z.eqb negb].
    now destruct (invoke_ns cb ud (fst r') ns a) as [x a'].
Qed.

(** *** A dispatch loop that does not end *)

Lemma dispatch_all_due fuel tick st current rest :
  timers st = current :: rest -> sched (heap st) current <= tick ->
  dispatch_all (S fuel) tick st = dispatch_all fuel tick (dispatch tick current rest st).
Proof.
  intros Ht Hdue. cbn [dispatch_all]. rewrite Ht.
  apply Z.ltb_ge in Hdue. now rewrite Hdue.
Qed.

(** If handling the due head of the list leaves the state as it was, no
    number of iterations ends the loop. *)
Lemma dispatch_all_stuck tick st current rest :
  timers st = current :: rest -> sched (heap st) current <= tick ->
  dispatch tick current rest st = st ->
  forall fuel, dispatch_all fuel tick st = None.
Proof.
  intros Ht Hdue Hfix. induction fuel as [| n IH].
  - cbn [dispatch_all]. rewrite Ht. apply Z.ltb_ge in Hdue. now rewrite Hdue.
  - rewrite (dispatch_all_due n tick st current rest Ht Hdue), Hfix. exact IH.
Qed.

End Queue.

(** *** A small application *)

(** An application without state whose millisecond callbacks ask for 10 ms
    and whose nanosecond callbacks stop their timer, on a platform where
    every allocation succeeds. *)
Module Demo.

Definition every_10ms (f u id i : Z) (a : unit) : Z * unit := (10, a).
Definition once (f u id i : Z) (a : unit) : Z * unit := (0, a).
Definition clock (k : nat) : Z := Z.of_nat k.
Definition malloc_ok (k : nat) : bool := true.

Definition create (interval cb_ms cb_ns : Z) (st : @State unit) : Z * @State unit :=
  SDL_CreateTimer clock malloc_ok true true true interval cb_ms cb_ns 0 st.

(** A periodic timer due after 1000 ns, then a one-shot due after 5000 ns. *)
Definition two_created : @State unit :=
  snd (create 5000 0 9 (snd (create 1000 7 0 (boot tt)))).

(** The worker has taken the two timers into its list. *)
Definition two_queued : @State unit :=
  match SDL_TimerThread_turn every_10ms once clock 8 two_created with
  | Some (_, st) => st
  | None => two_created
  end.

Lemma two_created_reachable :
  reachable every_10ms once clock malloc_ok true true true two_created.
Proof.
  unfold two_created, create.
  eapply reach_step; [eapply reach_step; [apply (reach_boot _ _ _ _ _ _ _ tt) |] |];
    apply step_create.
Qed.

Lemma two_queued_reachable :
  reachable every_10ms once clock malloc_ok true true true two_queued.
Proof.
  eapply reach_step; [apply two_created_reachable |].
  apply (step_worker _ _ _ _ _ _ _ _ 8%nat true). vm_compute. reflexivity.
Qed.

Example two_queued_timers :
  pending two_created = [1%nat; 0%nat] /\ timers two_queued = [0%nat; 1%nat] /\
  sched (heap two_queued) 0%nat = 1000 /\ sched (heap two_queued) 1%nat = 5001.
Proof. vm_compute. repeat split. Qed.

(** Removing a timer twice: the first call cancels it, the second finds no
    entry. *)
Example remove_twice :
  let r1 := SDL_RemoveTimer 1 two_queued in
  let r2 := SDL_RemoveTimer 1 (snd r1) in
  fst r1 = true /\ canceled (heap (snd r1) !!! 0%nat) = 1 /\
  fst r2 = false /\ error (snd r2) = Some (Message "Timer not found").
Proof. vm_compute. repeat split. Qed.

End Demo.

(** C3, an instance: the list of the small application after the worker's
    first turn. *)
Lemma C3_timers_sorted_witness :
  timers_sorted (heap Demo.two_queued) (timers Demo.two_queued) /\
  insert_timer (heap Demo.two_queued) 1%nat [0%nat] = [0%nat; 1%nat].
Proof.
  destruct (C3_timers_sorted Demo.every_10ms Demo.once Demo.clock Demo.malloc_ok
              true true true Demo.two_queued (heap Demo.two_queued) 1%nat [0%nat])
    as (Hs & _).
  - apply Demo.two_queued_reachable.
  - repeat constructor.
  - split; [exact Hs | vm_compute; reflexivity].
Defined.

(** C2, an instance: removing timer 1 of the small application, whose
    entry is the second of the registry. *)
Lemma C2_remove_timer_witness :
  let r := SDL_RemoveTimer 1 Demo.two_queued in
  first_with_id 1 (timermap Demo.two_queued) [mkTimerMap 2 1] (mkTimerMap 1 0) [] /\
  fst r = true /\ timermap (snd r) = [mkTimerMap 2 1] /\
  canceled (heap Demo.two_queued !!! 0%nat) = 0 /\
  canceled (heap (snd r) !!! 0%nat) = 1.
Proof.
  intros r.
  assert (Hf : first_with_id 1 (timermap Demo.two_queued)
                 [mkTimerMap 2 1] (mkTimerMap 1 0) []).
  { split; [vm_compute; reflexivity |]. split; [reflexivity |].
    constructor; [discriminate | constructor]. }
  assert (Hc : canceled (heap Demo.two_queued !!! 0%nat) = 0) by (vm_compute; reflexivity).
  destruct (C2_remove_timer 1 Demo.two_queued) as (_ & Hfound & _).
  destruct (Hfound _ _ _ ltac:(discriminate) Hf) as (Hreg & Hyes & _).
  destruct (Hyes Hc) as (Ht & _ & Hc' & _).
  split; [exact Hf |]. split; [exact Ht |]. split; [exact Hreg |].
  split; [exact Hc | exact Hc'].
Defined.

(** C4, counterexample: a nanosecond callback that returns the largest
    Uint64. The timer of the state below is due at 1000 and not canceled;
    handled at tick 2000 with the positive interval [2^64 - 1] it is
    rescheduled at 1999, not at [tick + I]: the Uint64 sum wraps. The
    timer is then due again at the same tick, and the dispatch loop does
    not end, whatever the number of iterations. *)
Lemma C4_reschedule_wraps :
  let forever := fun (f u id i : Z) (a : unit) => (18446744073709551615, a) in
  let st := maintenance (snd (Demo.create 1000 0 9 (boot tt))) in
  let st' := dispatch Demo.every_10ms forever 2000 0%nat [] st in
  timers st = [0%nat] /\ sched (heap st) 0%nat = 1000 /\
  canceled (heap st !!! 0%nat) = 0 /\
  fst (next_interval Demo.every_10ms forever (heap st !!! 0%nat) tt)
    = 18446744073709551615 /\
  interval (heap st' !!! 0%nat) = 18446744073709551615 /\
  scheduled (heap st' !!! 0%nat) = 1999 /\
  scheduled (heap st' !!! 0%nat) <> 2000 + 18446744073709551615 /\
  timers st' = [0%nat] /\
  forall fuel, dispatch_all Demo.every_10ms forever fuel 2000 st = None.
Proof.
  intros forever st st'.
  assert (Ht : timers st = [0%nat]) by (vm_compute; reflexivity).
  assert (Hs : sched (heap st) 0%nat = 1000) by (vm_compute; reflexivity).
  assert (Ht' : timers st' = [0%nat]) by (vm_compute; reflexivity).
  assert (Hs' : scheduled (heap st' !!! 0%nat) = 1999) by (vm_compute; reflexivity).
  assert (Hfix : dispatch Demo.every_10ms forever 2000 0%nat [] st' = st')
    by (vm_compute; reflexivity).
  split; [exact Ht |]. split; [exact Hs |].
  split; [vm_compute; reflexivity |]. split; [vm_compute; reflexivity |].
  split; [vm_compute; reflexivity |]. split; [exact Hs' |].
  split; [| split; [exact Ht' |]].
  - rewrite Hs'. discriminate.
  - intros [| n].
    + cbn [dispatch_all]. rewrite Ht, Hs. reflexivity.
    + rewrite (dispatch_all_due _ _ n 2000 st 0%nat [] Ht) by (rewrite Hs; lia).
      fold st'. apply (dispatch_all_stuck _ _ 2000 st' 0%nat [] Ht'); [| exact Hfix].
      unfold sched. rewrite Hs'. lia.
Qed.

(** C4, an instance: the periodic timer of the small application, fired
    at tick 7000, is due again at 10007000. *)
Lemma C4_dispatch_reschedules_witness :
  let st' := dispatch Demo.every_10ms Demo.once 7000 0%nat [1%nat] Demo.two_queued in
  timers Demo.two_queued = [0%nat; 1%nat] /\
  interval (heap st' !!! 0%nat) = 10000000 /\
  scheduled (heap st' !!! 0%nat) = 10007000 /\
  timers st' = [1%nat; 0%nat] /\ worker_freelist st' = [].
Proof.
  destruct (C4_dispatch_reschedules Demo.every_10ms Demo.once Demo.clock Demo.malloc_ok
              7000 0%nat [1%nat] Demo.two_queued)
    as (Hi & Hpos & _).
  - lia.
  - vm_compute. reflexivity.
  - destruct Hpos as (H1 & H2 & _ & _ & H5 & _ & H7).
    + rewrite Hi. vm_compute. reflexivity.
    + cbv zeta. split; [vm_compute; reflexivity |].
      rewrite H1, H2, H5, H7. rewrite Hi. vm_compute. repeat split.
Defined.



(** X5, an instance: the worker thread cannot be created on the state
    before initialisation. *)
Lemma init_timers_all_or_nothing_witness :
  let r := SDL_InitTimers true true false (@boot unit tt) in
  down (boot tt) /\ fst r = false /\ down (snd r) /\ sem (snd r) = None.
Proof.
  assert (H : down (@boot unit tt)) by (split; reflexivity).
  destruct (init_timers_all_or_nothing true true false (boot tt) H) as (Hr & _ & Hf).
  cbv zeta. split; [exact H |]. split; [exact Hr |].
  destruct (Hf Hr) as (Hd & _ & Hs & _). split; [exact Hd | exact Hs].
Defined.

(** X6, an instance: shutting down the small application. *)
Lemma quit_timers_frees_everything_witness :
  let st' := SDL_QuitTimers Demo.two_queued in
  timers Demo.two_queued = [0%nat; 1%nat] /\
  timers st' = [] /\ heap st' !! 0%nat = None /\ heap st' !! 1%nat = None.
Proof.
  destruct (quit_timers_frees_everything Demo.every_10ms Demo.once Demo.clock
              Demo.malloc_ok Demo.two_queued)
    as (_ & _ & _ & _ & _ & Ht & _ & _ & _ & Hfree & _).
  - vm_compute. reflexivity.
  - vm_compute. reflexivity.
  - assert (Hq : queue Demo.two_queued = [0%nat; 1%nat]) by (vm_compute; reflexivity).
    rewrite Hq in Hfree.
    cbv zeta. split; [vm_compute; reflexivity |]. split; [exact Ht |].
    split; apply Hfree; repeat constructor.
Defined.

(** X7, an instance: the second timer of the small application. *)
Lemma create_timer_publishes_once_witness :
  let st := snd (Demo.create 1000 7 0 (boot tt)) in
  let r := Demo.create 5000 0 9 st in
  init st = true /\ fst r <> 0 /\
  exists t, pending (snd r) = t :: pending st /\
            scheduled (heap (snd r) !!! t) = 5001.
Proof.
  intros st r.
  assert (Hi : init st = true) by (vm_compute; reflexivity).
  assert (Hr : fst r <> 0) by (vm_compute; discriminate).
  split; [exact Hi |]. split; [exact Hr |].
  destruct (create_timer_publishes_once Demo.clock Demo.malloc_ok true true true
              5000 0 9 0 st Hi) as (Hs & _).
  destruct (Hs Hr) as (t & P & _ & Hh & _).
  exists t. split; [exact P |].
  change (scheduled (heap (snd (SDL_CreateTimer Demo.clock Demo.malloc_ok true true true
             5000 0 9 0 st)) !!! t) = 5001).
  rewrite Hh. vm_compute. reflexivity.
Defined.

(** X8, an instance: the second timer of the small application, removed
    as soon as it is created. *)
Lemma create_then_remove_witness :
  let st := snd (Demo.create 1000 7 0 (boot tt)) in
  let r := Demo.create 5000 0 9 st in
  init st = true /\ fst r <> 0 /\ fst (SDL_RemoveTimer (fst r) (snd r)) = true.
Proof.
  intros st r.
  assert (Hi : init st = true) by (vm_compute; reflexivity).
  assert (Hr : fst r <> 0) by (vm_compute; discriminate).
  split; [exact Hi |]. split; [exact Hr |].
  apply (create_then_remove Demo.clock Demo.malloc_ok true true true 5000 0 9 0 st Hi Hr).
Defined.


(** X10, an instance: the first turn of the worker of the small
    application. *)
Lemma worker_waits_until_earliest_witness :
  exists w, waits Demo.two_queued = waits Demo.two_created ++ [w] /\
            reads Demo.two_queued = S (S (reads Demo.two_created)).
Proof.
  destruct (worker_waits_until_earliest Demo.every_10ms Demo.once Demo.clock
              Demo.malloc_ok true true true 8 Demo.two_created Demo.two_queued)
    as (w & Hw & Hr & _).
  - apply Demo.two_created_reachable.
  - vm_compute. discriminate.
  - vm_compute. reflexivity.
  - exists w. split; [exact Hw | exact Hr].
Defined.

(** X11, an instance: a timer of 16 ms and a timer of five seconds, in
    nanoseconds, added to the small application once it is initialised. *)
Lemma add_timer_callback_units_witness :
  let st := snd (Demo.create 1000 7 0 (boot tt)) in
  let r := SDL_AddTimer Demo.clock Demo.malloc_ok true true true 16 7 0 st in
  let r' := SDL_AddTimerNS Demo.clock Demo.malloc_ok true true true 5000000000 9 0 st in
  init st = true /\ fst r <> 0 /\ fst r' <> 0 /\
  (exists t, head (pending (snd r)) = Some t /\
     next_interval Demo.every_10ms Demo.once (heap (snd r) !!! t) tt = (10000000, tt)) /\
  (exists t, head (pending (snd r')) = Some t /\
     next_interval Demo.every_10ms Demo.once (heap (snd r') !!! t) tt = (0, tt)).
Proof.
  intros st r r'.
  assert (Hi : init st = true) by (vm_compute; reflexivity).
  assert (Hr : fst r <> 0) by (vm_compute; discriminate).
  assert (Hr' : fst r' <> 0) by (vm_compute; discriminate).
  split; [exact Hi |]. split; [exact Hr |]. split; [exact Hr' |].
  split.
  - destruct (add_timer_callback_units Demo.every_10ms Demo.once Demo.clock Demo.malloc_ok
                true true true 16 0 7 0 st tt Hi) as (Hms & _).
    + unfold SDL_MAX_UINT32. lia.
    + destruct (Hms Hr) as (t & Hp & Hn). exists t. split; [exact Hp |].
      fold r in Hn. rewrite Hn. vm_compute. reflexivity.
  - destruct (add_timer_callback_units Demo.every_10ms Demo.once Demo.clock Demo.malloc_ok
                true true true 0 5000000000 9 0 st tt Hi) as (_ & Hns).
    + unfold SDL_MAX_UINT32. lia.
    + destruct (Hns Hr') as (t & Hp & Hn). exists t. split; [exact Hp |].
      fold r' in Hn. rewrite Hn. vm_compute. reflexivity.
Defined.

(** X21, an instance: the worker takes the two timers of the small
    application. *)
Lemma worker_takes_pending_witness :
  pending (maintenance Demo.two_created) = [] /\
  timers (maintenance Demo.two_created) ≡ₚ [1%nat; 0%nat].
Proof.
  destruct (worker_takes_pending Demo.two_created) as (P & T & _).
  - vm_compute. constructor.
  - split; [exact P |]. rewrite T. vm_compute. reflexivity.
Defined.

End Timers.

(** ** Timers without threads: the Emscripten event loop *)

(** The second implementation in [SDL_timer.c], compiled when there are no
    threads: every timer is a registry entry armed as a one-shot timeout
    of the host, and [SDL_Emscripten_TimerHelper], which the host calls
    when the timeout expires, runs the callback and arms the entry again.
    Callbacks are oracles over the application state, as for the threaded
    queue; they make no SDL call of their own. *)
Module Emscripten.

Abbreviation addr := nat.

(** [struct SDL_TimerMap] of this variant, without its [next] link. *)
Record SDL_TimerMap := mkTimerMap {
  timerID : Z;
  timeoutID : Z;
  interval : Z;
  callback_ms : Z;
  callback_ns : Z;
  userdata : Z
}.

#[global] Instance SDL_TimerMap_inhabited : Inhabited SDL_TimerMap :=
  populate (mkTimerMap 0 0 0 0 0 0).

(** A timeout pending in the host: the id [emscripten_set_timeout]
    returned for it, the delay in milliseconds and the entry passed as
    user data. *)
Record Timeout := mkTimeout {
  timeout_id : Z;
  msecs : Z;
  target : addr
}.

Lemma filter_agree {A} (P Q : A -> Prop)
    `{!forall x, Decision (P x)} `{!forall x, Decision (Q x)} (l : list A) :
  (forall x, x ∈ l -> (P x <-> Q x)) -> filter P l = filter Q l.
Proof.
  induction l as [| x l IH]; intros Hl; [reflexivity |].
  rewrite !filter_cons.
  rewrite IH by (intros y Hy; apply Hl; now right).
  pose proof (Hl x (list_elem_of_here x l)) as Hx.
  destruct (decide (P x)) as [Hp | Hp], (decide (Q x)) as [Hq | Hq];
    try reflexivity; tauto.
Qed.

Section Loop.
Context {App : Type}.
Variables invoke_ms invoke_ns : Z -> Z -> Z -> Z -> App -> Z * App.
(** The id the host returns for its [k]-th [emscripten_set_timeout]. *)
Variable host_id : nat -> Z.
Variable malloc_ok : nat -> bool.

(** [SDL_timer_data.timermap], newest entry first, the entries it links,
    the allocator, the object id counter, the host's pending timeouts in
    the order they were set, the number of [emscripten_set_timeout] calls
    so far, the thread's error and the application. *)
Record State := mkState {
  timermap : list addr;
  heap : gmap addr SDL_TimerMap;
  brk : addr;
  mallocs : nat;
  last_object_id : Z;
  timeouts : list Timeout;
  set_calls : nat;
  error : option Timers.SDL_Error;
  app_state : App
}.

Definition with_timermap (v : list addr) (st : State) : State :=
  mkState v (heap st) (brk st) (mallocs st) (last_object_id st) (timeouts st)
    (set_calls st) (error st) (app_state st).

Definition with_heap (v : gmap addr SDL_TimerMap) (st : State) : State :=
  mkState (timermap st) v (brk st) (mallocs st) (last_object_id st) (timeouts st)
    (set_calls st) (error st) (app_state st).

Definition with_brk (v : addr) (st : State) : State :=
  mkState (timermap st) (heap st) v (mallocs st) (last_object_id st) (timeouts st)
    (set_calls st) (error st) (app_state st).

Definition with_mallocs (v : nat) (st : State) : State :=
  mkState (timermap st) (heap st) (brk st) v (last_object_id st) (timeouts st)
    (set_calls st) (error st) (app_state st).

Definition with_last_object_id (v : Z) (st : State) : State :=
  mkState (timermap st) (heap st) (brk st) (mallocs st) v (timeouts st)
    (set_calls st) (error st) (app_state st).

Definition with_timeouts (v : list Timeout) (st : State) : State :=
  mkState (timermap st) (heap st) (brk st) (mallocs st) (last_object_id st) v
    (set_calls st) (error st) (app_state st).

Definition with_set_calls (v : nat) (st : State) : State :=
  mkState (timermap st) (heap st) (brk st) (mallocs st) (last_object_id st)
    (timeouts st) v (error st) (app_state st).

Definition with_error (v : option Timers.SDL_Error) (st : State) : State :=
  mkState (timermap st) (heap st) (brk st) (mallocs st) (last_object_id st)
    (timeouts st) (set_calls st) v (app_state st).

Definition with_app_state (v : App) (st : State) : State :=
  mkState (timermap st) (heap st) (brk st) (mallocs st) (last_object_id st)
    (timeouts st) (set_calls st) (error st) v.

Definition set_interval (v : Z) (e : SDL_TimerMap) : SDL_TimerMap :=
  mkTimerMap (timerID e) (timeoutID e) v (callback_ms e) (callback_ns e) (userdata e).

Definition set_timeoutID (v : Z) (e : SDL_TimerMap) : SDL_TimerMap :=
  mkTimerMap (timerID e) v (interval e) (callback_ms e) (callback_ns e) (userdata e).

(** The host: a timeout is added to the pending ones, and
    [emscripten_clear_timeout] drops the pending one with the id. *)
Definition emscripten_set_timeout (ms : Z) (e : addr) (st : State) : Z * State :=
  let id := host_id (set_calls st) in
  (id, with_set_calls (S (set_calls st))
         (with_timeouts (timeouts st ++ [mkTimeout id ms e]) st)).

Definition emscripten_clear_timeout (id : Z) (st : State) : State :=
  with_timeouts (filter (fun t => timeout_id t <> id) (timeouts st)) st.

(** Modelled from the spec: [next_object_id ()] "returns a fresh non-zero
    32-bit identifier": the next one after the last, skipping zero. *)
Definition SDL_GetNextObjectID (st : State) : Z * State :=
  let id := wrap32 (last_object_id st + 1) in
  let id := if id =? 0 then 1 else id in
  (id, with_last_object_id id st).

Definition SDL_Emscripten_TimerHelper (e : addr) (st : State) : State :=
  let entry := heap st !!! e in
  let (i, a) :=
    if negb (callback_ms entry =? 0) then
      let (r, a) := invoke_ms (callback_ms entry) (userdata entry) (timerID entry)
                      (wrap32 (SDL_NS_TO_MS (interval entry))) (app_state st) in
      (SDL_MS_TO_NS (wrap32 r), a)
    else
      let (r, a) := invoke_ns (callback_ns entry) (userdata entry) (timerID entry)
                      (interval entry) (app_state st) in
      (wrap64 r, a) in
  let st := with_app_state a (with_heap (<[e := set_interval i entry]> (heap st)) st) in
  if 0 <? i then
    let (id, st) := emscripten_set_timeout (SDL_NS_TO_MS i) e st in
    with_heap (<[e := set_timeoutID id (heap st !!! e)]> (heap st)) st
  else st.

(** The host runs its [k]-th pending timeout: the timeout is no longer
    pending, and its function is called with its user data. *)
Definition host_fires (k : nat) (st : State) : State :=
  match timeouts st !! k with
  | Some t => SDL_Emscripten_TimerHelper (target t) (with_timeouts (delete k (timeouts st)) st)
  | None => st
  end.

Definition SDL_InitTimers (st : State) : bool * State := (true, st).

Fixpoint free_entries (l : list addr) (h : gmap addr SDL_TimerMap) : gmap addr SDL_TimerMap :=
  match l with
  | [] => h
  | entry :: l => free_entries l (delete entry h)
  end.

Definition SDL_QuitTimers (st : State) : State :=
  with_timermap [] (with_heap (free_entries (timermap st) (heap st)) st).

Definition SDL_CreateTimer (interval callback_ms callback_ns userdata : Z) (st : State)
  : Z * State :=
  if (callback_ms =? 0) && (callback_ns =? 0)
  then (0, with_error (Some (Timers.InvalidParam "callback")) st)
  else
    let ok := malloc_ok (mallocs st) in
    let st := with_mallocs (S (mallocs st)) st in
    if negb ok then (0, st)
    else
      let entry := brk st in
      let st := with_brk (S entry) st in
      let (id, st) := SDL_GetNextObjectID st in
      let (tid, st) := emscripten_set_timeout (SDL_NS_TO_MS interval) entry st in
      let record := mkTimerMap id tid interval callback_ms callback_ns userdata in
      let st := with_heap (<[entry := record]> (heap st)) st in
      let st := with_timermap (entry :: timermap st) st in
      (id, st).

Definition SDL_AddTimer (interval callback userdata : Z) (st : State) : Z * State :=
  SDL_CreateTimer (SDL_MS_TO_NS interval) callback 0 userdata st.

Definition SDL_AddTimerNS (interval callback userdata : Z) (st : State) : Z * State :=
  SDL_CreateTimer interval 0 callback userdata st.

(** The search of [SDL_RemoveTimer]: the first entry with the id, and the
    registry with that entry unlinked. *)
Fixpoint unlink (h : gmap addr SDL_TimerMap) (id : Z) (l : list addr)
  : option addr * list addr :=
  match l with
  | [] => (None, [])
  | entry :: rest =>
      if timerID (h !!! entry) =? id then (Some entry, rest)
      else let (found, rest) := unlink h id rest in (found, entry :: rest)
  end.

Definition SDL_RemoveTimer (id : Z) (st : State) : bool * State :=
  if id =? 0 then (false, with_error (Some (Timers.InvalidParam "id")) st)
  else
    let (found, rest) := unlink (heap st) id (timermap st) in
    let st := with_timermap rest st in
    match found with
    | Some entry =>
        let st := emscripten_clear_timeout (timeoutID (heap st !!! entry)) st in
        (true, with_heap (delete entry (heap st)) st)
    | None => (false, with_error (Some (Timers.Message "Timer not found")) st)
    end.

(** *** Every pending timeout has a live entry *)

Definition tid (st : State) (e : addr) : Z := timeoutID (heap st !!! e).

Definition issued (st : State) (id : Z) : Prop :=
  exists k, (k < set_calls st)%nat /\ id = host_id k.

(** The registry links each entry once and only allocated entries; every
    pending timeout targets an entry of the registry, which records its
    id; no entry has two pending timeouts; the entries of the registry
    record different timeout ids, all returned by the host. *)
Definition armed_ok (st : State) : Prop :=
  NoDup (timermap st) /\
  (forall e, e ∈ timermap st -> (e < brk st)%nat /\ is_Some (heap st !! e)) /\
  (forall t, t ∈ timeouts st ->
     target t ∈ timermap st /\ tid st (target t) = timeout_id t) /\
  NoDup (target <$> timeouts st) /\
  (forall e1 e2, e1 ∈ timermap st -> e2 ∈ timermap st ->
     tid st e1 = tid st e2 -> e1 = e2) /\
  (forall e, e ∈ timermap st -> issued st (tid st e)).

Definition boot (a : App) : State := mkState [] ∅ 0%nat 0%nat 0 [] 0%nat None a.

Lemma boot_armed a : armed_ok (boot a).
Proof.
  unfold armed_ok, boot. cbn.
  repeat split; try constructor; intros; exfalso; eapply not_elem_of_nil; eauto.
Qed.

Lemma armed_ok_same st st' :
  timermap st' = timermap st -> heap st' = heap st -> brk st' = brk st ->
  timeouts st' = timeouts st -> set_calls st' = set_calls st ->
  armed_ok st -> armed_ok st'.
Proof.
  unfold armed_ok, tid, issued. intros -> -> -> -> ->. auto.
Qed.

Lemma unlink_spec h id l :
  match unlink h id l with
  | (Some e, rest) =>
      exists l1 l2, l = l1 ++ e :: l2 /\ rest = l1 ++ l2 /\ timerID (h !!! e) = id /\
                    Forall (fun x => timerID (h !!! x) <> id) l1
  | (None, rest) => rest = l /\ Forall (fun x => timerID (h !!! x) <> id) l
  end.
Proof.
  induction l as [| x l IH]; simpl; [split; constructor |].
  destruct (Z.eqb_spec (timerID (h !!! x)) id) as [E | N].
  - exists [], l. repeat split; [exact E | constructor].
  - destruct (unlink h id l) as [[e |] rest].
    + destruct IH as (l1 & l2 & -> & -> & He & Hl).
      exists (x :: l1), l2. repeat split; [exact He | now constructor].
    + destruct IH as [-> Hl]. split; [reflexivity | now constructor].
Qed.

Lemma free_entries_lookup l : forall h a,
  free_entries l h !! a = if decide (a ∈ l) then None else h !! a.
Proof.
  induction l as [| x l IH]; intros h a; simpl.
  - destruct (decide (a ∈ [])) as [H | _]; [now apply not_elem_of_nil in H | reflexivity].
  - rewrite IH. destruct (decide (a ∈ l)) as [Hl | Hl].
    + rewrite decide_True by (now right). reflexivity.
    + destruct (decide (a = x)) as [-> | Hne].
      * rewrite decide_True by left. apply lookup_delete_eq.
      * rewrite decide_False by (intros H; apply elem_of_cons in H as [? | ?]; auto).
        now apply lookup_delete_ne.
Qed.

Lemma SDL_CreateTimer_armed i cm cn ud st :
  (forall j k, host_id j = host_id k -> j = k) ->
  armed_ok st -> armed_ok (snd (SDL_CreateTimer i cm cn ud st)).
Proof.
  intros Hinj H. unfold SDL_CreateTimer.
  destruct ((cm =? 0) && (cn =? 0)); [revert H; now apply armed_ok_same |].
  destruct (malloc_ok (mallocs st)); cbn [negb]; [| revert H; now apply armed_ok_same].
  destruct H as (Hn & Ha & Hl & Ho & Hd & Hi).
  assert (Hfresh : brk st ∉ timermap st) by (intros Hin; apply Ha in Hin as [? _]; lia).
  assert (Hnew : forall e, e ∈ timermap st -> tid st e <> host_id (set_calls st)).
  { intros e He Heq. destruct (Hi e He) as (k & Hk & Hid).
    rewrite Hid in Heq. apply Hinj in Heq. lia. }
  unfold armed_ok, tid, issued. cbn.
  assert (Hsame : forall e, e ∈ timermap st ->
            timeoutID (<[brk st := mkTimerMap
              (if wrap32 (last_object_id st + 1) =? 0 then 1
               else wrap32 (last_object_id st + 1))
              (host_id (set_calls st)) i cm cn ud]> (heap st) !!! e) = tid st e).
  { intros e He. rewrite lookup_total_insert_ne; [reflexivity |]. intros <-. contradiction. }
  split; [constructor; assumption |].
  split.
  { intros e He. apply elem_of_cons in He as [-> | He].
    - split; [lia |]. rewrite lookup_insert_eq. eauto.
    - destruct (Ha e He) as [Hlt Hsome]. split; [lia |].
      rewrite lookup_insert_ne; [exact Hsome | intros <-; contradiction]. }
  split.
  { intros t Ht. apply elem_of_app in Ht as [Ht | Ht].
    - destruct (Hl t Ht) as [Hin Hid]. split; [now right |].
      now rewrite Hsame.
    - apply list_elem_of_singleton in Ht as ->. cbn. split; [left |].
      now rewrite lookup_total_insert_eq. }
  split.
  { rewrite fmap_app. cbn. apply NoDup_app. split; [exact Ho |].
    split; [| apply NoDup_singleton].
    intros x Hx Hx'. apply list_elem_of_singleton in Hx' as ->.
    apply list_elem_of_fmap in Hx as (t & Ht & Hin). apply Hl in Hin as [Hin _].
    rewrite <- Ht in Hin. contradiction. }
  split.
  { intros e1 e2 H1 H2.
    apply elem_of_cons in H1 as [-> | H1]; apply elem_of_cons in H2 as [-> | H2].
    - reflexivity.
    - rewrite lookup_total_insert_eq, (Hsame e2 H2). cbn. intros E.
      symmetry in E. now apply Hnew in E.
    - rewrite lookup_total_insert_eq, (Hsame e1 H1). cbn. intros E. now apply Hnew in E.
    - rewrite (Hsame e1 H1), (Hsame e2 H2). now apply Hd. }
  intros e He. apply elem_of_cons in He as [-> | He].
  - exists (set_calls st). split; [lia |]. now rewrite lookup_total_insert_eq.
  - rewrite (Hsame e He). destruct (Hi e He) as (k & Hk & Hid). exists k. split; [lia | exact Hid].
Qed.

Lemma SDL_RemoveTimer_armed id st :
  armed_ok st -> armed_ok (snd (SDL_RemoveTimer id st)).
Proof.
  intros H. unfold SDL_RemoveTimer.
  destruct (id =? 0); [revert H; now apply armed_ok_same |].
  pose proof (unlink_spec (heap st) id (timermap st)) as Hu.
  destruct (unlink (heap st) id (timermap st)) as [[e |] rest].
  2: { destruct Hu as [-> _]. revert H. now apply armed_ok_same. }
  destruct Hu as (l1 & l2 & Hreg & -> & _ & _).
  destruct H as (Hn & Ha & Hl & Ho & Hd & Hi).
  assert (Hsub : l1 ++ l2 `sublist_of` timermap st).
  { rewrite Hreg. apply sublist_app; [reflexivity | apply sublist_cons; reflexivity]. }
  assert (Hin : forall x, x ∈ l1 ++ l2 -> x ∈ timermap st /\ x <> e).
  { intros x Hx. split; [eapply elem_of_sublist; eauto |]. intros ->.
    rewrite Hreg in Hn. apply NoDup_app in Hn as (_ & Hn1 & Hn2).
    apply NoDup_cons in Hn2 as [Hn2 _].
    apply elem_of_app in Hx as [Hx | Hx]; [| contradiction].
    apply (Hn1 e Hx). left. }
  unfold armed_ok, tid, issued. cbn.
  assert (Hsame : forall x, x ∈ l1 ++ l2 ->
            timeoutID (delete e (heap st) !!! x) = tid st x).
  { intros x Hx. apply Hin in Hx as [_ Hne].
    now rewrite lookup_total_delete_ne by congruence. }
  split; [exact (sublist_NoDup _ _ Hn Hsub) |].
  split.
  { intros x Hx. destruct (Hin x Hx) as [Hx' Hne]. destruct (Ha x Hx') as [Hlt Hsome].
    split; [exact Hlt |]. now rewrite lookup_delete_ne by congruence. }
  assert (Hkeep : forall t, t ∈ filter (fun t => timeout_id t <> tid st e) (timeouts st) ->
            t ∈ timeouts st /\ target t ∈ l1 ++ l2).
  { intros t Ht. apply list_elem_of_filter in Ht as [Hne Ht]. split; [exact Ht |].
    destruct (Hl t Ht) as [Hreg' Hid].
    rewrite Hreg in Hreg'. rewrite elem_of_app, elem_of_cons in Hreg'.
    rewrite elem_of_app.
    destruct Hreg' as [? | [E | ?]]; auto. rewrite E in Hid. congruence. }
  split.
  { intros t Ht. apply Hkeep in Ht as [Ht Htar]. split; [exact Htar |].
    rewrite (Hsame _ Htar). now apply Hl. }
  split.
  { eapply sublist_NoDup; [exact Ho |]. apply fmap_sublist, sublist_filter. }
  split.
  { intros e1 e2 H1 H2. rewrite (Hsame e1 H1), (Hsame e2 H2).
    apply Hd; now apply Hin. }
  intros x Hx. rewrite (Hsame x Hx). apply Hi. now apply Hin.
Qed.

(** What the helper leaves alone. *)
Lemma SDL_Emscripten_TimerHelper_shape e st :
  let st' := SDL_Emscripten_TimerHelper e st in
  timermap st' = timermap st /\ brk st' = brk st /\
  (forall x, is_Some (heap st !! x) -> is_Some (heap st' !! x)) /\
  (forall x, x <> e -> heap st' !!! x = heap st !!! x) /\
  ((timeouts st' = timeouts st /\ set_calls st' = set_calls st /\
    tid st' e = tid st e) \/
   (exists ms, timeouts st' = timeouts st ++ [mkTimeout (host_id (set_calls st)) ms e] /\
               set_calls st' = S (set_calls st) /\
               tid st' e = host_id (set_calls st))).
Proof.
  unfold SDL_Emscripten_TimerHelper.
  set (entry := heap st !!! e).
  destruct (if negb (callback_ms entry =? 0) then _ else _) as [i a].
  assert (Hsome : forall (r r' : SDL_TimerMap) x,
            is_Some (heap st !! x) -> is_Some (<[e := r]> (<[e := r']> (heap st)) !! x)).
  { intros r r' x Hx. destruct (decide (x = e)) as [-> | Hne].
    - rewrite lookup_insert_eq. eauto.
    - now rewrite !lookup_insert_ne by congruence. }
  destruct (0 <? i); cbn.
  - repeat split.
    + intros x Hx. now apply Hsome.
    + intros x Hne. now rewrite !lookup_total_insert_ne by congruence.
    + right. eexists. repeat split. unfold tid. cbn.
      now rewrite lookup_total_insert_eq.
  - repeat split.
    + intros x Hx. destruct (decide (x = e)) as [-> | Hne].
      * rewrite lookup_insert_eq. eauto.
      * now rewrite lookup_insert_ne by congruence.
    + intros x Hne. now rewrite lookup_total_insert_ne by congruence.
    + left. repeat split. unfold tid. cbn. now rewrite lookup_total_insert_eq.
Qed.

Lemma host_fires_armed k st :
  (forall i j, host_id i = host_id j -> i = j) ->
  armed_ok st -> armed_ok (host_fires k st).
Proof.
  intros Hinj H. unfold host_fires.
  destruct (timeouts st !! k) as [t |] eqn:Hk; [| exact H].
  destruct H as (Hn & Ha & Hl & Ho & Hd & Hi).
  set (st0 := with_timeouts (delete k (timeouts st)) st).
  pose proof (SDL_Emscripten_TimerHelper_shape (target t) st0) as Hs. cbv zeta in Hs.
  set (st' := SDL_Emscripten_TimerHelper (target t) st0) in *. clearbody st'.
  destruct Hs as (Hreg & Hbrk & Hsome & Hother & Hcase).
  change (timermap st0) with (timermap st) in Hreg.
  change (brk st0) with (brk st) in Hbrk.
  change (heap st0) with (heap st) in Hsome, Hother.
  change (timeouts st0) with (delete k (timeouts st)) in Hcase.
  change (set_calls st0) with (set_calls st) in Hcase.
  change (tid st0 (target t)) with (tid st (target t)) in Hcase.
  assert (Ht : t ∈ timeouts st) by (eapply list_elem_of_lookup_2; eauto).
  destruct (Hl t Ht) as [Hte Htid].
  assert (Hrest : forall t', t' ∈ delete k (timeouts st) ->
            t' ∈ timeouts st /\ target t' <> target t).
  { intros t' Ht'. split; [eapply list_elem_of_delete_inv; eauto |].
    intros E. rewrite <- (take_drop_middle _ _ _ Hk) in Ho.
    rewrite delete_take_drop in Ht'.
    rewrite fmap_app, fmap_cons in Ho. apply NoDup_app in Ho as (_ & Ho1 & Ho2).
    apply NoDup_cons in Ho2 as [Ho2 _].
    apply elem_of_app in Ht' as [Ht' | Ht'].
    - apply (Ho1 (target t)); [rewrite <- E; now apply list_elem_of_fmap_2 | left].
    - apply Ho2. rewrite <- E. now apply list_elem_of_fmap_2. }
  assert (Hsame : forall x, x <> target t -> tid st' x = tid st x).
  { intros x Hne. unfold tid. now rewrite Hother. }
  assert (Hdel : NoDup (target <$> delete k (timeouts st))).
  { eapply sublist_NoDup; [exact Ho |]. apply fmap_sublist, sublist_delete. }
  unfold armed_ok. rewrite Hreg, Hbrk.
  split; [exact Hn |].
  split; [intros e He; destruct (Ha e He); auto |].
  destruct Hcase as [(Hto & Hsc & Htid') | (ms & Hto & Hsc & Htid')]; rewrite Hto.
  - assert (Hall : forall x, tid st' x = tid st x).
    { intros x. destruct (decide (x = target t)) as [-> | Hne]; auto. }
    split.
    { intros t' Ht'. apply Hrest in Ht' as [Ht' _]. rewrite Hall. now apply Hl. }
    split; [exact Hdel |].
    split; [intros e1 e2 H1 H2; rewrite !Hall; now apply Hd |].
    intros e He. rewrite Hall. unfold issued. rewrite Hsc. now apply Hi.
  - assert (Hnew : forall e, e ∈ timermap st -> tid st e <> host_id (set_calls st)).
    { intros e He Heq. destruct (Hi e He) as (j & Hj & Hid).
      rewrite Hid in Heq. apply Hinj in Heq. lia. }
    split.
    { intros t' Ht'. apply elem_of_app in Ht' as [Ht' | Ht'].
      - apply Hrest in Ht' as [Ht' Hne]. rewrite (Hsame _ Hne). now apply Hl.
      - apply list_elem_of_singleton in Ht' as ->. cbn. split; [exact Hte | exact Htid']. }
    split.
    { rewrite fmap_app. cbn. apply NoDup_app. split; [exact Hdel |].
      split; [| apply NoDup_singleton].
      intros x Hx Hx'. apply list_elem_of_singleton in Hx' as ->.
      apply list_elem_of_fmap in Hx as (t' & Heq & Hin). apply Hrest in Hin as [_ Hne].
      congruence. }
    split.
    { intros e1 e2 H1 H2.
      destruct (decide (e1 = target t)) as [-> | N1];
        destruct (decide (e2 = target t)) as [-> | N2]; [reflexivity | | |].
      - rewrite Htid', (Hsame _ N2). intros E. symmetry in E. now apply Hnew in E.
      - rewrite Htid', (Hsame _ N1). intros E. now apply Hnew in E.
      - rewrite (Hsame _ N1), (Hsame _ N2). now apply Hd. }
    intros e He. unfold issued. rewrite Hsc.
    destruct (decide (e = target t)) as [-> | Hne].
    + exists (set_calls st). split; [lia | exact Htid'].
    + rewrite (Hsame _ Hne). destruct (Hi e He) as (j & Hj & Hid).
      exists j. split; [lia | exact Hid].
Qed.

(** X17: in the variant without threads, every pending timeout of the
    host has a live entry. If the host never returns the same timeout id
    twice, then creating a timer, removing a timer and the host running
    any pending timeout all keep the following: the registry links each
    entry once and only allocated entries; every pending timeout targets
    an entry that is in the registry and records that timeout's id; no
    entry has two pending timeouts; and the timeout ids recorded by
    different entries differ. It holds before the first call. *)
Theorem emscripten_timeouts_have_entries (a : App) (st : State)
    (i cm cn ud id : Z) (k : nat) :
  (forall j j', host_id j = host_id j' -> j = j') ->
  armed_ok (boot a) /\
  (armed_ok st ->
   armed_ok (snd (SDL_CreateTimer i cm cn ud st)) /\
   armed_ok (snd (SDL_RemoveTimer id st)) /\
   armed_ok (host_fires k st)).
Proof.
  intros Hinj. split; [apply boot_armed |]. intros H.
  split; [now apply SDL_CreateTimer_armed |].
  split; [now apply SDL_RemoveTimer_armed | now apply host_fires_armed].
Qed.

(** X18: a removed timer does not fire. On a state where every pending
    timeout has a live entry as above, a [SDL_RemoveTimer] that returns
    [true] has unlinked and freed the first entry of the registry with
    the id; afterwards no pending timeout targets that entry, and the
    pending timeouts of all other entries are still pending, in the same
    order. A call that returns [false] leaves the registry, the entries
    and the pending timeouts as they were. *)
Theorem emscripten_removed_timer_does_not_fire (id : Z) (st : State) :
  armed_ok st ->
  let r := SDL_RemoveTimer id st in
  (fst r = true ->
   exists l1 e l2,
     timermap st = l1 ++ e :: l2 /\ timermap (snd r) = l1 ++ l2 /\
     timerID (heap st !!! e) = id /\
     Forall (fun x => timerID (heap st !!! x) <> id) l1 /\
     heap (snd r) = delete e (heap st) /\
     timeouts (snd r) = filter (fun t => target t <> e) (timeouts st)) /\
  (fst r = false ->
   timermap (snd r) = timermap st /\ heap (snd r) = heap st /\
   timeouts (snd r) = timeouts st).
Proof.
  intros H r. subst r. unfold SDL_RemoveTimer.
  destruct (id =? 0); [split; [discriminate | now intros _] |].
  pose proof (unlink_spec (heap st) id (timermap st)) as Hu.
  destruct (unlink (heap st) id (timermap st)) as [[e |] rest]; cbn [fst snd].
  2: { destruct Hu as [-> _]. split; [discriminate | now intros _]. }
  split; [| discriminate]. intros _.
  destruct Hu as (l1 & l2 & Hreg & -> & He & Hl1).
  exists l1, e, l2. cbn. repeat split; try assumption.
  destruct H as (Hn & Ha & Hl & Ho & Hd & Hi).
  assert (He_in : e ∈ timermap st) by (rewrite Hreg, elem_of_app; right; left).
  apply filter_agree. intros t Ht. destruct (Hl t Ht) as [Hin Hid].
  fold (tid st e). split; intros Hne E; apply Hne.
  - rewrite E in Hid. now symmetry.
  - apply Hd; [exact Hin | exact He_in |]. now rewrite Hid.
Qed.

(** X19: [SDL_QuitTimers] of this variant unlinks and frees every entry
    of the registry and touches nothing else: no entry outside the
    registry is freed, and the host's pending timeouts are exactly as
    before, so that each still pending timeout, which had a live entry,
    now targets a freed one. *)
Theorem emscripten_quit_keeps_timeouts (st : State) :
  armed_ok st ->
  let st' := SDL_QuitTimers st in
  timermap st' = [] /\
  (forall e, e ∈ timermap st -> heap st' !! e = None) /\
  (forall e, e ∉ timermap st -> heap st' !! e = heap st !! e) /\
  timeouts st' = timeouts st /\
  (forall t, t ∈ timeouts st' ->
     is_Some (heap st !! target t) /\ heap st' !! target t = None).
Proof.
  intros (Hn & Ha & Hl & _) st'. subst st'. unfold SDL_QuitTimers. cbn.
  assert (Hfree : forall e, e ∈ timermap st ->
            free_entries (timermap st) (heap st) !! e = None).
  { intros e He. rewrite free_entries_lookup. now rewrite decide_True. }
  split; [reflexivity |]. split; [exact Hfree |].
  split; [intros e He; rewrite free_entries_lookup; now rewrite decide_False |].
  split; [reflexivity |].
  intros t Ht. destruct (Hl t Ht) as [Hin _]. split; [now apply Ha | now apply Hfree].
Qed.

(** X20: what one expiry does. When the host runs a pending timeout of
    a state as above, the callback of its entry is called once, with the
    entry's user data, id and interval (in milliseconds for a millisecond
    callback), and the entry records the interval it returns, converted
    to nanoseconds. If that interval is positive, exactly one timeout is
    set, for the same entry and that interval in whole milliseconds, and
    the entry records its id; otherwise none is set and the entry stays
    in the registry without a pending timeout. The other pending timeouts
    stay pending, and the registry is unchanged. *)
Theorem emscripten_expiry_rearms (k : nat) (t : Timeout) (st : State) :
  armed_ok st ->
  timeouts st !! k = Some t ->
  let e := target t in
  let entry := heap st !!! e in
  let r := if callback_ms entry =? 0
           then invoke_ns (callback_ns entry) (userdata entry) (timerID entry)
                  (interval entry) (app_state st)
           else invoke_ms (callback_ms entry) (userdata entry) (timerID entry)
                  (wrap32 (SDL_NS_TO_MS (interval entry))) (app_state st) in
  let i := if callback_ms entry =? 0 then wrap64 (fst r)
           else SDL_MS_TO_NS (wrap32 (fst r)) in
  let st' := host_fires k st in
  e ∈ timermap st /\
  timermap st' = timermap st /\ app_state st' = snd r /\
  interval (heap st' !!! e) = i /\
  timeouts st' =
    delete k (timeouts st) ++
    (if 0 <? i then [mkTimeout (host_id (set_calls st)) (SDL_NS_TO_MS i) e] else []) /\
  (0 < i -> tid st' e = host_id (set_calls st)) /\
  (i <= 0 -> forall t', t' ∈ timeouts st' -> target t' <> e).
Proof.
  intros H Hk e entry r i st'.
  destruct H as (Hn & Ha & Hl & Ho & Hd & Hi).
  assert (Ht : t ∈ timeouts st) by (eapply list_elem_of_lookup_2; eauto).
  destruct (Hl t Ht) as [Hte Htid]. split; [exact Hte |].
  assert (Hrest : forall t', t' ∈ delete k (timeouts st) -> target t' <> e).
  { intros t' Ht' E. unfold e in E. rewrite <- (take_drop_middle _ _ _ Hk) in Ho.
    rewrite delete_take_drop in Ht'.
    rewrite fmap_app, fmap_cons in Ho. apply NoDup_app in Ho as (_ & Ho1 & Ho2).
    apply NoDup_cons in Ho2 as [Ho2 _].
    apply elem_of_app in Ht' as [Ht' | Ht'].
    - apply (Ho1 (target t)); [rewrite <- E; now apply list_elem_of_fmap_2 | left].
    - apply Ho2. rewrite <- E. now apply list_elem_of_fmap_2. }
  subst st'. unfold host_fires. rewrite Hk. fold e.
  unfold SDL_Emscripten_TimerHelper. cbn [heap with_timeouts app_state]. fold entry.
  subst i r. destruct (callback_ms entry =? 0); cbn [negb].
  - destruct (invoke_ns _ _ _ _ _) as [x a']. cbn [fst snd].
    destruct (Z.ltb_spec 0 (wrap64 x)); cbn; unfold tid; cbn;
      rewrite ?lookup_total_insert_eq; cbn; rewrite ?app_nil_r;
      repeat split; try reflexivity; try lia.
    intros _ t' Ht'. now apply Hrest.
  - destruct (invoke_ms _ _ _ _ _) as [x a']. cbn [fst snd].
    destruct (Z.ltb_spec 0 (SDL_MS_TO_NS (wrap32 x))); cbn; unfold tid; cbn;
      rewrite ?lookup_total_insert_eq; cbn; rewrite ?app_nil_r;
      repeat split; try reflexivity; try lia.
    intros _ t' Ht'. now apply Hrest.
Qed.

End Loop.

(** A small application for the instances: the host numbers its
    timeouts 1, 2, ...; millisecond callbacks ask for 10 ms again and
    nanosecond callbacks stop their timer. *)
Definition demo_id (k : nat) : Z := Z.of_nat (S k).

Definition demo_create (i cm cn : Z) (st : @State unit) : Z * @State unit :=
  SDL_CreateTimer demo_id (fun _ => true) i cm cn 0 st.

Definition demo : @State unit :=
  snd (demo_create 5000000 0 9 (snd (demo_create 16000000 7 0 (boot tt)))).

Lemma demo_id_inj j k : demo_id j = demo_id k -> j = k.
Proof. unfold demo_id. lia. Qed.

Lemma demo_armed : armed_ok demo_id demo.
Proof.
  unfold demo, demo_create.
  apply SDL_CreateTimer_armed; [exact demo_id_inj |].
  apply SDL_CreateTimer_armed; [exact demo_id_inj |]. apply boot_armed.
Qed.

(** X17, an instance: the small application. *)
Lemma emscripten_timeouts_have_entries_witness :
  armed_ok demo_id (snd (SDL_RemoveTimer 1 demo)) /\
  armed_ok demo_id (host_fires Timers.Demo.every_10ms Timers.Demo.once demo_id 0 demo).
Proof.
  destruct (emscripten_timeouts_have_entries Timers.Demo.every_10ms Timers.Demo.once
              demo_id (fun _ => true) tt demo 0 0 0 0 1 0 demo_id_inj) as (_ & H).
  destruct (H demo_armed) as (_ & Hr & Hf). split; [exact Hr | exact Hf].
Defined.

(** X18, an instance: removing the first timer of the small
    application leaves only the timeout of the second. *)
Lemma emscripten_removed_timer_does_not_fire_witness :
  fst (SDL_RemoveTimer 1 demo) = true /\
  timeouts (snd (SDL_RemoveTimer 1 demo)) = [mkTimeout 2 5 1%nat].
Proof.
  destruct (emscripten_removed_timer_does_not_fire demo_id 1 demo demo_armed) as (Ht & _).
  assert (E : fst (SDL_RemoveTimer 1 demo) = true) by (vm_compute; reflexivity).
  split; [exact E |].
  destruct (Ht E) as (l1 & e & l2 & _). vm_compute. reflexivity.
Defined.

(** X19, an instance: shutting down the small application. *)
Lemma emscripten_quit_keeps_timeouts_witness :
  timermap (SDL_QuitTimers demo) = [] /\
  timeouts (SDL_QuitTimers demo) = [mkTimeout 1 16 0%nat; mkTimeout 2 5 1%nat].
Proof.
  destruct (emscripten_quit_keeps_timeouts demo_id demo demo_armed) as (Hr & _ & _ & Ht & _).
  split; [exact Hr |]. rewrite Ht. vm_compute. reflexivity.
Defined.

(** X20, an instance: the 16 ms timer of the small application expires
    and is armed again for 10 ms. *)
Lemma emscripten_expiry_rearms_witness :
  timeouts (host_fires Timers.Demo.every_10ms Timers.Demo.once demo_id 0 demo)
    = [mkTimeout 2 5 1%nat; mkTimeout 3 10 0%nat].
Proof.
  destruct (emscripten_expiry_rearms Timers.Demo.every_10ms Timers.Demo.once demo_id
              0 (mkTimeout 1 16 0%nat) demo demo_armed) as (_ & _ & _ & _ & Ht & _).
  - vm_compute. reflexivity.
  - rewrite Ht. vm_compute. reflexivity.
Defined.

End Emscripten.
